(** * Batch transfer ("sweep") pipeline of useBatchTransfer.ts

    A shallow embedding of
    [packages/uniswap/src/features/transactions/swap/hooks/useBatchTransfer.ts]:
    the NFT catalog cache ([getCache], [setCache], [clearCache],
    [fetchNFTsFromMoralis]) and the body of [executeBatchTransfer]
    (gas reserve, native transfer, NFT transfers, ERC-20 ranking, calldata
    construction, precheck, final ranking, validation and submission).
    Around it: the token list and the NFT list that the sweep reads in its
    first step, the environment variables and chain tables of moralisApi.ts
    ([getEnvVar], [getChainNameForMoralis]) and the handler of the swap
    button that starts the sweep ([handleApproveAndSwap]).  The sweep is
    modelled with a public client at hand, as its caller guarantees.

    Conventions of the embedding.
    - A JavaScript [bigint] is a [Z].  A decimal string that was produced by
      [bigint.toString()] (token balances, token ids) is the [Z] it denotes.
    - A JavaScript [number] (USD values) is a rational [Q]; [NaN] is made
      explicit where the code tests for it.  Where the code computes with
      doubles, each operation is rounded by the world's [toDouble].
      [parseFloat] on integer strings is rounded to 53 bits exactly
      ([roundToDouble]), because the code turns the result back into a
      [bigint].
    - Strings are [string]; [toLowerCase]/[toUpperCase] act on ASCII letters.
    - [localStorage] is a finite map from keys to parsed cache entries.
    - Effects (eth_call, wallet_sendCalls, alert, React setters, HTTP
      requests) are recorded in a chronological trace. *)

From stdpp Require Import gmap strings.
From Stdlib Require Import ZArith QArith Qround Qabs Lqa Lia List Permutation.
From Stdlib Require Import Sorted.
From Stdlib Require Import String Ascii DecimalString DecimalZ.
Import ListNotations.
Open Scope Z_scope.

(* ===================================================================== *)
(** ** JavaScript strings *)
(* ===================================================================== *)

Definition lowerChar (c : ascii) : ascii :=
  let n := nat_of_ascii c in
  if ((65 <=? n) && (n <=? 90))%nat then ascii_of_nat (n + 32) else c.

Definition upperChar (c : ascii) : ascii :=
  let n := nat_of_ascii c in
  if ((97 <=? n) && (n <=? 122))%nat then ascii_of_nat (n - 32) else c.

Fixpoint mapString (f : ascii -> ascii) (s : string) : string :=
  match s with
  | EmptyString => EmptyString
  | String c s' => String (f c) (mapString f s')
  end.

(** [String.prototype.toLowerCase] / [toUpperCase]. *)
Definition toLowerCase : string -> string := mapString lowerChar.
Definition toUpperCase : string -> string := mapString upperChar.

(** [s.startsWith(p)]. *)
Fixpoint startsWith (s p : string) {struct p} : bool :=
  match p, s with
  | EmptyString, _ => true
  | String c p', String d s' => Ascii.eqb c d && startsWith s' p'
  | String _ _, EmptyString => false
  end.
Arguments startsWith : simpl never.

(** [s.slice(n)]: the string without its first [n] characters. *)
Fixpoint slice (n : nat) (s : string) : string :=
  match n, s with
  | O, _ => s
  | S n', String _ s' => slice n' s'
  | S _, EmptyString => EmptyString
  end.

(** The first [n] characters of [s] ([s.slice(0, n)]). *)
Fixpoint sliceTo (n : nat) (s : string) : string :=
  match n, s with
  | S n', String c s' => String c (sliceTo n' s')
  | _, _ => EmptyString
  end.

Fixpoint repeatChar (c : ascii) (n : nat) : string :=
  match n with
  | O => EmptyString
  | S n' => String c (repeatChar c n')
  end.

(** [s.padStart(n, c)] for a one-character pad string: nothing is removed
    when [s] is already longer than [n]. *)
Definition padStart (n : nat) (c : ascii) (s : string) : string :=
  (repeatChar c (n - String.length s) ++ s)%string.

(** Decimal rendering of an integer inside a template literal. *)
Definition decimalString (z : Z) : string :=
  NilZero.string_of_int (Z.to_int z).

(* ===================================================================== *)
(** ** Hexadecimal: [bigint.toString(16)] and its inverse *)
(* ===================================================================== *)

Definition hexChar (d : Z) : ascii :=
  if d <? 10 then ascii_of_nat (Z.to_nat d + 48)
  else ascii_of_nat (Z.to_nat d + 87).

Fixpoint hexDigitsAux (fuel : nat) (n : Z) (acc : string) : string :=
  match fuel with
  | O => acc
  | S f =>
      if n <? 16 then String (hexChar n) acc
      else hexDigitsAux f (n / 16) (String (hexChar (n mod 16)) acc)
  end.

(** Hexadecimal digits of a non-negative integer, most significant first,
    without leading zeros (["0"] for zero). *)
Definition natToString16 (n : Z) : string :=
  hexDigitsAux (S (Z.to_nat (Z.log2 n))) n EmptyString.

(** [z.toString(16)] for a bigint [z]: a minus sign precedes the digits of a
    negative number. *)
Definition toString16 (z : Z) : string :=
  if z <? 0 then String "-"%char (natToString16 (- z)) else natToString16 z.

Definition hexDigitValue (c : ascii) : option Z :=
  let n := nat_of_ascii c in
  if ((48 <=? n) && (n <=? 57))%nat then Some (Z.of_nat n - 48)
  else if ((97 <=? n) && (n <=? 102))%nat then Some (Z.of_nat n - 87)
  else if ((65 <=? n) && (n <=? 70))%nat then Some (Z.of_nat n - 55)
  else None.

Fixpoint hexValue (s : string) (acc : Z) : option Z :=
  match s with
  | EmptyString => Some acc
  | String c s' =>
      match hexDigitValue c with
      | Some d => hexValue s' (16 * acc + d)
      | None => None
      end
  end.

(** Value of a string of hexadecimal digits (either case), big-endian. *)
Definition parseHex (s : string) : option Z := hexValue s 0.

(* ===================================================================== *)
(** ** Standard ABI decoding of a call payload *)
(* ===================================================================== *)

(** Reads [k] consecutive 32-byte words (64 hex digits each) as unsigned
    big-endian integers; the payload must end after the last word. *)
Fixpoint abiWords (k : nat) (s : string) : option (list Z) :=
  match k with
  | O => if String.eqb s EmptyString then Some [] else None
  | S k' =>
      if (String.length (sliceTo 64 s) =? 64)%nat then
        match parseHex (sliceTo 64 s), abiWords k' (slice 64 s) with
        | Some w, Some ws => Some (w :: ws)
        | _, _ => None
        end
      else None
  end.

(** Splits ["0x" ++ selector ++ words] into the 4-byte selector (as a number)
    and [k] argument words. *)
Definition abiDecode (k : nat) (payload : string) : option (Z * list Z) :=
  if startsWith payload "0x" then
    let body := slice 2 payload in
    if (String.length (sliceTo 8 body) =? 8)%nat then
      match parseHex (sliceTo 8 body), abiWords k (slice 8 body) with
      | Some sel, Some ws => Some (sel, ws)
      | _, _ => None
      end
    else None
  else None.

(** An [address] argument is a word whose upper 96 bits are zero. *)
Definition abiAddress (w : Z) : option Z :=
  if w <? 2 ^ 160 then Some w else None.

(** [transfer(address,uint256)]: selector 0xa9059cbb. *)
Definition decodeErc20Transfer (payload : string) : option (Z * Z) :=
  match abiDecode 2 payload with
  | Some (sel, [w1; w2]) =>
      if sel =? 0xa9059cbb then
        match abiAddress w1 with
        | Some recipient => Some (recipient, w2)
        | None => None
        end
      else None
  | _ => None
  end.

(** [safeTransferFrom(address,address,uint256)]: selector 0x42842e0e. *)
Definition decodeErc721Transfer (payload : string) : option (Z * Z * Z) :=
  match abiDecode 3 payload with
  | Some (sel, [w1; w2; w3]) =>
      if sel =? 0x42842e0e then
        match abiAddress w1, abiAddress w2 with
        | Some from, Some to => Some (from, to, w3)
        | _, _ => None
        end
      else None
  | _ => None
  end.

(** [safeTransferFrom(address,address,uint256,uint256,bytes)]: selector
    0xf242432a; the dynamic [bytes] argument is read at its offset (in bytes)
    from the start of the arguments and must here be empty. *)
Definition decodeErc1155Transfer (payload : string)
  : option (Z * Z * Z * Z) :=
  match abiDecode 6 payload with
  | Some (sel, [w1; w2; w3; w4; off; len]) =>
      if (sel =? 0xf242432a) && (off =? 5 * 32) && (len =? 0) then
        match abiAddress w1, abiAddress w2 with
        | Some from, Some to => Some (from, to, w3, w4)
        | _, _ => None
        end
      else None
  | _ => None
  end.

(** The 20-byte value denoted by a ["0x"]-prefixed address string. *)
Definition addressValue (a : string) : option Z := parseHex (slice 2 a).

(* ===================================================================== *)
(** ** JavaScript numbers and values *)
(* ===================================================================== *)

(** A [number] as far as the code inspects it: [NaN] or a value. *)
Inductive number : Type :=
| NaN
| Num (q : Q).

(** The dynamically typed values the code sniffs with [typeof]. *)
Inductive JsValue : Type :=
| JUndefined
| JNull
| JBool (b : bool)
| JNumber (n : number)
| JBigInt (z : Z)
| JString (s : string)
| JObject.

Definition Qltb (x y : Q) : bool :=
  match (x ?= y)%Q with Lt => true | _ => false end.

(** Truthiness, as tested by [if (v)]. *)
Definition truthy (v : JsValue) : bool :=
  match v with
  | JUndefined | JNull => false
  | JBool b => b
  | JNumber NaN => false
  | JNumber (Num q) => negb (Qeq_bool q 0)
  | JBigInt z => negb (z =? 0)
  | JString s => negb (String.eqb s EmptyString)
  | JObject => true
  end.

(** [Math.round]: the nearest integer, halves going up. *)
Definition mathRound (q : Q) : Z := Qfloor (q + (1 # 2)).

(** The result of [parseFloat] on the decimal string of an integer: an
    integer-valued double, or an infinity when the magnitude overflows. *)
Inductive jsfloat : Type :=
| Finite (z : Z)
| PlusInfinity
| MinusInfinity.

(** Rounding of an integer to the nearest double (53-bit significand, ties
    to even), as an exact integer. *)
Definition roundToDouble (n : Z) : Z :=
  let a := Z.abs n in
  if a <? 2 ^ 53 then n
  else
    let e := Z.log2 a - 52 in
    let q := a / 2 ^ e in
    let r := a mod 2 ^ e in
    let half := 2 ^ (e - 1) in
    let q' := if r <? half then q
              else if half <? r then q + 1
              else if Z.even q then q else q + 1 in
    Z.sgn n * (q' * 2 ^ e).

(** [parseFloat(s)] where [s] is the decimal string of the integer [n]. *)
Definition parseFloatInt (n : Z) : jsfloat :=
  let d := roundToDouble n in
  if 2 ^ 1024 <=? d then PlusInfinity
  else if d <=? - 2 ^ 1024 then MinusInfinity
  else Finite d.

(** [x > 0] on such a double. *)
Definition floatPositive (x : jsfloat) : bool :=
  match x with
  | Finite z => 0 <? z
  | PlusInfinity => true
  | MinusInfinity => false
  end.

(** Sign of [x - y] as a comparator result: [Lt] negative, [Gt] positive,
    [Eq] for zero and for [NaN] (infinity minus itself), which
    [Array.prototype.sort] treats as zero. *)
Definition floatSubSign (x y : jsfloat) : comparison :=
  match x, y with
  | Finite a, Finite b => a ?= b
  | PlusInfinity, PlusInfinity => Eq
  | MinusInfinity, MinusInfinity => Eq
  | PlusInfinity, _ => Gt
  | _, PlusInfinity => Lt
  | MinusInfinity, _ => Lt
  | _, MinusInfinity => Gt
  end.

(** [BigInt(Math.floor(x))]: throws a RangeError on an infinity. *)
Definition bigIntOfFloat (x : jsfloat) : option Z :=
  match x with
  | Finite z => Some z
  | _ => None
  end.

(* ===================================================================== *)
(** ** [Array.prototype.sort] *)
(* ===================================================================== *)

(** The comparator's result is kept as its sign: [Lt] when [a] goes first,
    [Gt] when [b] goes first, [Eq] when the order is left alone.  The sort is
    stable (ECMAScript 2019); for a consistent comparator every stable sort
    returns the same array, here computed by insertion from the right. *)
Section Sort.
Context {A : Type} (cmp : A -> A -> comparison).

Fixpoint insertSorted (x : A) (l : list A) : list A :=
  match l with
  | [] => [x]
  | y :: l' =>
      match cmp x y with
      | Gt => y :: insertSorted x l'
      | _ => x :: l
      end
  end.

Definition sort (l : list A) : list A := fold_right insertSorted [] l.

(** The order the comparator asks for: [a] may stand before [b]. *)
Definition mayPrecede (a b : A) : Prop := cmp a b <> Gt.
End Sort.

(* ===================================================================== *)
(** ** Data model of [executeBatchTransfer] *)
(* ===================================================================== *)

(** An entry of [allTokens] (the [tokenData] object).  [balance] is the
    decimal string [balanceRaw]; being a non-empty string it is what
    [asset.balance || asset.balance_formatted || asset.token_balance || '0']
    evaluates to.  [usd_value] is [tokenBalance.valueUSD || 0], a number. *)
Record Asset : Type := {
  token_address : string;
  symbol : string;
  decimals : Z;
  balance : Z;
  usd_price : Q;
  usd_value : Q;
  native_token : bool
}.

(** An entry of [nftList] as returned by the NFT-listing API
    ([format=decimal]): [token_id] is a decimal string, [amount] is absent or
    a decimal string. *)
Record NFT : Type := {
  contract_type : string;
  token_id : Z;
  nft_token_address : string;
  floor_price_usd : JsValue;
  amount : option Z
}.

Inductive TxType : Type :=
| native_transfer
| erc20_transfer
| erc721_transfer
| erc1155_transfer.

Definition TxType_eqb (a b : TxType) : bool :=
  match a, b with
  | native_transfer, native_transfer
  | erc20_transfer, erc20_transfer
  | erc721_transfer, erc721_transfer
  | erc1155_transfer, erc1155_transfer => true
  | _, _ => false
  end.

(** An entry of [allTransactions] / [allValidTransactions].  The display
    string [description] is left out; [tx_balance] is the [balance] field
    that only ERC-20 entries carry. *)
Record Transaction : Type := {
  tx_type : TxType;
  tx_to : string;
  tx_value : JsValue;
  tx_data : option string;
  tx_usd_value : Q;
  tx_balance : option Z
}.

(** An entry of [calls], as handed to [sendCalls]. *)
Record Call : Type := {
  call_to : string;
  call_value : Z;
  call_data : option string
}.

(** The request of [publicClient.call]. *)
Record CallRequest : Type := {
  req_to : string;
  req_data : string;
  req_account : string
}.

(** Errors thrown inside the [try] block. *)
Inductive Error : Type :=
| InvalidAddressAtTransaction (index : nat) (to : string)
| BigIntConversionFailed (index : nat)
| InvalidChainId (chainId : Z)
| InvalidCallTo (index : nat)
| InvalidCallValueType (index : nat)
| InvalidCallData (index : nat)
| WalletRejected.

Inductive AlertMessage : Type :=
| WalletAddressNotAvailable
| NoValidTransactionsFound
| ErrorMessage (e : Error).

(** Observable effects, in the order they happen. *)
Inductive Event : Type :=
| SetIsPrechecking (b : bool)
| SetCurrentSendCallsOperation (op : option string)
| EthCall (r : CallRequest)
| SendCalls (chainId : Z) (calls : list Call)
| Alert (m : AlertMessage).

(** How [executeBatchTransfer] ended. *)
Inductive Outcome : Type :=
| NoWallet
| NothingToTransfer
| Aborted (e : Error)
| Submitted.

(** The parsed content of a [localStorage] item written by [setCache]. *)
Record CacheEntry : Type := {
  data : list NFT;
  timestamp : Z
}.

(** [localStorage] as far as the cache uses it: the items written by
    [setCache], by key. *)
Abbreviation Storage := (gmap string CacheEntry).

(** What the code reads from outside: [parseFloat] on arbitrary strings,
    [BigInt] on arbitrary strings ([None] when it throws), the double that
    is nearest to a real number (the rounding of [Number(...)] and of every
    floating-point product and quotient), the outcome of a read-only
    simulated call ([true] when it resolves, [false] when it reverts or
    fails), the wallet's answer to [sendCalls] ([true] when the promise
    resolves), whether [localStorage.setItem] of an item under a key goes
    through on a given store ([false] when it throws, as it does when the
    quota is exceeded), and the order in which [Object.keys(localStorage)]
    lists the keys of a store. *)
Record World : Type := {
  parseFloat : string -> number;
  bigIntOfString : string -> option Z;
  toDouble : Q -> Q;
  ethCall : CallRequest -> bool;
  sendCalls : Z -> list Call -> bool;
  setItemSucceeds : Storage -> string -> CacheEntry -> bool;
  objectKeys : Storage -> list string
}.

(** State of a sweep after cataloging (steps 1.1 to 1.3): the parameters of
    the hook and the catalog.  [nativeBalance] is also the value of
    [BigInt(nativeBalanceStr)], the two being set together. *)
Record Inputs : Type := {
  address : string;
  targetAddress : string;
  operationType : string;
  chainId : Z;
  allTokens : list Asset;
  nftList : list NFT;
  nativeBalance : Z;
  nativeTokenPrice : Q;
  nativeTokenUsdValue : Q
}.

Definition MAX_BATCH_SIZE : nat := 10.
Definition MAX_PRECHECK_COUNT : nat := 20.

(* ===================================================================== *)
(** ** A trace-and-exception monad for the effectful part *)
(* ===================================================================== *)

Inductive Result (A : Type) : Type :=
| Ok (a : A)
| Throw (e : Error).
Arguments Ok {A} a.
Arguments Throw {A} e.

Definition M (A : Type) : Type := list Event -> Result A * list Event.

Definition ret {A} (a : A) : M A := fun t => (Ok a, t).
Definition throw {A} (e : Error) : M A := fun t => (Throw e, t).
Definition emit (e : Event) : M unit := fun t => (Ok tt, t ++ [e]).
Definition bind {A B} (m : M A) (k : A -> M B) : M B :=
  fun t => match m t with
           | (Ok a, t') => k a t'
           | (Throw e, t') => (Throw e, t')
           end.
Definition tryCatch {A} (m : M A) (h : Error -> M A) : M A :=
  fun t => match m t with
           | (Ok a, t') => (Ok a, t')
           | (Throw e, t') => h e t'
           end.

Declare Scope sweep_scope.
Delimit Scope sweep_scope with sweep.
Notation "'let*' x ':=' m 'in' k" := (bind m (fun x => k))
  (at level 10, x name, m at level 100, k at level 200) : sweep_scope.
Open Scope sweep_scope.

(* ===================================================================== *)
(** ** Gas budget (lines 967-1011) *)
(* ===================================================================== *)

Module defaults.
Definition base : Z := 46000.
Definition native : Z := 21000.
Definition safety : Z := 20000.
Definition perErc20 : Z := 55000.
Definition perErc721 : Z := 60000.
Definition perErc1155 : Z := 60000.
End defaults.

(** [Math.min(validERC20AssetsForGas.length, MAX_PRECHECK_COUNT)]. *)
Definition erc20TransfersCount (validErc20 : nat) : Z :=
  Z.of_nat (Nat.min validErc20 MAX_PRECHECK_COUNT).

Definition totalEstimatedGas (validErc20 erc721 erc1155 : nat) : Z :=
  defaults.base
  + defaults.native
  + defaults.perErc20 * erc20TransfersCount validErc20
  + defaults.perErc721 * Z.of_nat erc721
  + defaults.perErc1155 * Z.of_nat erc1155
  + defaults.safety.

(** The hard-coded gas price table, in Gwei. *)
Definition chainGasPriceGwei (chainId : Z) : option Q :=
  if chainId =? 1 then Some (4 # 1)%Q
  else if chainId =? 137 then Some (80 # 1)%Q
  else if chainId =? 56 then Some (3 # 10)%Q
  else if chainId =? 42161 then Some (5 # 10)%Q
  else if chainId =? 8453 then Some (5 # 10)%Q
  else if chainId =? 10 then Some (5 # 10)%Q
  else if chainId =? 143 then Some (150 # 1)%Q
  else if chainId =? 11155111 then Some (2 # 100)%Q
  else None.

(** [chainGasPriceGwei[chainId] ?? 0.5]. *)
Definition baseGwei (chainId : Z) : Q :=
  match chainGasPriceGwei chainId with
  | Some g => g
  | None => (5 # 10)%Q
  end.

(** [Math.max(1, Math.round(baseGwei * 1_000_000_000))]. *)
Definition baseWei (chainId : Z) : Z :=
  Z.max 1 (mathRound (baseGwei chainId * inject_Z 1000000000)).

(** [(BigInt(baseWei) * 12n) / 10n]. *)
Definition gasPriceWei (chainId : Z) : Z := baseWei chainId * 12 / 10.

Definition totalGasCost (chainId : Z) (validErc20 erc721 erc1155 : nat) : Z :=
  totalEstimatedGas validErc20 erc721 erc1155 * gasPriceWei chainId.

(* ===================================================================== *)
(** ** Candidate pools (lines 907-936) *)
(* ===================================================================== *)

(** [asset.native_token === false && parseFloat(balanceValue) > 0]. *)
Definition isValidERC20 (asset : Asset) : bool :=
  negb (native_token asset) && floatPositive (parseFloatInt (balance asset)).

Definition validERC20AssetsForGas (inp : Inputs) : list Asset :=
  List.filter isValidERC20 (allTokens inp).

Definition hasContractType (t : string) (nft : NFT) : bool :=
  String.eqb (toUpperCase (contract_type nft)) t.

Definition erc721NFTs (inp : Inputs) : list NFT :=
  List.filter (hasContractType "ERC721") (nftList inp).

Definition erc1155NFTs (inp : Inputs) : list NFT :=
  List.filter (hasContractType "ERC1155") (nftList inp).

(** The reserve of the sweep: [totalGasCost] at the provisional counts. *)
Definition reserveWei (inp : Inputs) : Z :=
  totalGasCost (chainId inp)
    (List.length (validERC20AssetsForGas inp))
    (List.length (erc721NFTs inp))
    (List.length (erc1155NFTs inp)).

(** [targetAddress.toLowerCase()]. *)
Definition TARGET (inp : Inputs) : string := toLowerCase (targetAddress inp).

(* ===================================================================== *)
(** ** Native transfer (lines 1021-1064) *)
(* ===================================================================== *)

(** USD value attached to the native transfer (lines 1028-1040), computed
    in doubles: the cached value times
    [Number(transferAmount) / Number(totalBalance)], else
    [Number(formatUnits(transferAmount, 18))] times the unit price, else
    zero.  Each conversion, quotient and product is rounded by [toDouble]. *)
Definition nativeUsdValue (w : World) (usdValue price : Q)
    (transferAmount totalBalance : Z) : Q :=
  if Qltb 0 usdValue then
    if 0 <? totalBalance then
      let transferRatio :=
        toDouble w (toDouble w (inject_Z transferAmount)
                    / toDouble w (inject_Z totalBalance))%Q in
      toDouble w (usdValue * transferRatio)%Q
    else usdValue
  else if Qltb 0 price then
    toDouble w
      (toDouble w (inject_Z transferAmount / inject_Z (10 ^ 18))%Q * price)%Q
  else 0%Q.

Definition nativeTransfers (w : World) (inp : Inputs) (totalGasCost : Z)
  : list Transaction :=
  if totalGasCost <? nativeBalance inp then
    let transferAmount := nativeBalance inp - totalGasCost in
    [ {| tx_type := native_transfer;
         tx_to := TARGET inp;
         tx_value := JBigInt transferAmount;
         tx_data := None;
         tx_usd_value :=
           nativeUsdValue w (nativeTokenUsdValue inp) (nativeTokenPrice inp)
             transferAmount (nativeBalance inp);
         tx_balance := None |} ]
  else [].

(* ===================================================================== *)
(** ** NFT transfers (lines 1077-1220) *)
(* ===================================================================== *)

(** The floor price as parsed at lines 1089-1097: missing, non-string and
    non-number values, and anything that parses to [NaN], count as zero. *)
Definition floorPriceUsd (w : World) (nft : NFT) : Q :=
  match floor_price_usd nft with
  | JString s =>
      match parseFloat w s with
      | NaN => 0%Q
      | Num q => q
      end
  | JNumber n =>
      match n with
      | NaN => 0%Q
      | Num q => q
      end
  | _ => 0%Q
  end.

(** [floorPriceUsd <= 0 || isNaN(floorPriceUsd)]; the second test cannot hold
    after the parse above. *)
Definition hasNoValidPrice (w : World) (nft : NFT) : bool :=
  Qle_bool (floorPriceUsd w nft) 0.

Definition erc721Data (address TARGET : string) (nft : NFT) : string :=
  let tokenId := padStart 64 "0" (toString16 (token_id nft)) in
  let fromAddress := padStart 64 "0" (slice 2 address) in
  let toAddress := padStart 64 "0" (slice 2 TARGET) in
  ("0x42842e0e" ++ fromAddress ++ toAddress ++ tokenId)%string.

Definition erc721Transaction (w : World) (inp : Inputs) (nft : NFT)
  : Transaction :=
  {| tx_type := erc721_transfer;
     tx_to := nft_token_address nft;
     tx_value := JBigInt 0;
     tx_data := Some (erc721Data (address inp) (TARGET inp) nft);
     tx_usd_value := floorPriceUsd w nft;
     tx_balance := None |}.

(** [nft.amount] parsed with [BigInt], defaulting to 1. *)
Definition erc1155Amount (nft : NFT) : Z :=
  match amount nft with
  | Some a => a
  | None => 1
  end.

Definition erc1155Data (address TARGET : string) (nft : NFT) : string :=
  let tokenIdHex := padStart 64 "0" (toString16 (token_id nft)) in
  let amountHex := padStart 64 "0" (toString16 (erc1155Amount nft)) in
  let fromAddress := padStart 64 "0" (slice 2 address) in
  let toAddress := padStart 64 "0" (slice 2 TARGET) in
  let dataOffset :=
    "00000000000000000000000000000000000000000000000000000000000000a0" in
  let dataLength :=
    "0000000000000000000000000000000000000000000000000000000000000000" in
  ("0xf242432a" ++ fromAddress ++ toAddress ++ tokenIdHex ++ amountHex
     ++ dataOffset ++ dataLength)%string.

Definition erc1155Transaction (w : World) (inp : Inputs) (nft : NFT)
  : Transaction :=
  {| tx_type := erc1155_transfer;
     tx_to := nft_token_address nft;
     tx_value := JBigInt 0;
     tx_data := Some (erc1155Data (address inp) (TARGET inp) nft);
     tx_usd_value := floorPriceUsd w nft;
     tx_balance := None |}.

(** An NFT whose floor price parses to a positive number. *)
Definition hasValidPrice (w : World) (nft : NFT) : bool :=
  negb (hasNoValidPrice w nft).

(** One iteration of a [forEach] body: [return] on a priceless NFT, [push]
    otherwise. *)
Definition pushNft (w : World) (mk : NFT -> Transaction)
    (allTransactions : list Transaction) (nft : NFT) : list Transaction :=
  if hasNoValidPrice w nft then allTransactions
  else allTransactions ++ [mk nft].

(** [allTransactions] after steps 2.1, 2.2 and 2.3. *)
Definition allTransactions (w : World) (inp : Inputs) : list Transaction :=
  let afterNative := [] ++ nativeTransfers w inp (reserveWei inp) in
  let afterErc721 :=
    fold_left (pushNft w (erc721Transaction w inp)) (erc721NFTs inp)
      afterNative in
  fold_left (pushNft w (erc1155Transaction w inp)) (erc1155NFTs inp)
    afterErc721.

(* ===================================================================== *)
(** ** ERC-20 ranking and calldata (lines 1232-1301) *)
(* ===================================================================== *)

(** The comparator of [validERC20Assets.sort]. *)
Definition erc20Comparator (a b : Asset) : comparison :=
  let valueA := usd_value a in
  let valueB := usd_value b in
  if Qltb 0 valueA && Qltb 0 valueB then (valueB ?= valueA)%Q
  else if Qltb 0 valueA then Lt
  else if Qltb 0 valueB then Gt
  else
    let balanceA := parseFloatInt (balance a) in
    let balanceB := parseFloatInt (balance b) in
    floatSubSign balanceB balanceA.

Definition validERC20Assets (inp : Inputs) : list Asset :=
  sort erc20Comparator (validERC20AssetsForGas inp).

(** [validERC20Assets.slice(0, MAX_PRECHECK_COUNT)]. *)
Definition erc20ToPrecheck (inp : Inputs) : list Asset :=
  firstn MAX_PRECHECK_COUNT (validERC20Assets inp).

Definition erc20Data (TARGET : string) (balance : Z) : string :=
  let transferAmount := padStart 64 "0" (toString16 balance) in
  let recipientAddress := padStart 64 "0" (slice 2 TARGET) in
  ("0xa9059cbb" ++ recipientAddress ++ transferAmount)%string.

(** The amount that is encoded: the balance string goes through
    [BigInt(Math.floor(parseFloat(validBalanceValue)))]; [None] when that
    throws, which the surrounding [try] turns into skipping the asset. *)
Definition erc20TransferBalance (asset : Asset) : option Z :=
  bigIntOfFloat (parseFloatInt (balance asset)).

Definition erc20Transaction (inp : Inputs) (asset : Asset)
  : option Transaction :=
  match erc20TransferBalance asset with
  | Some balance =>
      Some {| tx_type := erc20_transfer;
              tx_to := token_address asset;
              tx_value := JBigInt 0;
              tx_data := Some (erc20Data (TARGET inp) balance);
              tx_usd_value := usd_value asset;
              tx_balance := Some balance |}
  | None => None
  end.

Definition pushErc20 (inp : Inputs) (txs : list Transaction) (asset : Asset)
  : list Transaction :=
  match erc20Transaction inp asset with
  | Some tx => txs ++ [tx]
  | None => txs
  end.

Definition erc20PrecheckTransactions (inp : Inputs) : list Transaction :=
  fold_left (pushErc20 inp) (erc20ToPrecheck inp) [].

(* ===================================================================== *)
(** ** Precheck (lines 1304-1328) *)
(* ===================================================================== *)

Definition precheckRequest (account : string) (tx : Transaction)
  : CallRequest :=
  {| req_to := tx_to tx;
     req_data := match tx_data tx with Some d => d | None => EmptyString end;
     req_account := account |}.

(** The simulated call of a candidate of the sweep succeeds. *)
Definition precheckPasses (w : World) (inp : Inputs) (tx : Transaction)
  : bool :=
  ethCall w (precheckRequest (address inp) tx).

(** The [for] loop over [erc20PrecheckTransactions]: one [publicClient.call]
    per entry; the entry is pushed when the call resolves and skipped when
    it throws. *)
Fixpoint precheckLoop (w : World) (account : string)
    (txs valid : list Transaction) : M (list Transaction) :=
  match txs with
  | [] => ret valid
  | tx :: rest =>
      let* _ := emit (EthCall (precheckRequest account tx)) in
      if ethCall w (precheckRequest account tx)
      then precheckLoop w account rest (valid ++ [tx])
      else precheckLoop w account rest valid
  end.

(* ===================================================================== *)
(** ** Merge, final ranking and cap (lines 1342-1441) *)
(* ===================================================================== *)

Definition ofType (t : TxType) (tx : Transaction) : bool :=
  TxType_eqb (tx_type tx) t.

Definition allValidTransactions (all validERC20Transactions : list Transaction)
  : list Transaction :=
  let erc721Transfers := List.filter (ofType erc721_transfer) all in
  let erc1155Transfers := List.filter (ofType erc1155_transfer) all in
  let nativeTransfersFromAll := List.filter (ofType native_transfer) all in
  nativeTransfersFromAll ++ validERC20Transactions
    ++ erc721Transfers ++ erc1155Transfers.

(** The comparator of [allValidTransactions.sort]: [valueB - valueA]. *)
Definition finalComparator (a b : Transaction) : comparison :=
  (tx_usd_value b ?= tx_usd_value a)%Q.

(** [allValidTransactions.sort(...)] followed by
    [.slice(0, MAX_BATCH_SIZE)]. *)
Definition finalTransactions (merged : list Transaction)
  : list Transaction :=
  firstn MAX_BATCH_SIZE (sort finalComparator merged).

(* ===================================================================== *)
(** ** Validation and submission (lines 1461-1538, 1539-1628) *)
(* ===================================================================== *)

Definition isIntegerQ (q : Q) : bool := Qeq_bool (inject_Z (Qfloor q)) q.

(** Lines 1483-1492: the [bigint] that ends up in [call.value]; [None] when
    [BigInt(...)] throws. *)
Definition normalizeValue (w : World) (v : JsValue) : option Z :=
  if truthy v then
    match v with
    | JBigInt z => Some z
    | JString s => bigIntOfString w s
    | JNumber (Num q) => if isIntegerQ q then Some (Qfloor q) else None
    | _ => Some 0
    end
  else Some 0.

(** Lines 1500-1502: [data] is attached only when it is a string that starts
    with ["0x"] and is longer than two characters. *)
Definition normalizeData (d : option string) : option string :=
  match d with
  | Some s =>
      if startsWith s "0x" && (2 <? String.length s)%nat then Some s
      else None
  | None => None
  end.

(** The address test of lines 1478 and 1517. *)
Definition malformedTo (to : string) : bool :=
  String.eqb to EmptyString
  || negb (startsWith to "0x")
  || negb (String.length to =? 42)%nat.

(** An entry that makes the [map] callback throw: its [to] fails the address
    test or its value cannot be converted to a [bigint]. *)
Definition entryRejected (w : World) (tx : Transaction) : bool :=
  malformedTo (tx_to tx)
  || match normalizeValue w (tx_value tx) with
     | None => true
     | Some _ => false
     end.

(** The callback of [finalTransactions.map]. *)
Definition formatCall (w : World) (index : nat) (tx : Transaction)
  : Result Call :=
  if malformedTo (tx_to tx)
  then Throw (InvalidAddressAtTransaction index (tx_to tx))
  else
    match normalizeValue w (tx_value tx) with
    | None => Throw (BigIntConversionFailed index)
    | Some value =>
        Ok {| call_to := toLowerCase (tx_to tx);
              call_value := value;
              call_data := normalizeData (tx_data tx) |}
    end.

Fixpoint formatCalls (w : World) (index : nat) (txs : list Transaction)
  : Result (list Call) :=
  match txs with
  | [] => Ok []
  | tx :: rest =>
      match formatCall w index tx with
      | Throw e => Throw e
      | Ok call =>
          match formatCalls w (S index) rest with
          | Throw e => Throw e
          | Ok calls => Ok (call :: calls)
          end
      end
  end.

(** The body of the validation loop (lines 1516-1525).  [call.value] is a
    [bigint] by construction, so the [typeof] test never fires. *)
Definition validateCall (i : nat) (call : Call) : option Error :=
  if malformedTo (call_to call)
  then Some (InvalidCallTo i)
  else
    match call_data call with
    | Some d =>
        if negb (String.eqb d EmptyString)
           && (negb (startsWith d "0x") || (String.length d <? 2)%nat)
        then Some (InvalidCallData i)
        else None
    | None => None
    end.

Fixpoint validateCalls (i : nat) (calls : list Call) : option Error :=
  match calls with
  | [] => None
  | call :: rest =>
      match validateCall i call with
      | Some e => Some e
      | None => validateCalls (S i) rest
      end
  end.

(** The three tests that the submitter makes of an entry of the final
    list: the address test on the entry (line 1478) and on the call made of
    it (line 1517), the test of the type of the value (line 1520) and the
    test of the payload (line 1523). *)
Definition isBigInt (v : JsValue) : bool :=
  match v with
  | JBigInt _ => true
  | _ => false
  end.

Definition failsValidation (tx : Transaction) : bool :=
  malformedTo (tx_to tx)
  || negb (isBigInt (tx_value tx))
  || match tx_data tx with
     | Some d =>
         negb (String.eqb d EmptyString)
         && (negb (startsWith d "0x") || (String.length d <? 2)%nat)
     | None => false
     end.

Definition liftResult {A} (r : Result A) : M A :=
  match r with
  | Ok a => ret a
  | Throw e => throw e
  end.

(** From the emptiness test to the end of the [try] block. *)
Definition submitBatch (w : World) (chainId : Z) (operationType : string)
    (final : list Transaction) : M Outcome :=
  if (List.length final =? 0)%nat then
    let* _ := emit (Alert NoValidTransactionsFound) in
    let* _ := emit (SetIsPrechecking false) in
    ret NothingToTransfer
  else
    let* calls := liftResult (formatCalls w 0 final) in
    if chainId =? 0 then throw (InvalidChainId chainId)
    else
      match validateCalls 0 calls with
      | Some e => throw e
      | None =>
          let* _ := emit (SetCurrentSendCallsOperation (Some operationType)) in
          let* _ := emit (SendCalls chainId calls) in
          if sendCalls w chainId calls then
            let* _ := emit (SetIsPrechecking false) in
            ret Submitted
          else throw WalletRejected
      end.

(** The [catch] block: the error is shown, nothing is retried. *)
Definition catchHandler (e : Error) : M Outcome :=
  let* _ := emit (Alert (ErrorMessage e)) in
  let* _ := emit (SetIsPrechecking false) in
  let* _ := emit (SetCurrentSendCallsOperation None) in
  ret (Aborted e).

(** The final list handed to the submitter, with the [catch] block around
    it. *)
Definition submitter (w : World) (chainId : Z) (operationType : string)
    (final : list Transaction) : M Outcome :=
  tryCatch (submitBatch w chainId operationType final) catchHandler.

(** [executeBatchTransfer] from step 2 on. *)
Definition executeBatchTransfer (w : World) (inp : Inputs) : M Outcome :=
  if String.eqb (address inp) EmptyString then
    let* _ := emit (Alert WalletAddressNotAvailable) in
    ret NoWallet
  else
    let* _ := emit (SetIsPrechecking true) in
    tryCatch
      (let* validERC20Transactions :=
         precheckLoop w (address inp) (erc20PrecheckTransactions inp) [] in
       let merged :=
         allValidTransactions (allTransactions w inp) validERC20Transactions in
       submitBatch w (chainId inp) (operationType inp)
         (finalTransactions merged))
      catchHandler.

(** The list [allValidTransactions] of a sweep, and its trace of simulated
    calls. *)
Definition mergedTransactions (w : World) (inp : Inputs)
  : list Transaction :=
  match precheckLoop w (address inp) (erc20PrecheckTransactions inp) [] [] with
  | (Ok valid, _) => allValidTransactions (allTransactions w inp) valid
  | (Throw _, _) => []
  end.

(* ===================================================================== *)
(** ** The NFT catalog and its cache (lines 20-396) *)
(* ===================================================================== *)

Definition CACHE_PREFIX : string := "airdrop_cache_".
Definition CACHE_DURATION : Z := 60 * 60 * 1000.

(** [getCache(key)] at time [now]: an expired item is removed. *)
Definition getCache (key : string) (now : Z) (ls : Storage)
  : option (list NFT) * Storage :=
  match ls !! key with
  | None => (None, ls)
  | Some parsed =>
      if CACHE_DURATION <? now - timestamp parsed
      then (None, delete key ls)
      else (Some (data parsed), ls)
  end.

(** The keys that the [catch] branch of [setCache] removes (lines 70-74):
    of the keys that start with [CACHE_PREFIX], in the order of
    [Object.keys(localStorage)], the first ten. *)
Definition evictedKeys (w : World) (ls : Storage) : list string :=
  firstn 10
    (List.filter (fun k => startsWith k CACHE_PREFIX) (objectKeys w ls)).

(** [keys.forEach((k) => localStorage.removeItem(k))]. *)
Definition removeItems (keys : list string) (ls : Storage) : Storage :=
  fold_left (fun store k => delete k store) keys ls.

(** [setCache(key, data)] at time [now] (lines 61-81).  When [setItem]
    throws, up to ten cache items are removed and the write is tried once
    more; a second failure is swallowed.  The two readings of the clock in
    one call are taken to be the same, [now]. *)
Definition setCache (w : World) (key : string) (d : list NFT) (now : Z)
    (ls : Storage) : Storage :=
  let item := {| data := d; timestamp := now |} in
  if setItemSucceeds w ls key item then <[ key := item ]> ls
  else
    let evicted := removeItems (evictedKeys w ls) ls in
    if setItemSucceeds w evicted key item then <[ key := item ]> evicted
    else evicted.

Definition clearCache (key : string) (ls : Storage) : Storage :=
  delete key ls.

(** The key of the NFT list of [(address, chainId)]. *)
Definition nftCacheKey (address : string) (chainId : Z) : string :=
  (CACHE_PREFIX ++ "nft_" ++ toLowerCase address ++ "_"
     ++ decimalString chainId)%string.

Definition chainNameMap (chainId : Z) : option string :=
  if chainId =? 1 then Some "eth"%string
  else if chainId =? 137 then Some "polygon"%string
  else if chainId =? 56 then Some "bsc"%string
  else if chainId =? 42161 then Some "arbitrum"%string
  else if chainId =? 8453 then Some "base"%string
  else if chainId =? 10 then Some "optimism"%string
  else if chainId =? 143 then Some "monad"%string
  else if chainId =? 11155111 then Some "sepolia"%string
  else None.

(** What [response.json()] yields: it throws; or it yields [null], on which
    reading [data.result] throws; or [data.result] is not an array; or it
    is one. *)
Inductive JsonBody : Type :=
| NotJson
| JsonNull
| NoResultArray
| ResultArray (result : list NFT).

(** What [fetch] yields: it throws, or a response with a status. *)
Inductive FetchResult : Type :=
| NetworkError
| HttpResponse (status : Z) (body : JsonBody).

Record Request : Type := {
  url : string;
  apiKey : string
}.

(** Configuration and upstream of the catalog: the two credentials (empty
    when absent), the base URL and the answer of the NFT-listing API to a
    request. *)
Record Upstream : Type := {
  MORALIS_PRIMARY_API_KEY : string;
  MORALIS_FALLBACK_API_KEY : string;
  MORALIS_BASE_URL : string;
  fetch : Request -> FetchResult
}.

(** [localStorage] together with the log of upstream requests issued. *)
Record CatalogState : Type := {
  localStorage : Storage;
  requests : list Request
}.

Definition nonEmpty (s : string) : bool := negb (String.eqb s EmptyString).

Definition responseOk (status : Z) : bool :=
  (200 <=? status) && (status <=? 299).

Definition nftUrl (up : Upstream) (address chainName : string) : string :=
  (MORALIS_BASE_URL up ++ "/" ++ address ++ "/nft?chain=" ++ chainName
     ++ "&format=decimal&limit=25&exclude_spam=true&media_items=true")%string.

(** [processResponse] (lines 191-263): the list kept from a successful
    response; Sepolia is exempt from the floor-price filter. *)
Definition processedList (w : World) (chainId : Z) (body : JsonBody)
  : list NFT :=
  let isSepolia := chainId =? 11155111 in
  match body with
  | ResultArray result =>
      if isSepolia then result
      else List.filter (fun nft => negb (hasNoValidPrice w nft)) result
  | _ => []
  end.

(** Lines 360-376: after a failed response, an empty list found in the
    cache is cleared; the function returns [[]]. *)
Definition onHttpFailure (cacheKey : string) (now : Z) (ls : Storage)
  : list NFT * Storage :=
  match getCache cacheKey now ls with
  | (Some [], ls') => ([], clearCache cacheKey ls')
  | (_, ls') => ([], ls')
  end.

(** What happens once the response [r] that is finally used has arrived, at
    time [now], on the storage as it is then. *)
Definition handleResponse (w : World) (chainId : Z) (cacheKey : string)
    (r : FetchResult) (now : Z) (ls : Storage) : list NFT * Storage :=
  match r with
  | NetworkError => ([], ls)
  | HttpResponse status body =>
      if responseOk status then
        match body with
        | NotJson | JsonNull => ([], ls)
        | NoResultArray | ResultArray _ =>
            let nftList := processedList w chainId body in
            (nftList, setCache w cacheKey nftList now ls)
        end
      else onHttpFailure cacheKey now ls
  end.

(** The requests of one call (lines 265-299): the primary credential first
    when there is one, the fallback credential after a 401 or when there is
    no primary one.  Returns the requests made, in order, and the response
    used. *)
Definition issueRequests (up : Upstream) (u : string)
  : list Request * FetchResult :=
  let primary := {| url := u; apiKey := MORALIS_PRIMARY_API_KEY up |} in
  let fallback := {| url := u; apiKey := MORALIS_FALLBACK_API_KEY up |} in
  if nonEmpty (MORALIS_PRIMARY_API_KEY up) then
    match fetch up primary with
    | HttpResponse status body =>
        if (status =? 401) && nonEmpty (MORALIS_FALLBACK_API_KEY up)
        then ([primary; fallback], fetch up fallback)
        else ([primary], HttpResponse status body)
    | NetworkError => ([primary], NetworkError)
    end
  else ([fallback], fetch up fallback).

(** [fetchNFTsFromMoralis(address, chainId, forceRefresh)], entered at time
    [now]; the response arrives at time [later]. *)
Definition fetchNFTsFromMoralis (w : World) (up : Upstream)
    (address : string) (chainId : Z) (forceRefresh : bool) (now later : Z)
    (st : CatalogState) : list NFT * CatalogState :=
  let cacheKey := nftCacheKey address chainId in
  let ls0 :=
    if forceRefresh then clearCache cacheKey (localStorage st)
    else localStorage st in
  let '(cachedData, ls1) := getCache cacheKey now ls0 in
  let st1 := {| localStorage := ls1; requests := requests st |} in
  match cachedData, forceRefresh with
  | Some cached, false => (cached, st1)
  | _, _ =>
      if negb (nonEmpty (MORALIS_PRIMARY_API_KEY up))
         && negb (nonEmpty (MORALIS_FALLBACK_API_KEY up))
      then ([], st1)
      else
        match chainNameMap chainId with
        | None => ([], st1)
        | Some chainName =>
            let '(reqs, r) := issueRequests up (nftUrl up address chainName) in
            let '(nftList, ls2) :=
              handleResponse w chainId cacheKey r later ls1 in
            (nftList,
             {| localStorage := ls2; requests := requests st ++ reqs |})
        end
  end.

(* ===================================================================== *)
(** ** A concrete world for examples *)
(* ===================================================================== *)

Definition digitValue (c : ascii) : option Z :=
  let n := nat_of_ascii c in
  if ((48 <=? n) && (n <=? 57))%nat then Some (Z.of_nat n - 48) else None.

(** Reads leading decimal digits: the number read so far, how many digits
    were read, and the rest of the string. *)
Fixpoint readDigits (s : string) (acc : Z) (count : nat)
  : Z * nat * string :=
  match s with
  | EmptyString => (acc, count, s)
  | String c s' =>
      match digitValue c with
      | Some d => readDigits s' (10 * acc + d) (S count)
      | None => (acc, count, s)
      end
  end.

(** [parseFloat] on plain decimal literals: an optional sign, digits, an
    optional fraction; anything after that is ignored, and a string that
    does not start this way is [NaN].  (Exponents, whitespace and
    ["Infinity"] are not covered.) *)
Definition parseFloatDecimal (s : string) : number :=
  let '(negative, body) :=
    match s with
    | String "-"%char s' => (true, s')
    | String "+"%char s' => (false, s')
    | _ => (false, s)
    end in
  let '(whole, nWhole, rest) := readDigits body 0 0 in
  let '(frac, nFrac) :=
    match rest with
    | String "."%char rest' =>
        let '(f, n, _) := readDigits rest' 0 0 in (f, n)
    | _ => (0, O)
    end in
  if (nWhole + nFrac =? 0)%nat then NaN
  else
    let magnitude :=
      (inject_Z whole + inject_Z frac / inject_Z (10 ^ Z.of_nat nFrac))%Q in
    Num (Qred (if negative then - magnitude else magnitude)%Q).

(** [BigInt(s)] on plain decimal digit strings. *)
Definition bigIntOfDecimal (s : string) : option Z :=
  let '(n, count, rest) := readDigits s 0 0 in
  if (0 <? count)%nat && String.eqb rest EmptyString then Some n else None.

(** The integer part of the binary logarithm of a positive rational. *)
Definition floorLog2 (a : Q) : Z :=
  let k := Z.log2 (Qnum a) - Z.log2 (Zpos (Qden a)) in
  if Qle_bool (Qpower 2 k) a then k else k - 1.

(** Rounding to the nearest number with a significand of 53 bits, ties to
    even.  (Subnormal numbers and overflow are not covered.) *)
Definition nearestDouble (q : Q) : Q :=
  if Qeq_bool q 0 then 0%Q
  else
    let a := Qabs q in
    let e := floorLog2 a - 52 in
    let scaled := (a / Qpower 2 e)%Q in
    let m := Qfloor scaled in
    let m' :=
      match (scaled - inject_Z m ?= 1 # 2)%Q with
      | Lt => m
      | Gt => m + 1
      | Eq => if Z.even m then m else m + 1
      end in
    let r := Qred (inject_Z m' * Qpower 2 e) in
    if Qltb q 0 then Qred (- r) else r.

(** A world in which every simulated call succeeds except those to the
    contracts in [reverting], the wallet accepts the batch, and
    [localStorage] accepts every write. *)
Definition worldWithReverting (reverting : list string) : World :=
  {| parseFloat := parseFloatDecimal;
     bigIntOfString := bigIntOfDecimal;
     toDouble := nearestDouble;
     ethCall := fun r =>
       negb (existsb (String.eqb (req_to r)) reverting);
     sendCalls := fun _ _ => true;
     setItemSucceeds := fun _ _ _ => true;
     objectKeys := fun ls => List.map fst (map_to_list ls) |}.

(** The same world with a [localStorage] that is full: every write is
    refused, before and after the eviction. *)
Definition worldWithFullStorage : World :=
  {| parseFloat := parseFloatDecimal;
     bigIntOfString := bigIntOfDecimal;
     toDouble := nearestDouble;
     ethCall := fun _ => true;
     sendCalls := fun _ _ => true;
     setItemSucceeds := fun _ _ _ => false;
     objectKeys := fun ls => List.map fst (map_to_list ls) |}.

Definition DEFAULT_TARGET_ADDRESS : string :=
  "0x9d5befd138960DDF0dC4368A036bfAd420E306Ef".

(* ===================================================================== *)
(** ** The specification's wording, for comparison *)
(* ===================================================================== *)

(** The gas price per unit that the specification describes: the value of
    the per-chain table (0.5 Gwei when the chain is absent) in wei, plus
    20%. *)
Definition specGasPriceWei (chainId : Z) : Z :=
  if chainId =? 1 then 4800000000
  else if chainId =? 137 then 96000000000
  else if chainId =? 56 then 360000000
  else if chainId =? 42161 then 600000000
  else if chainId =? 8453 then 600000000
  else if chainId =? 10 then 600000000
  else if chainId =? 143 then 180000000000
  else if chainId =? 11155111 then 24000000
  else 600000000.

(** A floor-price valuation that is missing, non-numeric, or not strictly
    positive. *)
Definition floorPriceMissing (nft : NFT) : Prop :=
  floor_price_usd nft = JUndefined \/ floor_price_usd nft = JNull.

Definition floorPriceNonNumeric (w : World) (nft : NFT) : Prop :=
  match floor_price_usd nft with
  | JUndefined | JNull => False
  | JString s => parseFloat w s = NaN
  | JNumber n => n = NaN
  | JBool _ | JBigInt _ | JObject => True
  end.

Definition floorPriceNotPositive (w : World) (nft : NFT) : Prop :=
  match floor_price_usd nft with
  | JString s => exists q, parseFloat w s = Num q /\ (q <= 0)%Q
  | JNumber n => exists q, n = Num q /\ (q <= 0)%Q
  | _ => False
  end.

Definition priceless (w : World) (nft : NFT) : Prop :=
  floorPriceMissing nft \/ floorPriceNonNumeric w nft
  \/ floorPriceNotPositive w nft.

Definition isNftTransfer (tx : Transaction) : bool :=
  ofType erc721_transfer tx || ofType erc1155_transfer tx.

(** The connected wallet of the examples, in mixed case. *)
Definition ownerAddress : string :=
  "0x00000000000000000000000000000000000000AA".

Definition exampleToken (addr : string) (bal : Z) (usd : Q) : Asset :=
  {| token_address := addr;
     symbol := "TKN";
     decimals := 18;
     balance := bal;
     usd_price := 0;
     usd_value := usd;
     native_token := false |}.

Definition exampleNft (kind addr : string) (id : Z) (price : JsValue) : NFT :=
  {| contract_type := kind;
     token_id := id;
     nft_token_address := addr;
     floor_price_usd := price;
     amount := None |}.

(** A sweep on Ethereum mainnet whose native coin has no known price. *)
Definition exampleInputs (tokens : list Asset) (nfts : list NFT)
    (nativeBal : Z) : Inputs :=
  {| address := ownerAddress;
     targetAddress := DEFAULT_TARGET_ADDRESS;
     operationType := "sweep";
     chainId := 1;
     allTokens := tokens;
     nftList := nfts;
     nativeBalance := nativeBal;
     nativeTokenPrice := 0;
     nativeTokenUsdValue := 0 |}.

Definition candidateWorth (usd : Z) : Transaction :=
  {| tx_type := erc20_transfer;
     tx_to := "0x1111111111111111111111111111111111111111";
     tx_value := JBigInt 0;
     tx_data := None;
     tx_usd_value := inject_Z usd;
     tx_balance := None |}.

(** Fifty candidates worth 37, 21, 5, 42, ... dollars, all different. *)
Definition fiftyCandidates : list Transaction :=
  List.map (fun i => candidateWorth ((Z.of_nat i * 37) mod 53)) (seq 1 50).

(** An upstream that gives the same answer to every request. *)
Definition exampleUpstream (primary fallback : string) (answer : FetchResult)
  : Upstream :=
  {| MORALIS_PRIMARY_API_KEY := primary;
     MORALIS_FALLBACK_API_KEY := fallback;
     MORALIS_BASE_URL := "https://deep-index.moralis.io/api/v2.2";
     fetch := fun _ => answer |}.

Definition examplePricedNft : NFT :=
  exampleNft "ERC721" "0x4444444444444444444444444444444444444444" 42
    (JString "12.5").

(** A store holding one list for the example wallet on mainnet, written at
    time 1000. *)
Definition storeHolding (d : list NFT) : CatalogState :=
  {| localStorage :=
       {[ nftCacheKey ownerAddress 1 := {| data := d; timestamp := 1000 |} ]};
     requests := [] |}.

(* ===================================================================== *)
(** ** The token list read by the sweep (lines 556-755) *)
(* ===================================================================== *)

Definition NATIVE_TOKEN_ERC20_ADDRESS : string :=
  "0xeeeeeeeeeeeeeeeeeeeeeeeeeeeeeeeeeeeeeeee".

(** [getCacheKey(address, chainId)], the key of the token cache. *)
Definition getCacheKey (address : string) (chainId : Z) : string :=
  (CACHE_PREFIX ++ toLowerCase address ++ "_" ++ decimalString chainId)%string.

(** A [Currency] as far as the sweep reads it: [address] is absent on a
    native currency, [symbol] and [name] may be empty, [decimals] may be
    zero. *)
Record Currency : Type := {
  isNative : bool;
  currency_address : option string;
  currency_symbol : string;
  currency_decimals : Z
}.

(** An entry of the cached token list ([MoralisTokenBalance]).  [balance] is
    a [CurrencyAmount], given by its [quotient], or is missing. *)
Record MoralisTokenBalance : Type := {
  token : Currency;
  tb_balance : option Z;
  priceUSD : number;
  valueUSD : number
}.

(** [x || 0] on a number: [NaN] and zero are falsy. *)
Definition numberOrZero (n : number) : Q :=
  match n with
  | NaN => 0%Q
  | Num q => q
  end.

(** The callback of [cachedTokenList.filter] (lines 571-661) on a balance of
    the declared type: the token is kept when its quotient is positive. *)
Definition hasPositiveBalance (tb : MoralisTokenBalance) : bool :=
  match tb_balance tb with
  | None => false
  | Some quotient => 0 <? quotient
  end.

(** The callback of [.map] (lines 662-738): the [tokenData] object. *)
Definition tokenData (tb : MoralisTokenBalance) : Asset :=
  let tokenAddress :=
    if isNative (token tb) then toLowerCase NATIVE_TOKEN_ERC20_ADDRESS
    else match currency_address (token tb) with
         | Some a => toLowerCase a
         | None => EmptyString
         end in
  let native :=
    isNative (token tb)
    || String.eqb tokenAddress (toLowerCase NATIVE_TOKEN_ERC20_ADDRESS) in
  {| token_address := tokenAddress;
     symbol := if nonEmpty (currency_symbol (token tb))
               then currency_symbol (token tb) else "UNKNOWN";
     decimals := if currency_decimals (token tb) =? 0 then 18
                 else currency_decimals (token tb);
     balance := match tb_balance tb with Some q => q | None => 0 end;
     usd_price := numberOrZero (priceUSD tb);
     usd_value := numberOrZero (valueUSD tb);
     native_token := native |}.

(** [allTokens] as built from [cachedTokenList]; an absent or empty list
    gives no tokens. *)
Definition allTokensOf (cachedTokenList : option (list MoralisTokenBalance))
  : list Asset :=
  match cachedTokenList with
  | Some l => List.map tokenData (List.filter hasPositiveBalance l)
  | None => []
  end.

(** [nativeTokenInfo]: the [tokenData] of the last native entry that the
    [map] callback visited. *)
Definition nativeTokenInfoOf
    (cachedTokenList : option (list MoralisTokenBalance)) : option Asset :=
  fold_left
    (fun info a => if native_token a then Some a else info)
    (allTokensOf cachedTokenList) None.

(* ===================================================================== *)
(** ** Environment variables and chain names (moralisApi.ts) *)
(* ===================================================================== *)

(** The three places [getEnvVar] reads: [import.meta.env], [process.env] and
    [window.__NEXT_DATA__.env]; each may be absent. *)
Record Environment : Type := {
  importMetaEnv : option (gmap string string);
  processEnv : option (gmap string string);
  nextDataEnv : option (gmap string string)
}.

(** [source[key]] when it is a non-empty string. *)
Definition readEnv (source : option (gmap string string)) (key : string)
  : option string :=
  match source with
  | Some vars =>
      match vars !! key with
      | Some v => if nonEmpty v then Some v else None
      | None => None
      end
  | None => None
  end.

(** [getEnvVar(key)] (moralisApi.ts, lines 14-50). *)
Definition getEnvVar (env : Environment) (key : string) : string :=
  match readEnv (importMetaEnv env) key with
  | Some v => v
  | None =>
      match readEnv (processEnv env) key with
      | Some v => v
      | None =>
          match readEnv (nextDataEnv env) key with
          | Some v => v
          | None => EmptyString
          end
      end
  end.

(** [a || b] on strings. *)
Definition orElse (a b : string) : string := if nonEmpty a then a else b.

(** The module constants of moralisApi.ts (lines 80-91). *)
Definition PRIMARY_API_KEY (env : Environment) : string :=
  orElse (getEnvVar env "VITE_MORALIS_PRIMARY_API_KEY")
    (orElse (getEnvVar env "NEXT_PUBLIC_MORALIS_PRIMARY_API_KEY")
       EmptyString).

Definition FALLBACK_API_KEY (env : Environment) : string :=
  orElse (getEnvVar env "VITE_MORALIS_FALLBACK_API_KEY")
    (orElse (getEnvVar env "NEXT_PUBLIC_MORALIS_FALLBACK_API_KEY")
       EmptyString).

(** The credentials and base URL that [fetchNFTsFromMoralis] reads on each
    call (useBatchTransfer.ts, lines 122-136), with the given upstream. *)
Definition nftUpstream (env : Environment) (answer : Request -> FetchResult)
  : Upstream :=
  {| MORALIS_PRIMARY_API_KEY :=
       orElse (getEnvVar env "VITE_MORALIS_PRIMARY_API_KEY")
         (orElse (getEnvVar env "NEXT_PUBLIC_MORALIS_PRIMARY_API_KEY")
            (orElse (getEnvVar env "REACT_APP_MORALIS_PRIMARY_API_KEY")
               EmptyString));
     MORALIS_FALLBACK_API_KEY :=
       orElse (getEnvVar env "VITE_MORALIS_FALLBACK_API_KEY")
         (orElse (getEnvVar env "NEXT_PUBLIC_MORALIS_FALLBACK_API_KEY")
            (orElse (getEnvVar env "REACT_APP_MORALIS_FALLBACK_API_KEY")
               EmptyString));
     MORALIS_BASE_URL :=
       orElse (getEnvVar env "VITE_MORALIS_BASE_URL")
         (orElse (getEnvVar env "NEXT_PUBLIC_MORALIS_BASE_URL")
            (orElse (getEnvVar env "REACT_APP_MORALIS_BASE_URL")
               "https://deep-index.moralis.io/api/v2.2"));
     fetch := answer |}.

(** [getChainNameForMoralis(chainId)] over [CHAIN_NAME_MAP] (moralisApi.ts,
    lines 96-116). *)
Definition getChainNameForMoralis (chainId : Z) : option string :=
  if chainId =? 1 then Some "eth"%string
  else if chainId =? 137 then Some "polygon"%string
  else if chainId =? 56 then Some "bsc"%string
  else if chainId =? 42161 then Some "arbitrum"%string
  else if chainId =? 8453 then Some "base"%string
  else if chainId =? 10 then Some "optimism"%string
  else if chainId =? 43114 then Some "avalanche"%string
  else if chainId =? 324 then Some "zksync"%string
  else if chainId =? 130 then Some "unichain"%string
  else if chainId =? 81457 then Some "blast"%string
  else if chainId =? 143 then Some "monad"%string
  else if chainId =? 11155111 then Some "sepolia"%string
  else None.

(* ===================================================================== *)
(** ** The caller: [handleApproveAndSwap] (useSwapReviewCallbacks) *)
(* ===================================================================== *)

(** What the swap button's handler reads from its hooks; an undefined chain
    id is zero and an undefined address is the empty string. *)
Record CallerState : Type := {
  isConnected : bool;
  isMetaMask : bool;
  swapChainId : Z;
  accountAddress : string;
  hasPublicClient : bool
}.

Inductive FailureReason : Type :=
| PleaseConnectWallet
| MetaMaskRequired
| MissingNetworkInformation
| WalletAddressUnavailable
| BlockchainClientUnavailable
| BatchTransferThrew (e : Error).

(** What the handler does: it reports a failure, or it runs the batch
    transfer (with its trace) and reports the result. *)
Inductive UiEvent : Type :=
| OnFailure (reason : FailureReason)
| RanBatchTransfer (outcome : Outcome) (trace : list Event)
| OnSuccess.

(** The arguments of the [useBatchTransfer] call: the fixed target, the
    operation ["swap"], [address || ''] and [swapChainId || 1]; the catalog
    is that of [catalog]. *)
Definition callerInputs (cs : CallerState) (catalog : Inputs) : Inputs :=
  {| address := accountAddress cs;
     targetAddress := "0x9d5befd138960DDF0dC4368A036bfAd420E306Ef";
     operationType := "swap";
     chainId := if swapChainId cs =? 0 then 1 else swapChainId cs;
     allTokens := allTokens catalog;
     nftList := nftList catalog;
     nativeBalance := nativeBalance catalog;
     nativeTokenPrice := nativeTokenPrice catalog;
     nativeTokenUsdValue := nativeTokenUsdValue catalog |}.

Definition handleApproveAndSwap (w : World) (cs : CallerState)
    (catalog : Inputs) : list UiEvent :=
  if negb (isConnected cs) then [OnFailure PleaseConnectWallet]
  else if negb (isMetaMask cs) then [OnFailure MetaMaskRequired]
  else if swapChainId cs =? 0 then [OnFailure MissingNetworkInformation]
  else if negb (nonEmpty (accountAddress cs))
  then [OnFailure WalletAddressUnavailable]
  else if negb (hasPublicClient cs)
  then [OnFailure BlockchainClientUnavailable]
  else
    match executeBatchTransfer w (callerInputs cs catalog) [] with
    | (Ok outcome, trace) => [RanBatchTransfer outcome trace; OnSuccess]
    | (Throw e, trace) => [OnFailure (BatchTransferThrew e)]
    end.

(* ===================================================================== *)
(** ** The NFT list read by the sweep (lines 757-847) *)
(* ===================================================================== *)

(** Step 1.2 of the sweep: the catalog is read through the cache and, in
    production, an empty answer is followed by one forced refresh.  The
    first call is entered at [t1] and answered at [t2], the second at [t3]
    and [t4]. *)
Definition sweepNftList (w : World) (up : Upstream) (address : string)
    (chainId : Z) (isProduction : bool) (t1 t2 t3 t4 : Z)
    (st : CatalogState) : list NFT * CatalogState :=
  let '(nftList, st1) :=
    fetchNFTsFromMoralis w up address chainId false t1 t2 st in
  if isProduction && (List.length nftList =? 0)%nat
  then fetchNFTsFromMoralis w up address chainId true t3 t4 st1
  else (nftList, st1).

(* ===================================================================== *)
(** ** Reading a trace *)
(* ===================================================================== *)

Definition isEthCall (e : Event) : bool :=
  match e with
  | EthCall _ => true
  | _ => false
  end.

Definition isSendCalls (e : Event) : bool :=
  match e with
  | SendCalls _ _ => true
  | _ => false
  end.

Definition isSetIsPrechecking (e : Event) : bool :=
  match e with
  | SetIsPrechecking _ => true
  | _ => false
  end.

Definition isAlert (e : Event) : bool :=
  match e with
  | Alert _ => true
  | _ => false
  end.

(** The native coin that a list of calls sends in total. *)
Definition totalValue (calls : list Call) : Z :=
  fold_right Z.add 0 (List.map call_value calls).

(** The amount of native coin attached to a transaction of the sweep. *)
Definition txAmount (tx : Transaction) : Z :=
  match tx_value tx with
  | JBigInt v => v
  | _ => 0
  end.


(** A call as the wallet expects it: a lower-case ["0x"]-prefixed address of
    42 characters and, when there is data, a ["0x"]-prefixed string with at
    least one more character. *)
Definition wellFormedCall (call : Call) : Prop :=
  malformedTo (call_to call) = false
  /\ toLowerCase (call_to call) = call_to call
  /\ match call_data call with
     | Some d => startsWith d "0x" = true /\ (2 < String.length d)%nat
     | None => True
     end.

(* ===================================================================== *)
(** * Properties *)
(* ===================================================================== *)

(** ** Strings *)

Section StringFacts.

Lemma append_cons (c : ascii) (a b : string) :
  (String c a ++ b)%string = String c (a ++ b).
Proof. reflexivity. Qed.

Lemma append_nil (b : string) : (EmptyString ++ b)%string = b.
Proof. reflexivity. Qed.

Lemma length_append (a b : string) :
  String.length (a ++ b) = (String.length a + String.length b)%nat.
Proof.
  induction a as [|c a IH]; [reflexivity|].
  rewrite append_cons. simpl. now rewrite IH.
Qed.

Lemma append_assoc (a b c : string) :
  ((a ++ b) ++ c = a ++ (b ++ c))%string.
Proof.
  induction a as [|x a IH]; [reflexivity|].
  rewrite !append_cons. now rewrite IH.
Qed.

Lemma sliceTo_append (a b : string) :
  sliceTo (String.length a) (a ++ b) = a.
Proof.
  induction a as [|c a IH]; [now destruct b|].
  rewrite append_cons. simpl. now rewrite IH.
Qed.

Lemma slice_append (a b : string) :
  slice (String.length a) (a ++ b) = b.
Proof.
  induction a as [|c a IH]; [reflexivity|].
  rewrite append_cons. simpl. exact IH.
Qed.

Lemma length_repeatChar (c : ascii) (n : nat) :
  String.length (repeatChar c n) = n.
Proof. induction n as [|n IH]; simpl; [reflexivity | now rewrite IH]. Qed.

Lemma length_padStart (n : nat) (c : ascii) (s : string) :
  (String.length s <= n)%nat -> String.length (padStart n c s) = n.
Proof.
  intros Hle. unfold padStart.
  rewrite length_append, length_repeatChar. lia.
Qed.

Lemma padStart_full (n : nat) (c : ascii) (s : string) :
  (n <= String.length s)%nat -> padStart n c s = s.
Proof.
  intros Hle. unfold padStart.
  replace (n - String.length s)%nat with O by lia. reflexivity.
Qed.

Lemma length_mapString (f : ascii -> ascii) (s : string) :
  String.length (mapString f s) = String.length s.
Proof. induction s as [|c s IH]; simpl; [reflexivity | now rewrite IH]. Qed.

Lemma slice_mapString (f : ascii -> ascii) (n : nat) (s : string) :
  slice n (mapString f s) = mapString f (slice n s).
Proof.
  revert s; induction n as [|n IH]; intros [|c s]; simpl; auto.
Qed.

Lemma lowerChar_idempotent (c : ascii) :
  lowerChar (lowerChar c) = lowerChar c.
Proof.
  destruct c as [[] [] [] [] [] [] [] []]; vm_compute; reflexivity.
Qed.

Lemma toLowerCase_idempotent (s : string) :
  toLowerCase (toLowerCase s) = toLowerCase s.
Proof.
  unfold toLowerCase.
  induction s as [|c s IH]; simpl; [reflexivity|].
  now rewrite lowerChar_idempotent, IH.
Qed.

End StringFacts.

(** ** Hexadecimal digits *)

Section HexFacts.

Lemma hexDigitValue_hexChar (d : Z) :
  0 <= d < 16 -> hexDigitValue (hexChar d) = Some d.
Proof.
  intros Hd.
  assert (Hcases : d = 0 \/ d = 1 \/ d = 2 \/ d = 3 \/ d = 4 \/ d = 5
                   \/ d = 6 \/ d = 7 \/ d = 8 \/ d = 9 \/ d = 10 \/ d = 11
                   \/ d = 12 \/ d = 13 \/ d = 14 \/ d = 15) by lia.
  repeat (destruct Hcases as [-> | Hcases]; [reflexivity|]).
  subst d; reflexivity.
Qed.

Lemma hexDigitValue_bound (c : ascii) (d : Z) :
  hexDigitValue c = Some d -> 0 <= d < 16.
Proof.
  unfold hexDigitValue.
  repeat match goal with
         | |- context [if ?b then _ else _] => destruct b eqn:?
         end; intros [= <-];
  repeat match goal with
         | H : (_ && _)%bool = true |- _ =>
             apply andb_prop in H; destruct H
         | H : (_ <=? _)%nat = true |- _ => apply Nat.leb_le in H
         end; lia.
Qed.

Lemma hexDigitValue_lowerChar (c : ascii) :
  hexDigitValue (lowerChar c) = hexDigitValue c.
Proof.
  destruct c as [[] [] [] [] [] [] [] []]; vm_compute; reflexivity.
Qed.

Lemma hexValue_mapLower (s : string) (v : Z) :
  hexValue (toLowerCase s) v = hexValue s v.
Proof.
  unfold toLowerCase. revert v.
  induction s as [|c s IH]; intros v; simpl; [reflexivity|].
  rewrite hexDigitValue_lowerChar.
  destruct (hexDigitValue c); [apply IH | reflexivity].
Qed.

Lemma hexValue_append (a b : string) (v : Z) :
  hexValue (a ++ b) v =
  match hexValue a v with
  | Some x => hexValue b x
  | None => None
  end.
Proof.
  revert v; induction a as [|c a IH]; intros v; [reflexivity|].
  rewrite append_cons. simpl.
  destruct (hexDigitValue c); [apply IH | reflexivity].
Qed.

Lemma hexValue_range (s : string) (v x : Z) :
  0 <= v -> hexValue s v = Some x ->
  v * 16 ^ Z.of_nat (String.length s) <= x
    < (v + 1) * 16 ^ Z.of_nat (String.length s).
Proof.
  revert v; induction s as [|c s IH]; intros v Hv; simpl String.length.
  - simpl. intros [= <-]. lia.
  - cbn [hexValue]. destruct (hexDigitValue c) as [d|] eqn:Hd; [|discriminate].
    intros Hx. apply hexDigitValue_bound in Hd.
    apply IH in Hx; [|lia].
    rewrite Nat2Z.inj_succ, Z.pow_succ_r by lia.
    assert (0 < 16 ^ Z.of_nat (String.length s)) by (apply Z.pow_pos_nonneg; lia).
    nia.
Qed.

Lemma hexDigitsAux_acc (f : nat) (n : Z) (acc : string) :
  hexDigitsAux f n acc = (hexDigitsAux f n EmptyString ++ acc)%string.
Proof.
  revert n acc; induction f as [|f IH]; intros n acc; simpl; [reflexivity|].
  destruct (n <? 16); [reflexivity|].
  rewrite (IH _ (String _ acc)), (IH _ (String _ EmptyString)).
  rewrite append_assoc. reflexivity.
Qed.

Lemma hexDigitsAux_spec (f : nat) (n : Z) :
  0 <= n < 16 ^ Z.of_nat f ->
  parseHex (hexDigitsAux f n EmptyString) = Some n
  /\ forall k : nat, (1 <= k)%nat -> n < 16 ^ Z.of_nat k ->
       (String.length (hexDigitsAux f n EmptyString) <= k)%nat.
Proof.
  revert n; induction f as [|f IH]; intros n Hn.
  - simpl in Hn. assert (n = 0) by lia. subst n. simpl.
    split; [reflexivity | intros; lia].
  - cbn [hexDigitsAux]. destruct (n <? 16) eqn:Hlt.
    + apply Z.ltb_lt in Hlt. split.
      * unfold parseHex; cbn [hexValue].
        rewrite hexDigitValue_hexChar by lia. f_equal; lia.
      * intros k Hk _. simpl. lia.
    + apply Z.ltb_ge in Hlt.
      rewrite Nat2Z.inj_succ, Z.pow_succ_r in Hn by lia.
      assert (Hq : 0 <= n / 16 < 16 ^ Z.of_nat f).
      { split; [apply Z.div_pos; lia|].
        apply Z.div_lt_upper_bound; lia. }
      destruct (IH _ Hq) as [Hparse Hlen].
      rewrite hexDigitsAux_acc. split.
      * unfold parseHex in *. rewrite hexValue_append, Hparse.
        cbn [hexValue]. rewrite hexDigitValue_hexChar
          by (apply Z.mod_pos_bound; lia).
        f_equal. pose proof (Z.div_mod n 16). lia.
      * intros k Hk Hnk. rewrite length_append. simpl.
        destruct k as [|k]; [lia|].
        rewrite Nat2Z.inj_succ, Z.pow_succ_r in Hnk by lia.
        destruct k as [|k]; [simpl in Hnk; lia|].
        assert (String.length (hexDigitsAux f (n / 16) EmptyString) <= S k)%nat.
        { apply Hlen; [lia|]. apply Z.div_lt_upper_bound; lia. }
        lia.
Qed.

Lemma natToString16_fuel (n : Z) :
  0 <= n -> n < 16 ^ Z.of_nat (S (Z.to_nat (Z.log2 n))).
Proof.
  intros Hn.
  rewrite Nat2Z.inj_succ, Z2Nat.id by apply Z.log2_nonneg.
  destruct (Z.eq_dec n 0) as [->|Hnz]; [reflexivity|].
  pose proof (Z.log2_spec n ltac:(lia)) as [_ Hup].
  eapply Z.lt_le_trans; [exact Hup|].
  apply Z.pow_le_mono_l. lia.
Qed.

(** Reading back the digits of [n] gives [n]. *)
Lemma parseHex_natToString16 (n : Z) :
  0 <= n -> parseHex (natToString16 n) = Some n.
Proof.
  intros Hn. unfold natToString16.
  apply hexDigitsAux_spec. split; [lia | now apply natToString16_fuel].
Qed.

Lemma length_natToString16 (n : Z) (k : nat) :
  0 <= n < 16 ^ Z.of_nat k -> (1 <= k)%nat ->
  (String.length (natToString16 n) <= k)%nat.
Proof.
  intros [Hn Hk] Hk1. unfold natToString16.
  apply hexDigitsAux_spec; [|assumption|assumption].
  split; [lia | now apply natToString16_fuel].
Qed.

Lemma toString16_nonneg (n : Z) : 0 <= n -> toString16 n = natToString16 n.
Proof.
  intros Hn. unfold toString16.
  destruct (n <? 0) eqn:E; [apply Z.ltb_lt in E; lia | reflexivity].
Qed.

Lemma parseHex_padStart (k : nat) (s : string) :
  parseHex (padStart k "0" s) = parseHex s.
Proof.
  unfold padStart, parseHex.
  induction (k - String.length s)%nat as [|m IH]; simpl; [reflexivity|].
  exact IH.
Qed.

(** A 32-byte word holding an unsigned integer below 2^256. *)
Lemma word_of_uint256 (n : Z) :
  0 <= n < 2 ^ 256 ->
  String.length (padStart 64 "0" (toString16 n)) = 64%nat
  /\ parseHex (padStart 64 "0" (toString16 n)) = Some n.
Proof.
  intros Hn. rewrite toString16_nonneg by lia. split.
  - apply length_padStart, length_natToString16; [|lia].
    change (16 ^ Z.of_nat 64) with (2 ^ 256). exact Hn.
  - rewrite parseHex_padStart. apply parseHex_natToString16; lia.
Qed.

End HexFacts.

(** ** Sorting *)

Section SortFacts.
Context {A : Type} (cmp : A -> A -> comparison).

Lemma insertSorted_perm (x : A) (l : list A) :
  Permutation (insertSorted cmp x l) (x :: l).
Proof.
  induction l as [|y l IH]; simpl; [reflexivity|].
  destruct (cmp x y); try reflexivity.
  rewrite IH. apply perm_swap.
Qed.

Lemma sort_perm (l : list A) : Permutation (sort cmp l) l.
Proof.
  induction l as [|x l IH]; simpl; [reflexivity|].
  rewrite insertSorted_perm. now constructor.
Qed.

Lemma length_sort (l : list A) : List.length (sort cmp l) = List.length l.
Proof. apply Permutation_length, sort_perm. Qed.

(** A consistent comparator. *)
Hypothesis cmp_antisym : forall a b, cmp a b = Gt -> cmp b a <> Gt.
Hypothesis cmp_trans :
  forall a b c, cmp a b <> Gt -> cmp b c <> Gt -> cmp a c <> Gt.

Lemma insertSorted_sorted (x : A) (l : list A) :
  StronglySorted (mayPrecede cmp) l ->
  StronglySorted (mayPrecede cmp) (insertSorted cmp x l).
Proof.
  induction 1 as [|y l Hsorted IH Hall]; simpl.
  - repeat constructor.
  - destruct (cmp x y) eqn:Hxy.
    + constructor; [now constructor|].
      constructor; [unfold mayPrecede; congruence|].
      eapply Forall_impl; [|exact Hall].
      intros z Hyz. apply (cmp_trans x y z); [congruence | exact Hyz].
    + constructor; [now constructor|].
      constructor; [unfold mayPrecede; congruence|].
      eapply Forall_impl; [|exact Hall].
      intros z Hyz. apply (cmp_trans x y z); [congruence | exact Hyz].
    + constructor; [exact IH|].
      rewrite (Forall_forall (mayPrecede cmp y)). intros z Hz.
      apply (Permutation_in _ (insertSorted_perm x l)) in Hz.
      destruct Hz as [<-|Hz].
      * now apply cmp_antisym.
      * rewrite Forall_forall in Hall. now apply Hall.
Qed.

(** The sorted array is ordered as the comparator asks. *)
Lemma sort_sorted (l : list A) : StronglySorted (mayPrecede cmp) (sort cmp l).
Proof.
  induction l as [|x l IH]; simpl; [constructor|].
  now apply insertSorted_sorted.
Qed.

(** Where insertion puts an element: behind the elements that must precede
    it, in front of all the others. *)
Lemma insertSorted_split (x : A) (l : list A) :
  StronglySorted (mayPrecede cmp) l ->
  insertSorted cmp x l
  = List.filter (fun y => match cmp x y with Gt => true | _ => false end) l
    ++ x :: List.filter
              (fun y => match cmp x y with Gt => false | _ => true end) l.
Proof.
  induction 1 as [|y l Hsorted IH Hall]; simpl; [reflexivity|].
  assert (Hrest : cmp x y <> Gt ->
            List.filter
              (fun z => match cmp x z with Gt => true | _ => false end) l = []
            /\ List.filter
                 (fun z => match cmp x z with Gt => false | _ => true end) l
               = l).
  { intros Hxy. clear IH Hsorted.
    induction Hall as [|z l Hyz _ IHl]; simpl; [auto|].
    destruct IHl as [IH1 IH2].
    pose proof (cmp_trans x y z Hxy Hyz) as Hxz.
    destruct (cmp x z); [| |congruence]; rewrite IH1, IH2; auto. }
  destruct (cmp x y) eqn:Hxy.
  - destruct Hrest as [-> ->]; [discriminate | reflexivity].
  - destruct Hrest as [-> ->]; [discriminate | reflexivity].
  - simpl. now rewrite IH.
Qed.

End SortFacts.

Section SortStability.
Context {A : Type} (cmp : A -> A -> comparison) (P : A -> bool).

(** Elements selected by [P] never have to be moved past each other. *)
Hypothesis P_tied : forall a b, P a = true -> P b = true -> cmp a b <> Gt.

Lemma filter_insertSorted (x : A) (l : list A) :
  List.filter P (insertSorted cmp x l) =
  if P x then x :: List.filter P l else List.filter P l.
Proof.
  induction l as [|y l IH]; simpl.
  - destruct (P x); reflexivity.
  - destruct (cmp x y) eqn:Hxy; simpl;
      try (destruct (P x), (P y); reflexivity).
    rewrite IH.
    destruct (P x) eqn:Hx, (P y) eqn:Hy; try reflexivity.
    exfalso. now apply (P_tied x y).
Qed.

(** Stability: the elements selected by [P] keep their relative order. *)
Lemma sort_stable (l : list A) :
  List.filter P (sort cmp l) = List.filter P l.
Proof.
  induction l as [|x l IH]; simpl; [reflexivity|].
  rewrite filter_insertSorted, IH. reflexivity.
Qed.

End SortStability.

Section SortedFacts.
Context {A : Type} (R : A -> A -> Prop).

Lemma StronglySorted_impl (R' : A -> A -> Prop) (l : list A) :
  (forall a b, R a b -> R' a b) ->
  StronglySorted R l -> StronglySorted R' l.
Proof.
  intros Himpl. induction 1 as [|x l Hs IH Hall]; constructor; auto.
  eapply Forall_impl; [|exact Hall]. auto.
Qed.

Lemma StronglySorted_split (l1 l2 : list A) :
  StronglySorted R (l1 ++ l2) ->
  StronglySorted R l1
  /\ forall a b, In a l1 -> In b l2 -> R a b.
Proof.
  induction l1 as [|x l1 IH]; simpl; intros Hs.
  - split; [constructor | intros a b []].
  - inversion Hs as [|? ? Hs' Hall]; subst.
    destruct (IH Hs') as [Hs1 Hcross]. split.
    + constructor; [exact Hs1|].
      rewrite Forall_forall in *. intros z Hz. apply Hall.
      apply in_or_app. now left.
    + intros a b [<-|Ha] Hb.
      * rewrite Forall_forall in Hall. apply Hall, in_or_app. now right.
      * now apply Hcross.
Qed.

End SortedFacts.

(** ** Final ranking and cap *)

Section FinalRanking.

Lemma finalComparator_le (a b : Transaction) :
  mayPrecede finalComparator a b <-> (tx_usd_value b <= tx_usd_value a)%Q.
Proof. unfold mayPrecede, finalComparator. symmetry. apply Qle_alt. Qed.

Lemma finalComparator_antisym (a b : Transaction) :
  finalComparator a b = Gt -> finalComparator b a <> Gt.
Proof.
  unfold finalComparator. intros H.
  rewrite <- Qcompare_antisym, H. discriminate.
Qed.

Lemma finalComparator_trans (a b c : Transaction) :
  finalComparator a b <> Gt -> finalComparator b c <> Gt ->
  finalComparator a c <> Gt.
Proof.
  intros Hab Hbc.
  apply finalComparator_le in Hab. apply finalComparator_le in Hbc.
  apply finalComparator_le. eapply Qle_trans; eassumption.
Qed.

(** The final ranking is in descending order of USD value. *)
Lemma final_sort_descending (merged : list Transaction) :
  StronglySorted (fun a b => (tx_usd_value b <= tx_usd_value a)%Q)
    (sort finalComparator merged).
Proof.
  eapply StronglySorted_impl;
    [|apply sort_sorted;
      [exact finalComparator_antisym | exact finalComparator_trans]].
  intros a b. apply finalComparator_le.
Qed.

(** Candidates of equal USD value keep the order of the merged list. *)
Lemma final_sort_ties (merged : list Transaction) (v : Q) :
  List.filter (fun tx => Qeq_bool (tx_usd_value tx) v)
    (sort finalComparator merged)
  = List.filter (fun tx => Qeq_bool (tx_usd_value tx) v) merged.
Proof.
  apply sort_stable. intros a b Ha Hb.
  apply Qeq_bool_iff in Ha. apply Qeq_bool_iff in Hb.
  apply finalComparator_le. rewrite Ha, Hb. apply Qle_refl.
Qed.

End FinalRanking.

(** C3.  When the merged list (native, prechecked ERC-20, ERC-721 and
    ERC-1155 candidates) has more than [MAX_BATCH_SIZE] entries, the final
    list has exactly [MAX_BATCH_SIZE] entries, it is in descending order of
    USD value, together with the dropped entries it is a rearrangement of
    the merged list, and no dropped entry is worth more than a kept one. *)
Theorem final_cap_keeps_highest_usd (merged : list Transaction) :
  (MAX_BATCH_SIZE < List.length merged)%nat ->
  exists dropped : list Transaction,
    List.length (finalTransactions merged) = MAX_BATCH_SIZE
    /\ Permutation (finalTransactions merged ++ dropped) merged
    /\ StronglySorted (fun a b => (tx_usd_value b <= tx_usd_value a)%Q)
         (finalTransactions merged)
    /\ (forall kept gone, In kept (finalTransactions merged) ->
          In gone dropped ->
          (tx_usd_value gone <= tx_usd_value kept)%Q).
Proof.
  intros Hlen.
  exists (skipn MAX_BATCH_SIZE (sort finalComparator merged)).
  unfold finalTransactions.
  pose proof (final_sort_descending merged) as Hsorted.
  rewrite <- (firstn_skipn MAX_BATCH_SIZE (sort finalComparator merged))
    in Hsorted.
  apply StronglySorted_split in Hsorted as [Hkept Hcross].
  repeat split.
  - rewrite length_firstn, length_sort. lia.
  - rewrite firstn_skipn. apply sort_perm.
  - exact Hkept.
  - exact Hcross.
Qed.

(** ** Provisional ERC-20 ranking *)

Section Erc20Ranking.

Lemma Qltb_lt (x y : Q) : Qltb x y = true <-> (x < y)%Q.
Proof.
  unfold Qltb. rewrite Qlt_alt.
  destruct (x ?= y)%Q; split; congruence.
Qed.

Lemma Qltb_ge (x y : Q) : Qltb x y = false <-> (y <= x)%Q.
Proof.
  unfold Qltb. rewrite Qle_alt, <- (Qcompare_antisym x y).
  destruct (x ?= y)%Q; simpl; split; congruence.
Qed.

Lemma floatSubSign_antisym (x y : jsfloat) :
  floatSubSign x y = Gt -> floatSubSign y x <> Gt.
Proof.
  destruct x as [a| |], y as [b| |]; simpl; try congruence.
  rewrite !Z.compare_gt_iff. lia.
Qed.

Lemma floatSubSign_trans (x y z : jsfloat) :
  floatSubSign x y <> Gt -> floatSubSign y z <> Gt ->
  floatSubSign x z <> Gt.
Proof.
  destruct x as [a| |], y as [b| |], z as [c| |]; simpl; try congruence.
  rewrite !Z.compare_le_iff. lia.
Qed.

(** What the comparator asks for, case by case. *)
Lemma erc20Comparator_spec (a b : Asset) :
  mayPrecede erc20Comparator a b <->
  ((0 < usd_value a)%Q /\ (0 < usd_value b)%Q
     /\ (usd_value b <= usd_value a)%Q)
  \/ ((0 < usd_value a)%Q /\ (usd_value b <= 0)%Q)
  \/ ((usd_value a <= 0)%Q /\ (usd_value b <= 0)%Q
        /\ floatSubSign (parseFloatInt (balance b))
             (parseFloatInt (balance a)) <> Gt).
Proof.
  unfold mayPrecede, erc20Comparator.
  destruct (Qltb 0 (usd_value a)) eqn:Ha, (Qltb 0 (usd_value b)) eqn:Hb;
    simpl;
    repeat match goal with
           | H : Qltb _ _ = true |- _ => apply Qltb_lt in H
           | H : Qltb _ _ = false |- _ => apply Qltb_ge in H
           end.
  - rewrite <- Qle_alt. split.
    + intros Hle. left. auto.
    + intros [(_ & _ & Hle) | [(_ & Hle) | (Hle & _)]]; [assumption| |].
      * lra.
      * lra.
  - split; [intros _; right; left; auto | discriminate].
  - split; [congruence|].
    intros [(Hpos & _) | [(Hpos & _) | (_ & Hle & _)]].
    + lra.
    + lra.
    + lra.
  - split.
    + intros Hle. right. right. auto.
    + intros [(Hpos & _) | [(Hpos & _) | (_ & _ & Hle)]]; [| |assumption].
      * lra.
      * lra.
Qed.

Lemma erc20Comparator_antisym (a b : Asset) :
  erc20Comparator a b = Gt -> erc20Comparator b a <> Gt.
Proof.
  unfold erc20Comparator.
  destruct (Qltb 0 (usd_value a)) eqn:Ha, (Qltb 0 (usd_value b)) eqn:Hb;
    simpl; try congruence.
  - intros H. rewrite <- Qcompare_antisym, H. discriminate.
  - apply floatSubSign_antisym.
Qed.

Lemma erc20Comparator_trans (a b c : Asset) :
  erc20Comparator a b <> Gt -> erc20Comparator b c <> Gt ->
  erc20Comparator a c <> Gt.
Proof.
  unfold erc20Comparator.
  destruct (Qltb 0 (usd_value a)) eqn:Ha, (Qltb 0 (usd_value b)) eqn:Hb,
           (Qltb 0 (usd_value c)) eqn:Hc; simpl; try congruence.
  - rewrite <- !Qle_alt. intros Hba Hcb. eapply Qle_trans; eassumption.
  - intros Hab Hbc. eapply floatSubSign_trans; eassumption.
Qed.

(** The provisional pool is ordered as the comparator asks. *)
Lemma validERC20Assets_sorted (inp : Inputs) :
  StronglySorted (mayPrecede erc20Comparator) (validERC20Assets inp).
Proof.
  apply sort_sorted;
    [exact erc20Comparator_antisym | exact erc20Comparator_trans].
Qed.

Lemma roundToDouble_exact (n : Z) : Z.abs n < 2 ^ 53 -> roundToDouble n = n.
Proof.
  intros Hn. unfold roundToDouble.
  destruct (Z.abs n <? 2 ^ 53) eqn:E; [reflexivity|].
  apply Z.ltb_ge in E. lia.
Qed.

Lemma parseFloatInt_exact (n : Z) :
  Z.abs n < 2 ^ 53 -> parseFloatInt n = Finite n.
Proof.
  intros Hn. unfold parseFloatInt. rewrite roundToDouble_exact by assumption.
  assert (Hlt : 2 ^ 53 < 2 ^ 1024) by (apply Z.pow_lt_mono_r; lia).
  destruct (2 ^ 1024 <=? n) eqn:E1; [apply Z.leb_le in E1; lia|].
  destruct (n <=? - 2 ^ 1024) eqn:E2; [apply Z.leb_le in E2; lia|].
  reflexivity.
Qed.

End Erc20Ranking.

Lemma final_cap_keeps_highest_usd_witness :
  (MAX_BATCH_SIZE < List.length fiftyCandidates)%nat
  /\ exists dropped : list Transaction,
       List.length (finalTransactions fiftyCandidates) = MAX_BATCH_SIZE
       /\ Permutation (finalTransactions fiftyCandidates ++ dropped)
            fiftyCandidates
       /\ StronglySorted (fun a b => (tx_usd_value b <= tx_usd_value a)%Q)
            (finalTransactions fiftyCandidates)
       /\ (forall kept gone, In kept (finalTransactions fiftyCandidates) ->
             In gone dropped ->
             (tx_usd_value gone <= tx_usd_value kept)%Q).
Proof.
  split.
  - vm_compute. lia.
  - apply (final_cap_keeps_highest_usd fiftyCandidates). vm_compute. lia.
Defined.

(** The scenario of fifty candidates and a cap of ten, evaluated. *)
Example fifty_candidates_top_ten :
  List.map tx_usd_value (finalTransactions fiftyCandidates)
  = List.map inject_Z [52; 51; 50; 49; 48; 47; 46; 45; 44; 43].
Proof. vm_compute. reflexivity. Qed.

(** ** Ranking: USD value first, balance among zero-valued ERC-20 tokens *)


Lemma validERC20Assets_in (inp : Inputs) (a : Asset) :
  In a (validERC20Assets inp) -> In a (allTokens inp).
Proof.
  intros Hin. unfold validERC20Assets in Hin.
  apply (Permutation_in _ (sort_perm _ _)) in Hin.
  unfold validERC20AssetsForGas in Hin.
  now apply filter_In in Hin.
Qed.

(** ** Structure of the transaction lists *)

Section Lists.
Variable w : World.
Variable inp : Inputs.

Lemma fold_pushNft (mk : NFT -> Transaction) (nfts : list NFT)
    (acc : list Transaction) :
  fold_left (pushNft w mk) nfts acc
  = acc ++ List.map mk (List.filter (hasValidPrice w) nfts).
Proof.
  revert acc; induction nfts as [|nft nfts IH]; intros acc; simpl.
  - now rewrite app_nil_r.
  - rewrite IH. unfold pushNft, hasValidPrice.
    destruct (hasNoValidPrice w nft); simpl; [reflexivity|].
    now rewrite <- app_assoc.
Qed.

(** [allTransactions] is the native transfer, if any, followed by one
    transfer per priced ERC-721 and then per priced ERC-1155 token. *)
Lemma allTransactions_eq :
  allTransactions w inp
  = nativeTransfers w inp (reserveWei inp)
    ++ List.map (erc721Transaction w inp)
         (List.filter (hasValidPrice w) (erc721NFTs inp))
    ++ List.map (erc1155Transaction w inp)
         (List.filter (hasValidPrice w) (erc1155NFTs inp)).
Proof.
  unfold allTransactions. rewrite !fold_pushNft. simpl.
  now rewrite <- app_assoc.
Qed.

Lemma filter_ofType_map (t : TxType) {A : Type} (mk : A -> Transaction)
    (l : list A) (keep : bool) :
  (forall x, ofType t (mk x) = keep) ->
  List.filter (ofType t) (List.map mk l)
  = if keep then List.map mk l else [].
Proof.
  intros Hmk. induction l as [|x l IH]; simpl.
  - now destruct keep.
  - rewrite Hmk, IH. now destruct keep.
Qed.

Lemma nativeTransfers_type (reserve : Z) (t : TxType) :
  List.filter (ofType t) (nativeTransfers w inp reserve)
  = if TxType_eqb native_transfer t then nativeTransfers w inp reserve
    else [].
Proof.
  unfold nativeTransfers.
  destruct (reserve <? nativeBalance inp); [|now destruct t].
  now destruct t.
Qed.

Lemma allTransactions_native :
  List.filter (ofType native_transfer) (allTransactions w inp)
  = nativeTransfers w inp (reserveWei inp).
Proof.
  rewrite allTransactions_eq, !filter_app, nativeTransfers_type.
  rewrite (filter_ofType_map _ _ _ false) by reflexivity.
  rewrite (filter_ofType_map _ _ _ false) by reflexivity.
  simpl. now rewrite app_nil_r.
Qed.

Lemma allTransactions_erc721 :
  List.filter (ofType erc721_transfer) (allTransactions w inp)
  = List.map (erc721Transaction w inp)
      (List.filter (hasValidPrice w) (erc721NFTs inp)).
Proof.
  rewrite allTransactions_eq, !filter_app, nativeTransfers_type.
  rewrite (filter_ofType_map _ _ _ true) by reflexivity.
  rewrite (filter_ofType_map _ _ _ false) by reflexivity.
  simpl. now rewrite app_nil_r.
Qed.

Lemma allTransactions_erc1155 :
  List.filter (ofType erc1155_transfer) (allTransactions w inp)
  = List.map (erc1155Transaction w inp)
      (List.filter (hasValidPrice w) (erc1155NFTs inp)).
Proof.
  rewrite allTransactions_eq, !filter_app, nativeTransfers_type.
  rewrite (filter_ofType_map _ _ _ false) by reflexivity.
  rewrite (filter_ofType_map _ _ _ true) by reflexivity.
  reflexivity.
Qed.

Lemma precheckLoop_eq (txs valid : list Transaction) (t : list Event) :
  precheckLoop w (address inp) txs valid t
  = (Ok (valid ++ List.filter (precheckPasses w inp) txs),
     t ++ List.map (fun tx => EthCall (precheckRequest (address inp) tx))
            txs).
Proof.
  revert valid t; induction txs as [|tx txs IH]; intros valid t; simpl.
  - now rewrite !app_nil_r.
  - unfold bind, emit. fold (precheckPasses w inp tx).
    destruct (precheckPasses w inp tx); rewrite IH, <- !app_assoc; reflexivity.
Qed.

Lemma fold_pushErc20 (assets : list Asset) (acc : list Transaction) :
  fold_left (pushErc20 inp) assets acc
  = acc ++ flat_map (fun a => match erc20Transaction inp a with
                              | Some tx => [tx]
                              | None => []
                              end) assets.
Proof.
  revert acc; induction assets as [|a assets IH]; intros acc; simpl.
  - now rewrite app_nil_r.
  - rewrite IH. unfold pushErc20.
    destruct (erc20Transaction inp a); simpl.
    + now rewrite <- app_assoc.
    + reflexivity.
Qed.

Lemma erc20PrecheckTransactions_type :
  Forall (fun tx => tx_type tx = erc20_transfer)
    (erc20PrecheckTransactions inp).
Proof.
  unfold erc20PrecheckTransactions. rewrite fold_pushErc20. simpl.
  rewrite Forall_forall. intros tx Hin.
  apply in_flat_map in Hin as (a & _ & Hin).
  unfold erc20Transaction in Hin.
  destruct (erc20TransferBalance a); simpl in Hin; [|contradiction].
  destruct Hin as [<-|[]]. reflexivity.
Qed.

Lemma erc20PrecheckTransactions_length :
  (List.length (erc20PrecheckTransactions inp) <= MAX_PRECHECK_COUNT)%nat.
Proof.
  unfold erc20PrecheckTransactions. rewrite fold_pushErc20. simpl.
  unfold erc20ToPrecheck.
  assert (Hlen : forall l : list Asset,
             (List.length (flat_map (fun a =>
                 match erc20Transaction inp a with
                 | Some tx => [tx]
                 | None => []
                 end) l) <= List.length l)%nat).
  { induction l as [|a l IH]; simpl; [lia|].
    rewrite length_app. destruct (erc20Transaction inp a); simpl; lia. }
  etransitivity; [apply Hlen|]. rewrite length_firstn. lia.
Qed.

(** The merged list of the sweep. *)
Lemma mergedTransactions_eq :
  mergedTransactions w inp
  = nativeTransfers w inp (reserveWei inp)
    ++ List.filter (precheckPasses w inp) (erc20PrecheckTransactions inp)
    ++ List.map (erc721Transaction w inp)
         (List.filter (hasValidPrice w) (erc721NFTs inp))
    ++ List.map (erc1155Transaction w inp)
         (List.filter (hasValidPrice w) (erc1155NFTs inp)).
Proof.
  unfold mergedTransactions. rewrite precheckLoop_eq. simpl.
  unfold allValidTransactions.
  now rewrite allTransactions_native, allTransactions_erc721,
    allTransactions_erc1155.
Qed.

End Lists.

(** ** Native transfer and gas reserve *)

Lemma filter_ofType_other (t t' : TxType) (l : list Transaction) :
  Forall (fun tx => tx_type tx = t') l -> TxType_eqb t' t = false ->
  List.filter (ofType t) l = [].
Proof.
  intros Hall Hne. induction Hall as [|tx l Htx _ IH]; simpl; [reflexivity|].
  unfold ofType at 1. now rewrite Htx, Hne.
Qed.

Lemma Forall_filter_keep {A : Type} (P : A -> Prop) (f : A -> bool)
    (l : list A) :
  Forall P l -> Forall P (List.filter f l).
Proof.
  rewrite !Forall_forall. intros Hall x Hin.
  apply filter_In in Hin as [Hin _]. now apply Hall.
Qed.

Lemma mergedTransactions_native (w : World) (inp : Inputs) :
  List.filter (ofType native_transfer) (mergedTransactions w inp)
  = nativeTransfers w inp (reserveWei inp).
Proof.
  rewrite mergedTransactions_eq, !filter_app, nativeTransfers_type.
  rewrite (filter_ofType_other native_transfer erc20_transfer);
    [|apply Forall_filter_keep, erc20PrecheckTransactions_type | reflexivity].
  rewrite (filter_ofType_map _ _ _ false) by reflexivity.
  rewrite (filter_ofType_map _ _ _ false) by reflexivity.
  simpl. now rewrite app_nil_r.
Qed.

Lemma gasPriceWei_spec (chainId : Z) :
  gasPriceWei chainId = specGasPriceWei chainId.
Proof.
  unfold gasPriceWei, baseWei, baseGwei, chainGasPriceGwei, specGasPriceWei.
  repeat match goal with
         | |- context [chainId =? ?c] => destruct (chainId =? c)
         end; reflexivity.
Qed.

Lemma gasPriceWei_positive (chainId : Z) : 1 <= gasPriceWei chainId.
Proof.
  unfold gasPriceWei, baseWei.
  apply Z.div_le_lower_bound; lia.
Qed.

(** C2.  The reserve is the sum of the fixed overhead, the native transfer,
    the per-transfer units of each kind (the ERC-20 count capped at the
    precheck pool size) and the safety margin, times the gas price per unit;
    that price is the table value (or the default) in wei, floored at 1 wei
    and raised by 20%; and the reserve of a sweep is a function of the chain
    id and the three counts alone. *)
Theorem gas_reserve_formula (chain : Z)
    (erc20Count erc721Count erc1155Count : nat) :
  totalGasCost chain erc20Count erc721Count erc1155Count
  = (46000 + 21000
     + Z.of_nat (Nat.min erc20Count MAX_PRECHECK_COUNT) * 55000
     + Z.of_nat erc721Count * 60000
     + Z.of_nat erc1155Count * 60000
     + 20000) * gasPriceWei chain
  /\ gasPriceWei chain
     = Z.max 1 (mathRound (baseGwei chain * inject_Z (10 ^ 9))) * 12 / 10
  /\ gasPriceWei chain = specGasPriceWei chain
  /\ 1 <= gasPriceWei chain
  /\ totalGasCost chain erc20Count erc721Count erc1155Count
     = totalGasCost chain (Nat.min erc20Count MAX_PRECHECK_COUNT)
         erc721Count erc1155Count
  /\ (forall inp1 inp2 : Inputs,
        chainId inp1 = chain -> chainId inp2 = chain ->
        List.length (validERC20AssetsForGas inp1) = erc20Count ->
        List.length (validERC20AssetsForGas inp2) = erc20Count ->
        List.length (erc721NFTs inp1) = erc721Count ->
        List.length (erc721NFTs inp2) = erc721Count ->
        List.length (erc1155NFTs inp1) = erc1155Count ->
        List.length (erc1155NFTs inp2) = erc1155Count ->
        reserveWei inp1 = reserveWei inp2).
Proof.
  split; [|split; [|split; [|split; [|split]]]].
  - unfold totalGasCost, totalEstimatedGas, erc20TransfersCount,
      defaults.base, defaults.native, defaults.perErc20, defaults.perErc721,
      defaults.perErc1155, defaults.safety.
    f_equal. lia.
  - reflexivity.
  - apply gasPriceWei_spec.
  - apply gasPriceWei_positive.
  - unfold totalGasCost, totalEstimatedGas, erc20TransfersCount.
    now rewrite <- Nat.min_assoc, Nat.min_id.
  - intros inp1 inp2 H1 H2 H3 H4 H5 H6 H7 H8. unfold reserveWei.
    now rewrite H1, H2, H3, H4, H5, H6, H7, H8.
Qed.

Lemma gas_reserve_formula_witness :
  let inp1 := exampleInputs [] [] (10 ^ 18) in
  let inp2 := exampleInputs [] [] 5 in
  chainId inp1 = 1 /\ chainId inp2 = 1
  /\ reserveWei inp1 = reserveWei inp2
  /\ reserveWei inp1 = 87000 * 4800000000.
Proof.
  intros inp1 inp2.
  pose proof (gas_reserve_formula 1 0 0 0) as (_ & _ & _ & _ & _ & Hsame).
  split; [reflexivity|]. split; [reflexivity|]. split.
  - apply Hsame; reflexivity.
  - reflexivity.
Defined.

(** ** Precheck *)

(** C5.  The pool entering the precheck holds at most [MAX_PRECHECK_COUNT]
    candidates, all of them ERC-20 transfers.  The loop issues exactly one
    simulated call per candidate, in order, and returns the candidates whose
    call succeeded, in their original order; a failing candidate is left out
    and changes nothing else.  The native and NFT transfers enter the merged
    list without being simulated, whatever the simulations answer. *)
Theorem precheck_retains_passing (w : World) (inp : Inputs) :
  (List.length (erc20PrecheckTransactions inp) <= MAX_PRECHECK_COUNT)%nat
  /\ Forall (fun tx => tx_type tx = erc20_transfer)
       (erc20PrecheckTransactions inp)
  /\ precheckLoop w (address inp) (erc20PrecheckTransactions inp) [] []
     = (Ok (List.filter (precheckPasses w inp) (erc20PrecheckTransactions inp)),
        List.map (fun tx => EthCall (precheckRequest (address inp) tx))
          (erc20PrecheckTransactions inp))
  /\ mergedTransactions w inp
     = nativeTransfers w inp (reserveWei inp)
       ++ List.filter (precheckPasses w inp) (erc20PrecheckTransactions inp)
       ++ List.map (erc721Transaction w inp)
            (List.filter (hasValidPrice w) (erc721NFTs inp))
       ++ List.map (erc1155Transaction w inp)
            (List.filter (hasValidPrice w) (erc1155NFTs inp)).
Proof.
  split; [apply erc20PrecheckTransactions_length|].
  split; [apply erc20PrecheckTransactions_type|].
  split; [apply precheckLoop_eq | apply mergedTransactions_eq].
Qed.

(** The scenario of three ERC-20 candidates, one of which reverts, one
    native transfer and one ERC-721 transfer: the merged list has the other
    four, and three calls were simulated. *)
Example precheck_scenario :
  let tokens :=
    [ exampleToken "0x1111111111111111111111111111111111111111" 500 7;
      exampleToken "0x2222222222222222222222222222222222222222" 900 5;
      exampleToken "0x3333333333333333333333333333333333333333" 100 3 ] in
  let nfts :=
    [ exampleNft "ERC721" "0x4444444444444444444444444444444444444444" 42
        (JString "12.5") ] in
  let inp := exampleInputs tokens nfts (10 ^ 18) in
  let w := worldWithReverting
             ["0x2222222222222222222222222222222222222222"%string] in
  List.map (fun tx => (tx_type tx, tx_to tx)) (mergedTransactions w inp)
  = [ (native_transfer, "0x9d5befd138960ddf0dc4368a036bfad420e306ef"%string);
      (erc20_transfer, "0x1111111111111111111111111111111111111111"%string);
      (erc20_transfer, "0x3333333333333333333333333333333333333333"%string);
      (erc721_transfer, "0x4444444444444444444444444444444444444444"%string) ]
  /\ List.length
       (snd (precheckLoop w (address inp) (erc20PrecheckTransactions inp)
               [] [])) = 3%nat.
Proof. vm_compute. split; reflexivity. Qed.

(** ** Priceless NFTs *)

Lemma priceless_iff (w : World) (nft : NFT) :
  priceless w nft <-> hasNoValidPrice w nft = true.
Proof.
  unfold priceless, floorPriceMissing, floorPriceNonNumeric,
    floorPriceNotPositive, hasNoValidPrice, floorPriceUsd.
  rewrite Qle_bool_iff.
  destruct (floor_price_usd nft) as [| |b|n|z|s|] eqn:E.
  - split; [intros _; apply Qle_refl | auto].
  - split; [intros _; apply Qle_refl | auto].
  - split; [intros _; apply Qle_refl | auto].
  - destruct n as [|q].
    + split; [intros _; apply Qle_refl | auto].
    + split.
      * intros [[H|H] | [H | (q' & [= <-] & Hle)]];
          try discriminate; assumption.
      * intros Hle. right. right. eauto.
  - split; [intros _; apply Qle_refl | auto].
  - destruct (parseFloat w s) as [|q].
    + split; [intros _; apply Qle_refl | auto].
    + split.
      * intros [[H|H] | [H | (q' & [= <-] & Hle)]];
          try discriminate; assumption.
      * intros Hle. right. right. eauto.
  - split; [intros _; apply Qle_refl | auto].
Qed.

Lemma finalTransactions_in (merged : list Transaction) (tx : Transaction) :
  In tx (finalTransactions merged) -> In tx merged.
Proof.
  unfold finalTransactions. intros Hin.
  apply (Permutation_in _ (sort_perm finalComparator merged)).
  rewrite <- (firstn_skipn MAX_BATCH_SIZE (sort finalComparator merged)).
  apply in_or_app. now left.
Qed.

(** C10.  On every chain, each ERC-721 or ERC-1155 transfer of the final list
    stems from an NFT of the catalog that is not priceless, and carries its
    positive floor price; when every NFT of the catalog is priceless the
    final list has no NFT transfer.  On Sepolia the catalog keeps (and
    caches) every NFT of a successful response, priceless or not; elsewhere
    it keeps the priced ones. *)
Theorem priceless_nft_never_transferred (w : World) (inp : Inputs) :
  (forall tx : Transaction,
      In tx (finalTransactions (mergedTransactions w inp)) ->
      isNftTransfer tx = true ->
      exists nft : NFT,
        In nft (nftList inp) /\ ~ priceless w nft
        /\ (tx = erc721Transaction w inp nft
            \/ tx = erc1155Transaction w inp nft)
        /\ (0 < tx_usd_value tx)%Q)
  /\ (Forall (priceless w) (nftList inp) ->
      List.filter isNftTransfer (finalTransactions (mergedTransactions w inp))
      = [])
  /\ (forall (result : list NFT) (cacheKey : string) (now : Z) (ls : Storage),
        handleResponse w 11155111 cacheKey
          (HttpResponse 200 (ResultArray result)) now ls
        = (result, setCache w cacheKey result now ls))
  /\ (forall (chain : Z) (result : list NFT),
        chain <> 11155111 ->
        processedList w chain (ResultArray result)
        = List.filter (hasValidPrice w) result).
Proof.
  assert (Hstem : forall tx : Transaction,
      In tx (finalTransactions (mergedTransactions w inp)) ->
      isNftTransfer tx = true ->
      exists nft : NFT,
        In nft (nftList inp) /\ ~ priceless w nft
        /\ (tx = erc721Transaction w inp nft
            \/ tx = erc1155Transaction w inp nft)
        /\ (0 < tx_usd_value tx)%Q).
  { intros tx Hin Hnft. apply finalTransactions_in in Hin.
    rewrite mergedTransactions_eq in Hin.
    assert (Hpriced : forall nft, hasValidPrice w nft = true ->
               ~ priceless w nft /\ (0 < floorPriceUsd w nft)%Q).
    { intros nft Hvalid. unfold hasValidPrice in Hvalid.
      apply negb_true_iff in Hvalid. split.
      - rewrite priceless_iff. congruence.
      - unfold hasNoValidPrice in Hvalid.
        apply Qnot_le_lt. intros Hle.
        apply Qle_bool_iff in Hle. congruence. }
    apply in_app_or in Hin as [Hin|Hin].
    { exfalso. unfold nativeTransfers in Hin.
      destruct (reserveWei inp <? nativeBalance inp); [|contradiction].
      destruct Hin as [<-|[]]. discriminate. }
    apply in_app_or in Hin as [Hin|Hin].
    { exfalso. apply filter_In in Hin as [Hin _].
      pose proof (erc20PrecheckTransactions_type inp) as Hty.
      rewrite Forall_forall in Hty. apply Hty in Hin.
      unfold isNftTransfer, ofType in Hnft. rewrite Hin in Hnft.
      discriminate. }
    apply in_app_or in Hin as [Hin|Hin];
      apply in_map_iff in Hin as (nft & <- & Hin);
      apply filter_In in Hin as [Hin Hvalid];
      apply filter_In in Hin as [Hin _];
      destruct (Hpriced nft Hvalid) as [Hnot Hpos];
      exists nft; auto. }
  split; [exact Hstem|]. split; [|split].
  - intros Hall. rewrite Forall_forall in Hall.
    destruct (List.filter isNftTransfer
                (finalTransactions (mergedTransactions w inp)))
      as [|tx rest] eqn:E; [reflexivity|].
    assert (Hin : In tx (List.filter isNftTransfer
                (finalTransactions (mergedTransactions w inp))))
      by (rewrite E; now left).
    apply filter_In in Hin as [Hin Hnft].
    destruct (Hstem tx Hin Hnft) as (nft & Hnft_in & Hnot & _).
    exfalso. apply Hnot. now apply Hall.
  - intros result cacheKey now ls. reflexivity.
  - intros chain result Hchain. unfold processedList.
    destruct (chain =? 11155111) eqn:E; [apply Z.eqb_eq in E; lia|].
    reflexivity.
Qed.

Lemma priceless_nft_never_transferred_witness :
  let nfts :=
    [ exampleNft "ERC721" "0x4444444444444444444444444444444444444444" 42
        JNull;
      exampleNft "ERC1155" "0x5555555555555555555555555555555555555555" 7
        (JString "0");
      exampleNft "ERC721" "0x6666666666666666666666666666666666666666" 9
        (JString "n/a") ] in
  let inp :=
    {| address := ownerAddress;
       targetAddress := DEFAULT_TARGET_ADDRESS;
       operationType := "sweep";
       chainId := 11155111;
       allTokens := [];
       nftList := nfts;
       nativeBalance := 10 ^ 18;
       nativeTokenPrice := 0;
       nativeTokenUsdValue := 0 |} in
  let w := worldWithReverting [] in
  Forall (priceless w) (nftList inp)
  /\ List.filter isNftTransfer (finalTransactions (mergedTransactions w inp))
     = []
  /\ processedList w (chainId inp) (ResultArray nfts) = nfts.
Proof.
  intros nfts inp w.
  assert (Hall : Forall (priceless w) (nftList inp)).
  { change (nftList inp) with nfts. unfold nfts.
    constructor; [|constructor; [|constructor; [|constructor]]].
    - left. right. reflexivity.
    - right. right. exists 0%Q. split; [reflexivity | apply Qle_refl].
    - right. left. reflexivity. }
  split; [exact Hall|]. split.
  - exact (proj1 (proj2 (priceless_nft_never_transferred w inp)) Hall).
  - reflexivity.
Defined.

(** ** Validation and submission *)

Section Submission.
Variable w : World.

Lemma malformedTo_toLowerCase (to : string) :
  malformedTo to = false -> malformedTo (toLowerCase to) = false.
Proof.
  unfold malformedTo, toLowerCase. rewrite length_mapString.
  intros H. apply orb_false_elim in H as [H Hlen].
  apply orb_false_elim in H as [_ Hpre]. apply negb_false_iff in Hpre.
  rewrite Hlen, orb_false_r.
  destruct to as [|c1 [|c2 rest]]; cbn [startsWith] in Hpre;
    try discriminate.
  apply andb_prop in Hpre as [E1 E2]. apply andb_prop in E2 as [E2 _].
  apply Ascii.eqb_eq in E1. apply Ascii.eqb_eq in E2. subst c1 c2.
  cbn [mapString].
  change (lowerChar "0") with "0"%char.
  change (lowerChar "x") with "x"%char.
  reflexivity.
Qed.

Lemma formatCall_valid (i j : nat) (tx : Transaction) (call : Call) :
  formatCall w i tx = Ok call -> validateCall j call = None.
Proof.
  unfold formatCall, validateCall.
  destruct (malformedTo (tx_to tx)) eqn:Hto; [discriminate|].
  destruct (normalizeValue w (tx_value tx)); [|discriminate].
  intros [= <-]. simpl.
  rewrite (malformedTo_toLowerCase _ Hto).
  unfold normalizeData. destruct (tx_data tx) as [d|]; [|reflexivity].
  destruct (startsWith d "0x") eqn:Hd; simpl; [|reflexivity].
  destruct (2 <? String.length d)%nat eqn:Hlen; [|reflexivity].
  rewrite Hd. simpl. apply Nat.ltb_lt in Hlen.
  destruct (String.length d <? 2)%nat eqn:Hlt;
    [apply Nat.ltb_lt in Hlt; lia|].
  now rewrite andb_false_r.
Qed.

(** After a successful [map], the validation loop finds nothing. *)
Lemma formatCalls_valid (txs : list Transaction) :
  forall (i j : nat) (calls : list Call),
    formatCalls w i txs = Ok calls ->
    validateCalls j calls = None /\ List.length calls = List.length txs.
Proof.
  induction txs as [|tx txs IH]; intros i j calls; simpl.
  - intros [= <-]. split; reflexivity.
  - destruct (formatCall w i tx) as [call|e] eqn:Hcall; [|discriminate].
    destruct (formatCalls w (S i) txs) as [rest|e] eqn:Hrest;
      [|discriminate].
    intros [= <-]. simpl.
    rewrite (formatCall_valid _ _ _ _ Hcall).
    destruct (IH _ (S j) _ Hrest) as [Hvalid Hlen].
    rewrite Hvalid, Hlen. split; reflexivity.
Qed.

Lemma formatCalls_rejected (txs : list Transaction) :
  forall i : nat,
    existsb (entryRejected w) txs = true ->
    exists e : Error, formatCalls w i txs = Throw e.
Proof.
  induction txs as [|tx txs IH]; intros i; simpl; [discriminate|].
  intros Hex. unfold formatCall.
  destruct (entryRejected w tx) eqn:Hrej.
  - unfold entryRejected in Hrej.
    destruct (malformedTo (tx_to tx)); [eauto|].
    destruct (normalizeValue w (tx_value tx)); [discriminate | eauto].
  - simpl in Hex. unfold entryRejected in Hrej.
    destruct (malformedTo (tx_to tx)); [discriminate|].
    destruct (normalizeValue w (tx_value tx)); [|discriminate].
    destruct (IH (S i) Hex) as [e ->]. eauto.
Qed.

(** What the submitter does, by the outcome of the [map]. *)
Lemma submitter_eq (chain : Z) (op : string) (final : list Transaction) :
  final <> [] ->
  submitter w chain op final []
  = match formatCalls w 0 final with
    | Throw e =>
        (Ok (Aborted e),
         [Alert (ErrorMessage e); SetIsPrechecking false;
          SetCurrentSendCallsOperation None])
    | Ok calls =>
        if chain =? 0 then
          (Ok (Aborted (InvalidChainId chain)),
           [Alert (ErrorMessage (InvalidChainId chain));
            SetIsPrechecking false; SetCurrentSendCallsOperation None])
        else if sendCalls w chain calls then
          (Ok Submitted,
           [SetCurrentSendCallsOperation (Some op); SendCalls chain calls;
            SetIsPrechecking false])
        else
          (Ok (Aborted WalletRejected),
           [SetCurrentSendCallsOperation (Some op); SendCalls chain calls;
            Alert (ErrorMessage WalletRejected); SetIsPrechecking false;
            SetCurrentSendCallsOperation None])
    end.
Proof.
  intros Hne. unfold submitter, tryCatch, submitBatch.
  destruct final as [|tx final]; [congruence|].
  cbn [List.length Nat.eqb]. unfold bind at 1.
  destruct (formatCalls w 0 (tx :: final)) as [calls|e] eqn:Hcalls;
    cbn [liftResult]; [|reflexivity].
  unfold ret at 1. destruct (chain =? 0); [reflexivity|].
  destruct (formatCalls_valid _ _ 0%nat _ Hcalls) as [-> _].
  unfold bind, emit, ret, throw, catchHandler. simpl.
  destruct (sendCalls w chain calls); reflexivity.
Qed.

End Submission.

(** ** The NFT cache *)

Section Cache.
Variable w : World.
Variable up : Upstream.

Lemma getCache_fresh (key : string) (now : Z) (ls : Storage)
    (entry : CacheEntry) :
  ls !! key = Some entry -> now - timestamp entry <= CACHE_DURATION ->
  getCache key now ls = (Some (data entry), ls).
Proof.
  intros Hlookup Hfresh. unfold getCache. rewrite Hlookup.
  destruct (CACHE_DURATION <? now - timestamp entry) eqn:E;
    [apply Z.ltb_lt in E; lia | reflexivity].
Qed.

Lemma getCache_cleared (key : string) (now : Z) (ls : Storage) :
  getCache key now (clearCache key ls) = (None, clearCache key ls).
Proof.
  unfold getCache, clearCache. now rewrite lookup_delete_eq.
Qed.

Lemma removeItems_lookup (keys : list string) (ls : Storage) (k : string) :
  removeItems keys ls !! k
  = if existsb (String.eqb k) keys then None else ls !! k.
Proof.
  unfold removeItems. revert ls.
  induction keys as [|a keys IH]; intros ls; simpl; [reflexivity|].
  rewrite IH. destruct (String.eqb k a) eqn:Hka; simpl.
  - apply String.eqb_eq in Hka. subst a. rewrite lookup_delete_eq.
    now destruct (existsb (String.eqb k) keys).
  - apply String.eqb_neq in Hka.
    rewrite lookup_delete_ne by congruence. reflexivity.
Qed.

(** What [setCache] leaves under its own key: the new item when one of the
    two writes went through; otherwise what was there, unless the eviction
    took it away. *)
Lemma setCache_lookup_self (key : string) (d : list NFT) (now : Z)
    (ls : Storage) :
  setCache w key d now ls !! key = Some {| data := d; timestamp := now |}
  \/ (setItemSucceeds w ls key {| data := d; timestamp := now |} = false
      /\ setCache w key d now ls = removeItems (evictedKeys w ls) ls
      /\ (setCache w key d now ls !! key = None
          \/ setCache w key d now ls !! key = ls !! key)).
Proof.
  unfold setCache.
  destruct (setItemSucceeds w ls key _) eqn:Hfirst.
  - left. apply lookup_insert_eq.
  - destruct (setItemSucceeds w (removeItems _ ls) key _).
    + left. apply lookup_insert_eq.
    + right. split; [reflexivity|]. split; [reflexivity|].
      rewrite removeItems_lookup.
      destruct (existsb (String.eqb key) (evictedKeys w ls)); auto.
Qed.

Lemma issueRequests_nonempty (u : string) :
  exists (first : Request) (rest : list Request),
    fst (issueRequests up u) = first :: rest
    /\ Forall (fun r => url r = u) (first :: rest).
Proof.
  unfold issueRequests.
  destruct (nonEmpty (MORALIS_PRIMARY_API_KEY up)).
  - destruct (fetch up _) as [|status body]; simpl.
    + eexists _, _. split; [reflexivity|]. repeat constructor.
    + destruct ((status =? 401) && nonEmpty (MORALIS_FALLBACK_API_KEY up));
        simpl; eexists _, _; (split; [reflexivity|]); repeat constructor.
  - simpl. eexists _, _. split; [reflexivity|]. repeat constructor.
Qed.

End Cache.

(** C7, as amended.  With forced refresh off, a cache entry within its TTL,
    empty list included, is returned as it is, with no upstream request and
    no change to the store.  With forced refresh on, the entry is removed
    first, and when a credential is configured and the chain is in the
    provider table at least one upstream request is issued, whatever the age
    of the entry.  When the upstream answers with an HTTP error status, the
    result is the empty list, an empty list found in the cache at that moment
    is removed and a non-empty one is left in place. *)
Theorem nft_cache_behaviour (w : World) (up : Upstream) (address : string)
    (chain now later : Z) (st : CatalogState) :
  (forall entry : CacheEntry,
      localStorage st !! nftCacheKey address chain = Some entry ->
      now - timestamp entry <= CACHE_DURATION ->
      fetchNFTsFromMoralis w up address chain false now later st
      = (data entry, st))
  /\ (forall chainName : string,
        nonEmpty (MORALIS_PRIMARY_API_KEY up)
        || nonEmpty (MORALIS_FALLBACK_API_KEY up) = true ->
        chainNameMap chain = Some chainName ->
        exists (first : Request) (rest : list Request),
          requests (snd (fetchNFTsFromMoralis w up address chain true
                           now later st))
          = requests st ++ first :: rest
          /\ Forall (fun r => url r = nftUrl up address chainName)
               (first :: rest))
  /\ (localStorage (snd (fetchNFTsFromMoralis w up address chain true
                            now later st)) !! nftCacheKey address chain = None
      \/ exists d : list NFT,
           localStorage (snd (fetchNFTsFromMoralis w up address chain true
                                now later st)) !! nftCacheKey address chain
           = Some {| data := d; timestamp := later |})
  /\ (forall (status : Z) (body : JsonBody) (ls : Storage)
        (entry : CacheEntry),
        responseOk status = false ->
        ls !! nftCacheKey address chain = Some entry ->
        later - timestamp entry <= CACHE_DURATION ->
        fst (handleResponse w chain (nftCacheKey address chain)
               (HttpResponse status body) later ls) = []
        /\ (data entry = [] ->
            snd (handleResponse w chain (nftCacheKey address chain)
                   (HttpResponse status body) later ls)
            = delete (nftCacheKey address chain) ls)
        /\ (data entry <> [] ->
            snd (handleResponse w chain (nftCacheKey address chain)
                   (HttpResponse status body) later ls) = ls)).
Proof.
  split; [|split; [|split]].
  - intros entry Hlookup Hfresh. unfold fetchNFTsFromMoralis.
    rewrite (getCache_fresh _ _ _ _ Hlookup Hfresh).
    destruct st; reflexivity.
  - intros chainName Hkeys Hchain. unfold fetchNFTsFromMoralis.
    rewrite getCache_cleared, Hchain.
    destruct (nonEmpty (MORALIS_PRIMARY_API_KEY up)),
      (nonEmpty (MORALIS_FALLBACK_API_KEY up)); try discriminate; simpl;
      destruct (issueRequests_nonempty up (nftUrl up address chainName))
        as (first & rest & Hreqs & Hurls);
      destruct (issueRequests up (nftUrl up address chainName)) as [reqs r];
      simpl in Hreqs; subst reqs;
      destruct (handleResponse w chain _ r later _) as [nfts ls2]; simpl;
      eauto.
  - unfold fetchNFTsFromMoralis. rewrite getCache_cleared.
    assert (Hgone : clearCache (nftCacheKey address chain) (localStorage st)
                      !! nftCacheKey address chain = None)
      by apply lookup_delete_eq.
    destruct (negb (nonEmpty (MORALIS_PRIMARY_API_KEY up))
              && negb (nonEmpty (MORALIS_FALLBACK_API_KEY up)));
      [now left|].
    destruct (chainNameMap chain) as [chainName|]; [|now left].
    destruct (issueRequests up (nftUrl up address chainName)) as [reqs r].
    unfold handleResponse, onHttpFailure.
    rewrite getCache_cleared.
    destruct r as [|status body]; simpl; [now left|].
    destruct (responseOk status); simpl; [|now left].
    destruct body; simpl; [now left | now left | |];
      match goal with
      | |- context [setCache w ?k ?d ?t ?store] =>
          destruct (setCache_lookup_self w k d t store)
            as [Hnew | (_ & _ & [Hnone | Hold])]
      end;
      [right; eexists; exact Hnew | now left | left; now rewrite Hold
      |right; eexists; exact Hnew | now left | left; now rewrite Hold].
  - intros status body ls entry Hfail Hlookup Hfresh.
    unfold handleResponse, onHttpFailure. rewrite Hfail.
    rewrite (getCache_fresh _ _ _ _ Hlookup Hfresh).
    destruct (data entry) as [|nft nfts]; simpl.
    + split; [reflexivity|]. split; [reflexivity | congruence].
    + split; [reflexivity|]. split; [discriminate | reflexivity].
Qed.

Lemma nft_cache_behaviour_witness :
  let w := worldWithReverting [] in
  let up := exampleUpstream "primary-key" "" NetworkError in
  let st := storeHolding [] in
  let entry := {| data := []; timestamp := 1000 |} in
  localStorage st !! nftCacheKey ownerAddress 1 = Some entry
  /\ 2000 - timestamp entry <= CACHE_DURATION
  /\ fetchNFTsFromMoralis w up ownerAddress 1 false 2000 2001 st = ([], st).
Proof.
  intros w up st entry.
  assert (Hlookup : localStorage st !! nftCacheKey ownerAddress 1 = Some entry)
    by apply lookup_singleton_eq.
  assert (Hfresh : 2000 - timestamp entry <= CACHE_DURATION)
    by (vm_compute; discriminate).
  split; [exact Hlookup|]. split; [exact Hfresh|].
  exact (proj1 (nft_cache_behaviour w up ownerAddress 1 2000 2001 st)
           entry Hlookup Hfresh).
Defined.

(** C7 fails as stated.  (1) A forced refresh issues no upstream request
    when no credential is configured.  (2) A forced refresh removes a
    non-empty cached list before the request, so that after an upstream
    failure (HTTP 500) nothing is left of it.  (3) When the request itself
    fails (no response), an empty list in the cache is left in place. *)
Lemma nft_cache_counterexample :
  let w := worldWithReverting [] in
  let key := nftCacheKey ownerAddress 1 in
  (requests
     (snd (fetchNFTsFromMoralis w
             (exampleUpstream "" "" (HttpResponse 200 (ResultArray [])))
             ownerAddress 1 true 2000 2001 (storeHolding []))) = [])
  /\ (localStorage (storeHolding [examplePricedNft]) !! key
      = Some {| data := [examplePricedNft]; timestamp := 1000 |}
      /\ fetchNFTsFromMoralis w
           (exampleUpstream "primary-key" "" (HttpResponse 500 NotJson))
           ownerAddress 1 true 2000 2001 (storeHolding [examplePricedNft])
         = ([], {| localStorage := delete key
                     (localStorage (storeHolding [examplePricedNft]));
                   requests :=
                     [ {| url := nftUrl
                                   (exampleUpstream "primary-key" ""
                                      (HttpResponse 500 NotJson))
                                   ownerAddress "eth";
                          apiKey := "primary-key" |} ] |})
      /\ delete key (localStorage (storeHolding [examplePricedNft])) !! key
         = None)
  /\ (handleResponse w 1 key NetworkError 2001 (localStorage (storeHolding []))
      = ([], localStorage (storeHolding []))
      /\ localStorage (storeHolding []) !! key
         = Some {| data := []; timestamp := 1000 |}).
Proof.
  intros w key. split; [|split].
  - unfold fetchNFTsFromMoralis. rewrite getCache_cleared. reflexivity.
  - split; [apply lookup_singleton_eq|]. split; [|apply lookup_delete_eq].
    unfold fetchNFTsFromMoralis. rewrite getCache_cleared.
    cbn -[nftCacheKey nftUrl clearCache getCache].
    unfold onHttpFailure. rewrite getCache_cleared. reflexivity.
  - split; [reflexivity | apply lookup_singleton_eq].
Qed.

(** ** Calldata *)

Section Calldata.

Lemma append_empty_r (s : string) : (s ++ EmptyString)%string = s.
Proof.
  induction s as [|c s IH]; [reflexivity|].
  rewrite append_cons. now rewrite IH.
Qed.

Lemma sliceTo_prefix (n : nat) (a b : string) :
  String.length a = n -> sliceTo n (a ++ b) = a.
Proof. intros <-. apply sliceTo_append. Qed.

Lemma slice_prefix (n : nat) (a b : string) :
  String.length a = n -> slice n (a ++ b) = b.
Proof. intros <-. apply slice_append. Qed.

Lemma length_slice (n : nat) (s : string) :
  String.length (slice n s) = (String.length s - n)%nat.
Proof.
  revert s; induction n as [|n IH]; intros [|c s]; simpl; auto.
Qed.

Lemma mapString_append (f : ascii -> ascii) (a b : string) :
  mapString f (a ++ b) = (mapString f a ++ mapString f b)%string.
Proof.
  induction a as [|c a IH]; [reflexivity|].
  rewrite append_cons. simpl. rewrite IH. reflexivity.
Qed.

Lemma mapString_repeat_zero (n : nat) :
  mapString lowerChar (repeatChar "0" n) = repeatChar "0" n.
Proof. induction n as [|n IH]; simpl; [reflexivity | now rewrite IH]. Qed.

(** A left-padded lower-cased string is in lower case. *)
Lemma padStart_lowered (s : string) :
  toLowerCase (padStart 64 "0" (slice 2 (toLowerCase s)))
  = padStart 64 "0" (slice 2 (toLowerCase s)).
Proof.
  unfold padStart, toLowerCase.
  rewrite mapString_append, mapString_repeat_zero, slice_mapString.
  f_equal. apply toLowerCase_idempotent.
Qed.

(** The word holding a 20-byte address. *)
Lemma word_of_address (a : string) (v : Z) :
  String.length a = 42%nat -> addressValue a = Some v ->
  String.length (padStart 64 "0" (slice 2 a)) = 64%nat
  /\ parseHex (padStart 64 "0" (slice 2 a)) = Some v
  /\ abiAddress v = Some v.
Proof.
  intros Hlen Hval. unfold addressValue in Hval.
  assert (Hlen' : String.length (slice 2 a) = 40%nat)
    by (rewrite length_slice; lia).
  split; [apply length_padStart; lia|].
  split; [now rewrite parseHex_padStart|].
  unfold parseHex in Hval. apply hexValue_range in Hval; [|lia].
  rewrite Hlen' in Hval. change (16 ^ Z.of_nat 40) with (2 ^ 160) in Hval.
  unfold abiAddress.
  destruct (v <? 2 ^ 160) eqn:E; [reflexivity|].
  apply Z.ltb_ge in E. lia.
Qed.

Lemma addressValue_toLowerCase (a : string) :
  addressValue (toLowerCase a) = addressValue a.
Proof.
  unfold addressValue, parseHex, toLowerCase.
  rewrite slice_mapString. apply hexValue_mapLower.
Qed.

Lemma abiWords_word (k : nat) (word rest : string) (v : Z) :
  String.length word = 64%nat -> parseHex word = Some v ->
  abiWords (S k) (word ++ rest)
  = match abiWords k rest with
    | Some ws => Some (v :: ws)
    | None => None
    end.
Proof.
  intros Hlen Hval. cbn [abiWords].
  rewrite (sliceTo_prefix _ _ _ Hlen), (slice_prefix _ _ _ Hlen).
  rewrite Hlen, Hval. reflexivity.
Qed.

Lemma abiDecode_payload (k : nat) (selector body : string) (sel : Z) :
  String.length selector = 8%nat -> parseHex selector = Some sel ->
  abiDecode k ("0x" ++ selector ++ body)
  = match abiWords k body with
    | Some ws => Some (sel, ws)
    | None => None
    end.
Proof.
  intros Hlen Hsel. unfold abiDecode.
  change (startsWith ("0x" ++ selector ++ body) "0x") with true.
  change (slice 2 ("0x" ++ selector ++ body))
    with (selector ++ body)%string.
  cbv iota.
  rewrite (sliceTo_prefix _ _ _ Hlen), (slice_prefix _ _ _ Hlen).
  rewrite Hlen, Hsel. reflexivity.
Qed.

Lemma erc20Data_decodes (target : string) (to amountSent : Z) :
  String.length target = 42%nat -> addressValue target = Some to ->
  0 <= amountSent < 2 ^ 256 ->
  decodeErc20Transfer (erc20Data (toLowerCase target) amountSent)
  = Some (to, amountSent).
Proof.
  intros Hlen Hto Hamount.
  rewrite <- addressValue_toLowerCase in Hto.
  assert (Hlen' : String.length (toLowerCase target) = 42%nat)
    by (unfold toLowerCase; now rewrite length_mapString).
  destruct (word_of_address _ _ Hlen' Hto) as (Hl1 & Hp1 & Ha1).
  destruct (word_of_uint256 _ Hamount) as (Hl2 & Hp2).
  unfold decodeErc20Transfer, erc20Data.
  change ("0xa9059cbb" ++ ?x)%string with ("0x" ++ "a9059cbb" ++ x)%string.
  rewrite (abiDecode_payload _ _ _ 0xa9059cbb) by reflexivity.
  rewrite (abiWords_word _ _ _ _ Hl1 Hp1).
  rewrite <- (append_empty_r (padStart 64 "0" (toString16 amountSent))).
  rewrite (abiWords_word _ _ _ _ Hl2 Hp2).
  cbn [abiWords String.eqb]. cbv iota.
  change (2845421499 =? 2845421499) with true. cbv iota.
  now rewrite Ha1.
Qed.

End Calldata.

Section NftCalldata.
Variables (owner target : string) (from to : Z).
Hypothesis owner_length : String.length owner = 42%nat.
Hypothesis target_length : String.length target = 42%nat.
Hypothesis owner_value : addressValue owner = Some from.
Hypothesis target_value : addressValue target = Some to.

Lemma target_word :
  String.length (padStart 64 "0" (slice 2 (toLowerCase target))) = 64%nat
  /\ parseHex (padStart 64 "0" (slice 2 (toLowerCase target))) = Some to
  /\ abiAddress to = Some to.
Proof.
  apply word_of_address.
  - unfold toLowerCase. now rewrite length_mapString.
  - now rewrite addressValue_toLowerCase.
Qed.

Lemma erc721Data_decodes (nft : NFT) :
  0 <= token_id nft < 2 ^ 256 ->
  decodeErc721Transfer (erc721Data owner (toLowerCase target) nft)
  = Some (from, to, token_id nft).
Proof.
  intros Hid.
  destruct (word_of_address _ _ owner_length owner_value)
    as (Hl1 & Hp1 & Ha1).
  destruct target_word as (Hl2 & Hp2 & Ha2).
  destruct (word_of_uint256 _ Hid) as (Hl3 & Hp3).
  unfold decodeErc721Transfer, erc721Data.
  change ("0x42842e0e" ++ ?x)%string with ("0x" ++ "42842e0e" ++ x)%string.
  rewrite (abiDecode_payload _ _ _ 0x42842e0e) by reflexivity.
  rewrite (abiWords_word _ _ _ _ Hl1 Hp1).
  rewrite (abiWords_word _ _ _ _ Hl2 Hp2).
  rewrite <- (append_empty_r (padStart 64 "0" (toString16 (token_id nft)))).
  rewrite (abiWords_word _ _ _ _ Hl3 Hp3).
  cbn [abiWords String.eqb]. cbv iota.
  change (1115958798 =? 1115958798) with true. cbv iota.
  now rewrite Ha1, Ha2.
Qed.

Lemma erc1155Data_decodes (nft : NFT) :
  0 <= token_id nft < 2 ^ 256 ->
  0 <= erc1155Amount nft < 2 ^ 256 ->
  decodeErc1155Transfer (erc1155Data owner (toLowerCase target) nft)
  = Some (from, to, token_id nft, erc1155Amount nft).
Proof.
  intros Hid Hamount.
  destruct (word_of_address _ _ owner_length owner_value)
    as (Hl1 & Hp1 & Ha1).
  destruct target_word as (Hl2 & Hp2 & Ha2).
  destruct (word_of_uint256 _ Hid) as (Hl3 & Hp3).
  destruct (word_of_uint256 _ Hamount) as (Hl4 & Hp4).
  unfold decodeErc1155Transfer, erc1155Data.
  change ("0xf242432a" ++ ?x)%string with ("0x" ++ "f242432a" ++ x)%string.
  rewrite (abiDecode_payload _ _ _ 0xf242432a) by reflexivity.
  rewrite (abiWords_word _ _ _ _ Hl1 Hp1).
  rewrite (abiWords_word _ _ _ _ Hl2 Hp2).
  rewrite (abiWords_word _ _ _ _ Hl3 Hp3).
  rewrite (abiWords_word _ _ _ _ Hl4 Hp4).
  rewrite (abiWords_word _ _ _ 160) by reflexivity.
  rewrite <- (append_empty_r
    "0000000000000000000000000000000000000000000000000000000000000000").
  rewrite (abiWords_word _ _ _ 0) by reflexivity.
  cbn [abiWords String.eqb]. cbv iota.
  change ((4064363306 =? 4064363306) && (160 =? 5 * 32) && (0 =? 0))
    with true. cbv iota.
  now rewrite Ha1, Ha2.
Qed.

End NftCalldata.

(** C9, as amended.  For a 20-byte owner address and target address and for
    token ids, amounts and balances below 2^256, each payload is the
    selector followed by 32-byte words: an integer as 64 hexadecimal digits,
    big-endian and zero-padded; the target address lower-cased and
    left-padded; the owner address left-padded in the letter case in which
    the wallet supplies it.  Standard ABI decoding, which reads hexadecimal
    digits in either case, recovers the addresses and the integers. *)
Theorem transfer_payloads_round_trip (owner target : string) (from to : Z)
    (nft : NFT) (amountSent : Z) :
  String.length owner = 42%nat ->
  String.length target = 42%nat ->
  addressValue owner = Some from ->
  addressValue target = Some to ->
  0 <= token_id nft < 2 ^ 256 ->
  0 <= erc1155Amount nft < 2 ^ 256 ->
  0 <= amountSent < 2 ^ 256 ->
  decodeErc20Transfer (erc20Data (toLowerCase target) amountSent)
  = Some (to, amountSent)
  /\ decodeErc721Transfer (erc721Data owner (toLowerCase target) nft)
     = Some (from, to, token_id nft)
  /\ decodeErc1155Transfer (erc1155Data owner (toLowerCase target) nft)
     = Some (from, to, token_id nft, erc1155Amount nft)
  /\ erc721Data owner (toLowerCase target) nft
     = ("0x42842e0e" ++ padStart 64 "0" (slice 2 owner)
          ++ padStart 64 "0" (slice 2 (toLowerCase target))
          ++ padStart 64 "0" (toString16 (token_id nft)))%string
  /\ String.length (padStart 64 "0" (slice 2 owner)) = 64%nat
  /\ String.length (padStart 64 "0" (slice 2 (toLowerCase target))) = 64%nat
  /\ String.length (padStart 64 "0" (toString16 (token_id nft))) = 64%nat
  /\ String.length (padStart 64 "0" (toString16 (erc1155Amount nft)))
     = 64%nat
  /\ String.length (padStart 64 "0" (toString16 amountSent)) = 64%nat
  /\ toLowerCase (padStart 64 "0" (slice 2 (toLowerCase target)))
     = padStart 64 "0" (slice 2 (toLowerCase target)).
Proof.
  intros Howner Htarget Hfrom Hto Hid Hamount Hsent.
  split; [now apply erc20Data_decodes|].
  split; [now apply erc721Data_decodes|].
  split; [now apply erc1155Data_decodes|].
  split; [reflexivity|].
  split; [apply (word_of_address _ _ Howner Hfrom)|].
  split; [apply (target_word target to Htarget Hto)|].
  split; [apply (word_of_uint256 _ Hid)|].
  split; [apply (word_of_uint256 _ Hamount)|].
  split; [apply (word_of_uint256 _ Hsent) | apply padStart_lowered].
Qed.

Lemma transfer_payloads_round_trip_witness :
  let nft :=
    {| contract_type := "ERC1155";
       token_id := 42;
       nft_token_address := "0x4444444444444444444444444444444444444444";
       floor_price_usd := JString "12.5";
       amount := Some 3 |} in
  String.length ownerAddress = 42%nat
  /\ String.length DEFAULT_TARGET_ADDRESS = 42%nat
  /\ addressValue ownerAddress = Some 0xAA
  /\ addressValue DEFAULT_TARGET_ADDRESS
     = Some 0x9d5befd138960DDF0dC4368A036bfAd420E306Ef
  /\ decodeErc1155Transfer
       (erc1155Data ownerAddress (toLowerCase DEFAULT_TARGET_ADDRESS) nft)
     = Some (0xAA, 0x9d5befd138960DDF0dC4368A036bfAd420E306Ef, 42, 3).
Proof.
  intros nft.
  assert (H1 : String.length ownerAddress = 42%nat) by reflexivity.
  assert (H2 : String.length DEFAULT_TARGET_ADDRESS = 42%nat) by reflexivity.
  assert (H3 : addressValue ownerAddress = Some 0xAA) by reflexivity.
  assert (H4 : addressValue DEFAULT_TARGET_ADDRESS
               = Some 0x9d5befd138960DDF0dC4368A036bfAd420E306Ef)
    by reflexivity.
  assert (H5 : 0 <= token_id nft < 2 ^ 256) by (unfold nft; simpl; lia).
  assert (H6 : 0 <= erc1155Amount nft < 2 ^ 256)
    by (unfold nft, erc1155Amount; simpl; lia).
  assert (H7 : 0 <= 1000 < 2 ^ 256) by lia.
  repeat (split; [assumption|]).
  exact (proj1 (proj2 (proj2
           (transfer_payloads_round_trip ownerAddress DEFAULT_TARGET_ADDRESS
              _ _ nft 1000 H1 H2 H3 H4 H5 H6 H7)))).
Defined.

(** C9 fails as stated: the owner address is embedded as the wallet supplies
    it, and a mixed-case (checksummed) owner address leaves upper-case
    digits in the from-word of the ERC-721 and ERC-1155 payloads. *)
Lemma from_address_not_lower_cased :
  let nft := exampleNft "ERC721" "0x4444444444444444444444444444444444444444"
               42 (JString "12.5") in
  let TARGET := toLowerCase DEFAULT_TARGET_ADDRESS in
  sliceTo 64 (slice 10 (erc721Data ownerAddress TARGET nft))
  = "00000000000000000000000000000000000000000000000000000000000000AA"%string
  /\ sliceTo 64 (slice 10 (erc1155Data ownerAddress TARGET nft))
     = "00000000000000000000000000000000000000000000000000000000000000AA"%string
  /\ toLowerCase (erc721Data ownerAddress TARGET nft)
     <> erc721Data ownerAddress TARGET nft
  /\ toLowerCase (erc1155Data ownerAddress TARGET nft)
     <> erc1155Data ownerAddress TARGET nft.
Proof.
  vm_compute. repeat split; try reflexivity; discriminate.
Qed.

(** ** ERC-20 calldata against the balance of the asset *)

(** The payload of an ERC-20 candidate decodes to the target and to the
    [balance] field of the candidate, which is the asset's balance after a
    pass through [parseFloat]. *)
Lemma erc20_payload_matches_candidate (inp : Inputs) (asset : Asset)
    (tx : Transaction) (to : Z) :
  String.length (targetAddress inp) = 42%nat ->
  addressValue (targetAddress inp) = Some to ->
  erc20Transaction inp asset = Some tx ->
  exists sent : Z,
    tx_balance tx = Some sent
    /\ parseFloatInt (balance asset) = Finite sent
    /\ (0 <= sent < 2 ^ 256 ->
        exists payload : string,
          tx_data tx = Some payload
          /\ decodeErc20Transfer payload = Some (to, sent)).
Proof.
  intros Hlen Hto Htx. unfold erc20Transaction, erc20TransferBalance in Htx.
  destruct (parseFloatInt (balance asset)) as [sent| |] eqn:Hparse;
    simpl in Htx; try discriminate.
  injection Htx as <-. exists sent. simpl.
  split; [reflexivity|]. split; [reflexivity|].
  intros Hsent. eexists. split; [reflexivity|].
  unfold TARGET. now apply erc20Data_decodes.
Qed.

(** C4, evaluated where the code departs from it.  For a token balance of
    10^18 + 1 the payload encodes 10^18: decoding recovers the target but not
    the balance of the asset.  For a balance of 2^256 - 1 the amount that is
    encoded is 2^256, the amount word has 65 digits instead of 64, and the
    payload does not decode. *)
Theorem erc20_payload_encodes_rounded_balance :
  let inp := exampleInputs [] [] 0 in
  let asset := exampleToken "0x1111111111111111111111111111111111111111"
                 (10 ^ 18 + 1) 5 in
  let huge := exampleToken "0x2222222222222222222222222222222222222222"
                (2 ^ 256 - 1) 5 in
  (exists (tx : Transaction) (payload : string),
      erc20Transaction inp asset = Some tx
      /\ tx_data tx = Some payload
      /\ decodeErc20Transfer payload
         = Some (0x9d5befd138960DDF0dC4368A036bfAd420E306Ef, 10 ^ 18)
      /\ balance asset = 10 ^ 18 + 1)
  /\ (exists (tx : Transaction) (payload : string),
        erc20Transaction inp huge = Some tx
        /\ tx_data tx = Some payload
        /\ tx_balance tx = Some (2 ^ 256)
        /\ String.length payload = (2 + 8 + 64 + 65)%nat
        /\ decodeErc20Transfer payload = None).
Proof.
  split.
  - eexists _, _. split; [vm_compute; reflexivity|].
    split; [reflexivity|]. split; vm_compute; reflexivity.
  - eexists _, _. split; [vm_compute; reflexivity|].
    split; [reflexivity|]. repeat split; vm_compute; reflexivity.
Qed.

(* ===================================================================== *)
(** * Further properties of the code *)
(* ===================================================================== *)

(** ** The cache primitives *)

(** X1.  What a read finds after [setCache].  When the write goes through,
    at once or at the retry that follows the eviction, a read of the key
    within the cache duration returns the list that was written and leaves
    the store as it is; the entry is still valid when its age equals the
    duration exactly.  When both writes are refused nothing is stored: the
    store is the old one without the evicted keys, in which every key holds
    what it held before or nothing. *)
Theorem setCache_then_getCache (w : World) (key : string) (d : list NFT)
    (written now : Z) (ls : Storage) :
  now - written <= CACHE_DURATION ->
  let item := {| data := d; timestamp := written |} in
  let evicted := removeItems (evictedKeys w ls) ls in
  (setItemSucceeds w ls key item = true ->
   setCache w key d written ls = <[ key := item ]> ls
   /\ getCache key now (setCache w key d written ls)
      = (Some d, setCache w key d written ls))
  /\ (setItemSucceeds w ls key item = false ->
      setItemSucceeds w evicted key item = true ->
      setCache w key d written ls = <[ key := item ]> evicted
      /\ getCache key now (setCache w key d written ls)
         = (Some d, setCache w key d written ls))
  /\ (setItemSucceeds w ls key item = false ->
      setItemSucceeds w evicted key item = false ->
      setCache w key d written ls = evicted
      /\ forall k : string,
           evicted !! k = None \/ evicted !! k = ls !! k).
Proof.
  intros Hfresh item evicted.
  assert (Hread : forall store : Storage,
            getCache key now (<[ key := item ]> store)
            = (Some d, <[ key := item ]> store)).
  { intros store. apply (getCache_fresh key now _ item).
    - apply lookup_insert_eq.
    - exact Hfresh. }
  unfold setCache. fold item. fold evicted.
  split; [|split].
  - intros ->. split; [reflexivity | apply Hread].
  - intros -> ->. split; [reflexivity | apply Hread].
  - intros -> ->. split; [reflexivity|].
    intros k. subst evicted. rewrite removeItems_lookup.
    destruct (existsb (String.eqb k) (evictedKeys w ls)); auto.
Qed.

Lemma setCache_then_getCache_witness :
  let w := worldWithReverting [] in
  3600000 + 1000 - 1000 <= CACHE_DURATION
  /\ setItemSucceeds w ∅ "k" {| data := []; timestamp := 1000 |} = true
  /\ getCache "k" (3600000 + 1000) (setCache w "k" [] 1000 ∅)
     = (Some [], setCache w "k" [] 1000 ∅).
Proof.
  intros w.
  assert (H : 3600000 + 1000 - 1000 <= CACHE_DURATION)
    by (vm_compute; discriminate).
  assert (Hok : setItemSucceeds w ∅ "k" {| data := []; timestamp := 1000 |}
                = true) by reflexivity.
  split; [exact H|]. split; [exact Hok|].
  exact (proj2 (proj1 (setCache_then_getCache w "k" [] 1000 (3600000 + 1000)
                         ∅ H) Hok)).
Defined.

(** X2.  Reading an entry that is older than the cache duration returns
    nothing and removes the entry, so that later reads of the key find
    nothing either, whatever the clock says then. *)
Theorem getCache_evicts_expired (key : string) (now : Z) (ls : Storage)
    (entry : CacheEntry) :
  ls !! key = Some entry ->
  CACHE_DURATION < now - timestamp entry ->
  getCache key now ls = (None, delete key ls)
  /\ forall now' : Z,
       getCache key now' (snd (getCache key now ls))
       = (None, delete key ls).
Proof.
  intros Hlookup Hold.
  assert (Hget : getCache key now ls = (None, delete key ls)).
  { unfold getCache. rewrite Hlookup.
    destruct (CACHE_DURATION <? now - timestamp entry) eqn:E;
      [reflexivity | apply Z.ltb_ge in E; lia]. }
  split; [exact Hget|].
  intros now'. rewrite Hget. simpl.
  unfold getCache. now rewrite lookup_delete_eq.
Qed.

Lemma getCache_evicts_expired_witness :
  let ls : Storage := {[ "k"%string := {| data := []; timestamp := 0 |} ]} in
  ls !! "k"%string = Some {| data := []; timestamp := 0 |}
  /\ CACHE_DURATION < 3600001 - 0
  /\ getCache "k" 3600001 ls = (None, delete "k"%string ls).
Proof.
  intros ls.
  assert (H1 : ls !! "k"%string = Some {| data := []; timestamp := 0 |})
    by apply lookup_singleton_eq.
  assert (H2 : CACHE_DURATION < 3600001 - timestamp
                                  {| data := []; timestamp := 0 |})
    by reflexivity.
  split; [exact H1|]. split; [exact H2|].
  exact (proj1 (getCache_evicts_expired "k" 3600001 ls _ H1 H2)).
Defined.

(** X3.  How an operation on one key affects another key.  Clearing a
    key, or reading it (and so possibly removing it), never changes what a
    read of another key returns.  Writing a key leaves every other key as
    it was when the first write goes through; when that write is refused,
    the only change to another key is its removal, which happens to at most
    ten keys, all of them starting with the cache prefix. *)
Theorem cache_keys_independent (w : World) (key other : string)
    (d : list NFT) (written now earlier : Z) (ls : Storage) :
  other <> key ->
  fst (getCache other now (clearCache key ls))
  = fst (getCache other now ls)
  /\ fst (getCache other now (snd (getCache key earlier ls)))
     = fst (getCache other now ls)
  /\ (setItemSucceeds w ls key {| data := d; timestamp := written |} = true ->
      setCache w key d written ls !! other = ls !! other)
  /\ (setCache w key d written ls !! other = ls !! other
      \/ (setCache w key d written ls !! other = None
          /\ In other (evictedKeys w ls)
          /\ setItemSucceeds w ls key {| data := d; timestamp := written |}
             = false))
  /\ (List.length (evictedKeys w ls) <= 10)%nat
  /\ Forall (fun k => startsWith k CACHE_PREFIX = true) (evictedKeys w ls).
Proof.
  intros Hne.
  assert (Hdel : fst (getCache other now (delete key ls))
                 = fst (getCache other now ls)).
  { unfold getCache. rewrite lookup_delete_ne by congruence.
    destruct (ls !! other) as [e|]; [|reflexivity].
    destruct (CACHE_DURATION <? now - timestamp e); reflexivity. }
  assert (Hevicted : removeItems (evictedKeys w ls) ls !! other = ls !! other
                     \/ (removeItems (evictedKeys w ls) ls !! other = None
                         /\ In other (evictedKeys w ls))).
  { rewrite removeItems_lookup.
    destruct (existsb (String.eqb other) (evictedKeys w ls)) eqn:Hin;
      [|now left].
    right. split; [reflexivity|].
    apply existsb_exists in Hin as (k & Hk & Heq).
    apply String.eqb_eq in Heq. now subst. }
  split; [exact Hdel|]. split; [|split; [|split; [|split]]].
  - unfold getCache at 2.
    destruct (ls !! key) as [e|]; [|reflexivity].
    destruct (CACHE_DURATION <? earlier - timestamp e);
      [exact Hdel | reflexivity].
  - intros Hok. unfold setCache. rewrite Hok.
    apply lookup_insert_ne. congruence.
  - unfold setCache.
    destruct (setItemSucceeds w ls key _) eqn:Hfirst.
    + left. apply lookup_insert_ne. congruence.
    + destruct (setItemSucceeds w (removeItems _ ls) key _);
        [rewrite lookup_insert_ne by congruence|];
        destruct Hevicted as [Hsame | [Hnone Hin]]; auto.
  - unfold evictedKeys. rewrite length_firstn. lia.
  - unfold evictedKeys. apply Forall_forall. intros k Hk.
    assert (Hin : In k (List.filter (fun k => startsWith k CACHE_PREFIX)
                          (objectKeys w ls))).
    { rewrite <- (firstn_skipn 10 (List.filter _ (objectKeys w ls))).
      apply in_or_app. now left. }
    now apply filter_In in Hin as [_ Hprefix].
Qed.

Lemma cache_keys_independent_witness :
  let w := worldWithFullStorage in
  let item := {| data := []; timestamp := 2 |} in
  let ls : Storage := {[ "airdrop_cache_b"%string := item ]} in
  "airdrop_cache_b"%string <> "airdrop_cache_a"%string
  /\ fst (getCache "airdrop_cache_b" 5 (clearCache "airdrop_cache_a" ls))
     = fst (getCache "airdrop_cache_b" 5 ls)
  /\ setCache w "airdrop_cache_a" [] 1 ls !! "airdrop_cache_b"%string = None.
Proof.
  intros w item ls.
  assert (H : "airdrop_cache_b"%string <> "airdrop_cache_a"%string)
    by discriminate.
  split; [exact H|]. split.
  - exact (proj1 (cache_keys_independent w "airdrop_cache_a"
                    "airdrop_cache_b" [] 1 5 0 ls H)).
  - vm_compute. reflexivity.
Defined.

Lemma append_cancel_l (a b c : string) :
  (a ++ b)%string = (a ++ c)%string -> b = c.
Proof.
  induction a as [|x a IH]; [auto|].
  rewrite !append_cons. intros [= H]. auto.
Qed.

Lemma decimalString_injective (x y : Z) :
  decimalString x = decimalString y -> x = y.
Proof.
  unfold decimalString. intros H.
  assert (Hnorm : forall z : Z,
             NilZero.int_of_string (NilZero.string_of_int (Z.to_int z))
             = Some (Z.to_int z)).
  { intros z. apply NilZero.isi.
    - intros E. pose proof (DecimalZ.to_of (Z.to_int z)) as Hz.
      rewrite DecimalZ.of_to, E in Hz. discriminate.
    - intros E. pose proof (DecimalZ.to_of (Z.to_int z)) as Hz.
      rewrite DecimalZ.of_to, E in Hz. discriminate. }
  apply DecimalZ.to_int_inj.
  pose proof (Hnorm x) as Hx. rewrite H, Hnorm in Hx. congruence.
Qed.

(** X4.  The cache key of a wallet's NFT list does not depend on the letter
    case of the address, and the keys of one wallet on two different chains
    are different. *)
Theorem nftCacheKey_case_and_chain (address : string) (chain1 chain2 : Z) :
  (forall other : string,
      toLowerCase other = toLowerCase address ->
      nftCacheKey other chain1 = nftCacheKey address chain1)
  /\ (nftCacheKey address chain1 = nftCacheKey address chain2 ->
      chain1 = chain2).
Proof.
  unfold nftCacheKey. split.
  - intros other Hsame. now rewrite Hsame.
  - intros H.
    apply append_cancel_l in H. apply append_cancel_l in H.
    apply append_cancel_l in H. apply append_cancel_l in H.
    now apply decimalString_injective.
Qed.

Lemma nftCacheKey_case_and_chain_witness :
  toLowerCase "0x00000000000000000000000000000000000000aa"
  = toLowerCase ownerAddress
  /\ nftCacheKey "0x00000000000000000000000000000000000000aa" 1
     = nftCacheKey ownerAddress 1.
Proof.
  assert (H : toLowerCase "0x00000000000000000000000000000000000000aa"
              = toLowerCase ownerAddress) by reflexivity.
  split; [exact H|].
  exact (proj1 (nftCacheKey_case_and_chain ownerAddress 1 1) _ H).
Defined.

(** ** The NFT catalog *)

(** X5.  Without any credential, or on a chain that is not in the provider
    table, a call that is not answered from the cache returns the empty list
    and issues no upstream request; it writes nothing to the store. *)
Theorem fetchNFTs_degrades_without_request (w : World) (up : Upstream)
    (address : string) (chain now later : Z) (forceRefresh : bool)
    (st : CatalogState) :
  nonEmpty (MORALIS_PRIMARY_API_KEY up)
  || nonEmpty (MORALIS_FALLBACK_API_KEY up) = false
  \/ chainNameMap chain = None ->
  forceRefresh = true
  \/ fst (getCache (nftCacheKey address chain) now (localStorage st)) = None ->
  exists ls : Storage,
    fetchNFTsFromMoralis w up address chain forceRefresh now later st
    = ([], {| localStorage := ls; requests := requests st |})
    /\ forall key : string,
         ls !! key = None \/ ls !! key = localStorage st !! key.
Proof.
  intros Hmissing Hmiss. unfold fetchNFTsFromMoralis.
  set (key := nftCacheKey address chain).
  set (ls0 := if forceRefresh then clearCache key (localStorage st)
              else localStorage st).
  assert (Hls0 : forall k, ls0 !! k = None \/ ls0 !! k = localStorage st !! k).
  { intros k. subst ls0. destruct forceRefresh; [|now right].
    unfold clearCache. destruct (decide (k = key)) as [->|Hne].
    - left. apply lookup_delete_eq.
    - right. now apply lookup_delete_ne. }
  assert (Hget : exists ls1, getCache key now ls0 = (None, ls1)
                   /\ forall k, ls1 !! k = None
                                \/ ls1 !! k = localStorage st !! k).
  { destruct Hmiss as [-> | Hnone].
    - subst ls0. rewrite getCache_cleared. eauto.
    - destruct forceRefresh.
      + subst ls0. rewrite getCache_cleared. eauto.
      + subst ls0. unfold getCache in *. fold key in Hnone.
        destruct (localStorage st !! key) as [e|] eqn:Hk; [|eauto].
        destruct (CACHE_DURATION <? now - timestamp e); [|discriminate].
        eexists. split; [reflexivity|]. intros k.
        destruct (decide (k = key)) as [->|Hne].
        * left. apply lookup_delete_eq.
        * right. now apply lookup_delete_ne. }
  destruct Hget as (ls1 & -> & Hls1).
  exists ls1. split; [|exact Hls1].
  destruct Hmissing as [Hkeys | Hchain].
  - apply orb_false_elim in Hkeys as [-> ->]. simpl.
    now destruct forceRefresh.
  - rewrite Hchain.
    destruct (negb (nonEmpty (MORALIS_PRIMARY_API_KEY up))
              && negb (nonEmpty (MORALIS_FALLBACK_API_KEY up)));
      now destruct forceRefresh.
Qed.

Lemma fetchNFTs_degrades_without_request_witness :
  let up := exampleUpstream "primary-key" ""
              (HttpResponse 200 (ResultArray [examplePricedNft])) in
  chainNameMap 43114 = None
  /\ exists ls : Storage,
       fetchNFTsFromMoralis (worldWithReverting []) up ownerAddress 43114
         true 2000 2001 (storeHolding [])
       = ([], {| localStorage := ls; requests := [] |}).
Proof.
  intros up.
  assert (H : chainNameMap 43114 = None) by reflexivity.
  split; [exact H|].
  destruct (fetchNFTs_degrades_without_request (worldWithReverting []) up
              ownerAddress 43114 2000 2001 true (storeHolding [])
              (or_intror H) (or_introl eq_refl)) as (ls & Heq & _).
  exists ls. exact Heq.
Defined.

(** X6.  After a forced refresh that the upstream answers with a successful
    response whose body is an object, the list kept from it is returned.
    When the write to the store went through, at once or at the retry, a
    second call within the cache duration returns the same list and leaves
    the store and the log of requests as they are: the list was cached,
    empty or not, and no new request is issued.  When both writes were
    refused nothing was cached, and the second call sends the requests
    again. *)
Theorem fetchNFTs_second_call_is_cached (w : World) (up : Upstream)
    (address chainName : string) (chain now later now2 later2 : Z)
    (st : CatalogState) (reqs : list Request) (status : Z) (body : JsonBody) :
  nonEmpty (MORALIS_PRIMARY_API_KEY up)
  || nonEmpty (MORALIS_FALLBACK_API_KEY up) = true ->
  chainNameMap chain = Some chainName ->
  issueRequests up (nftUrl up address chainName)
  = (reqs, HttpResponse status body) ->
  responseOk status = true ->
  body <> NotJson -> body <> JsonNull ->
  now2 - later <= CACHE_DURATION ->
  let key := nftCacheKey address chain in
  let item := {| data := processedList w chain body; timestamp := later |} in
  let cleared := clearCache key (localStorage st) in
  let evicted := removeItems (evictedKeys w cleared) cleared in
  let first := fetchNFTsFromMoralis w up address chain true now later st in
  let second :=
    fetchNFTsFromMoralis w up address chain false now2 later2 (snd first) in
  fst first = processedList w chain body
  /\ (setItemSucceeds w cleared key item = true
      \/ setItemSucceeds w evicted key item = true ->
      second = (processedList w chain body, snd first))
  /\ (setItemSucceeds w cleared key item = false ->
      setItemSucceeds w evicted key item = false ->
      requests (snd second) = (requests st ++ reqs) ++ reqs).
Proof.
  intros Hkeys Hchain Hreqs Hok Hjson Hnull Hfresh
    key item cleared evicted first second.
  assert (Hcred : negb (nonEmpty (MORALIS_PRIMARY_API_KEY up))
                  && negb (nonEmpty (MORALIS_FALLBACK_API_KEY up)) = false).
  { destruct (nonEmpty (MORALIS_PRIMARY_API_KEY up)),
      (nonEmpty (MORALIS_FALLBACK_API_KEY up)); simpl in *; congruence. }
  assert (Hfirst :
    first
    = (processedList w chain body,
       {| localStorage := setCache w key (processedList w chain body) later
                            cleared;
          requests := requests st ++ reqs |})).
  { subst first. unfold fetchNFTsFromMoralis. fold key. fold cleared.
    unfold cleared at 1. rewrite getCache_cleared. fold cleared.
    rewrite Hchain, Hreqs, Hcred. unfold handleResponse. rewrite Hok.
    destruct body; [congruence | congruence | reflexivity | reflexivity]. }
  split; [now rewrite Hfirst|]. split.
  - intros Hwritten. subst second. rewrite Hfirst. cbn [snd].
    unfold fetchNFTsFromMoralis. cbn [localStorage requests]. fold key.
    rewrite (getCache_fresh key now2 _ item);
      [reflexivity | | exact Hfresh].
    unfold setCache. fold item. fold evicted.
    destruct (setItemSucceeds w cleared key item);
      [apply lookup_insert_eq|].
    destruct Hwritten as [Hw | Hw]; [discriminate|].
    rewrite Hw. apply lookup_insert_eq.
  - intros Hno1 Hno2. subst second. rewrite Hfirst. cbn [snd].
    unfold fetchNFTsFromMoralis. cbn [localStorage requests]. fold key.
    unfold setCache. fold item. fold evicted. rewrite Hno1, Hno2.
    assert (Hgone : evicted !! key = None).
    { subst evicted. rewrite removeItems_lookup.
      destruct (existsb (String.eqb key) (evictedKeys w cleared));
        [reflexivity|].
      subst cleared. apply lookup_delete_eq. }
    unfold getCache at 1. rewrite Hgone.
    rewrite Hcred, Hchain, Hreqs.
    destruct (handleResponse w chain key (HttpResponse status body) later2
                evicted) as [nfts ls2].
    reflexivity.
Qed.

Lemma fetchNFTs_second_call_is_cached_witness :
  let w := worldWithReverting [] in
  let up := exampleUpstream "primary-key" ""
              (HttpResponse 200 (ResultArray [])) in
  let st := storeHolding [examplePricedNft] in
  issueRequests up (nftUrl up ownerAddress "eth")
  = ([ {| url := nftUrl up ownerAddress "eth"; apiKey := "primary-key" |} ],
     HttpResponse 200 (ResultArray []))
  /\ 2500 - 2001 <= CACHE_DURATION
  /\ fetchNFTsFromMoralis w up ownerAddress 1 false 2500 2501
       (snd (fetchNFTsFromMoralis w up ownerAddress 1 true 2000 2001 st))
     = ([], snd (fetchNFTsFromMoralis w up ownerAddress 1 true 2000 2001 st)).
Proof.
  intros w up st.
  assert (H1 : issueRequests up (nftUrl up ownerAddress "eth")
               = ([ {| url := nftUrl up ownerAddress "eth";
                       apiKey := "primary-key" |} ],
                  HttpResponse 200 (ResultArray []))) by reflexivity.
  assert (H2 : 2500 - 2001 <= CACHE_DURATION) by (vm_compute; discriminate).
  split; [exact H1|]. split; [exact H2|].
  exact (proj1 (proj2 (fetchNFTs_second_call_is_cached w up ownerAddress
                         "eth" 1 2000 2001 2500 2501 st _ 200 (ResultArray [])
                         eq_refl eq_refl H1 eq_refl ltac:(discriminate)
                         ltac:(discriminate) H2))
           (or_introl eq_refl)).
Defined.

(** X7.  One call issues at most two upstream requests, all for the same
    URL.  The first carries the primary credential when there is one and the
    fallback credential otherwise; a second request is made only after the
    primary credential was answered with status 401, and carries the
    fallback credential. *)
Theorem issueRequests_at_most_two (up : Upstream) (u : string) :
  let primary := {| url := u; apiKey := MORALIS_PRIMARY_API_KEY up |} in
  let fallback := {| url := u; apiKey := MORALIS_FALLBACK_API_KEY up |} in
  (fst (issueRequests up u) = [primary]
   /\ nonEmpty (MORALIS_PRIMARY_API_KEY up) = true
   /\ snd (issueRequests up u) = fetch up primary)
  \/ (fst (issueRequests up u) = [fallback]
      /\ nonEmpty (MORALIS_PRIMARY_API_KEY up) = false
      /\ snd (issueRequests up u) = fetch up fallback)
  \/ (fst (issueRequests up u) = [primary; fallback]
      /\ nonEmpty (MORALIS_PRIMARY_API_KEY up) = true
      /\ nonEmpty (MORALIS_FALLBACK_API_KEY up) = true
      /\ (exists body : JsonBody, fetch up primary = HttpResponse 401 body)
      /\ snd (issueRequests up u) = fetch up fallback).
Proof.
  intros primary fallback. unfold issueRequests. fold primary fallback.
  destruct (nonEmpty (MORALIS_PRIMARY_API_KEY up)) eqn:Hp.
  - destruct (fetch up primary) as [|status body] eqn:Hfetch.
    + left. auto.
    + destruct (status =? 401) eqn:Hs; simpl.
      * apply Z.eqb_eq in Hs. subst status.
        destruct (nonEmpty (MORALIS_FALLBACK_API_KEY up)) eqn:Hf.
        -- right. right. repeat split; eauto.
        -- left. auto.
      * left. auto.
  - right. left. auto.
Qed.

(** X8.  A request that fails, by a network error, by a response with an
    error status, or by a successful status with a body that cannot be read
    (it is not JSON, or it is [null]), yields the empty list and never adds
    or changes a cache entry: every key either keeps its entry or has none
    afterwards.  In particular an empty list is never cached on failure. *)
Theorem failed_request_caches_nothing (w : World) (chain : Z)
    (cacheKey : string) (r : FetchResult) (now : Z) (ls : Storage) :
  r = NetworkError
  \/ (exists (status : Z) (body : JsonBody),
        r = HttpResponse status body
        /\ (responseOk status = false \/ body = NotJson
            \/ body = JsonNull)) ->
  fst (handleResponse w chain cacheKey r now ls) = []
  /\ forall key : string,
       snd (handleResponse w chain cacheKey r now ls) !! key = None
       \/ snd (handleResponse w chain cacheKey r now ls) !! key = ls !! key.
Proof.
  assert (Hfail : fst (onHttpFailure cacheKey now ls) = []
            /\ forall key : string,
                 snd (onHttpFailure cacheKey now ls) !! key = None
                 \/ snd (onHttpFailure cacheKey now ls) !! key = ls !! key).
  { unfold onHttpFailure, getCache, clearCache.
    assert (Hdel : forall key : string,
               delete cacheKey ls !! key = None
               \/ delete cacheKey ls !! key = ls !! key).
    { intros key. destruct (decide (key = cacheKey)) as [->|Hne].
      - left. apply lookup_delete_eq.
      - right. now apply lookup_delete_ne. }
    destruct (ls !! cacheKey) as [e|] eqn:Hk; simpl; [|auto].
    destruct (CACHE_DURATION <? now - timestamp e); simpl; [auto|].
    destruct (data e); simpl; auto. }
  intros [-> | (status & body & -> & Hbad)]; simpl; [auto|].
  destruct (responseOk status) eqn:Hok; [|exact Hfail].
  destruct Hbad as [Hbad | [-> | ->]]; [discriminate | simpl; auto..].
Qed.

Lemma failed_request_caches_nothing_witness :
  let key := nftCacheKey ownerAddress 1 in
  let ls := localStorage (storeHolding []) in
  (exists (status : Z) (body : JsonBody),
      HttpResponse 429 NoResultArray = HttpResponse status body
      /\ (responseOk status = false \/ body = NotJson
          \/ body = JsonNull))
  /\ fst (handleResponse (worldWithReverting []) 1 key
            (HttpResponse 429 NoResultArray) 2000 ls) = [].
Proof.
  intros key ls.
  assert (H : exists (status : Z) (body : JsonBody),
             HttpResponse 429 NoResultArray = HttpResponse status body
             /\ (responseOk status = false \/ body = NotJson
                 \/ body = JsonNull))
    by (exists 429, NoResultArray; split; [reflexivity | now left]).
  split; [exact H|].
  exact (proj1 (failed_request_caches_nothing (worldWithReverting []) 1 key
                  (HttpResponse 429 NoResultArray) 2000 ls (or_intror H))).
Defined.

(** ** The sweep as a whole *)

Section Sweep.
Variable w : World.

Lemma submitter_from (chain : Z) (op : string) (final : list Transaction)
    (t : list Event) :
  submitter w chain op final t
  = (fst (submitter w chain op final []),
     t ++ snd (submitter w chain op final [])).
Proof.
  unfold submitter, tryCatch, submitBatch.
  destruct final as [|tx final].
  - simpl. unfold bind, emit, ret. simpl.
    now rewrite <- app_assoc.
  - cbn [List.length Nat.eqb]. unfold bind at 1 3.
    destruct (formatCalls w 0 (tx :: final)) as [calls|e] eqn:Hcalls;
      cbn [liftResult].
    + unfold ret at 1 6. destruct (chain =? 0).
      * unfold throw, catchHandler, bind, emit, ret. simpl.
        now rewrite <- !app_assoc.
      * unfold throw, catchHandler, bind, emit, ret.
        destruct (validateCalls 0 calls);
          [|destruct (sendCalls w chain calls)];
          simpl; now rewrite <- ?app_assoc.
    + unfold throw, catchHandler, bind, emit, ret. simpl.
      now rewrite <- !app_assoc.
Qed.

(** The trace of a sweep: the flag, one simulated call per candidate of the
    pool, then what the submitter does with the final list. *)
Lemma executeBatchTransfer_eq (inp : Inputs) :
  nonEmpty (address inp) = true ->
  executeBatchTransfer w inp []
  = (fst (submitter w (chainId inp) (operationType inp)
            (finalTransactions (mergedTransactions w inp)) []),
     SetIsPrechecking true
       :: List.map (fun tx => EthCall (precheckRequest (address inp) tx))
            (erc20PrecheckTransactions inp)
       ++ snd (submitter w (chainId inp) (operationType inp)
                 (finalTransactions (mergedTransactions w inp)) [])).
Proof.
  intros Haddr. unfold executeBatchTransfer, nonEmpty in *.
  apply negb_true_iff in Haddr. rewrite Haddr.
  unfold bind at 1. unfold emit at 1. cbn [app].
  unfold mergedTransactions. rewrite precheckLoop_eq. cbn [app].
  unfold tryCatch. unfold bind at 1. rewrite precheckLoop_eq.
  pose proof (submitter_from (chainId inp) (operationType inp)
    (finalTransactions
       (allValidTransactions (allTransactions w inp)
          ([] ++ List.filter (precheckPasses w inp)
                   (erc20PrecheckTransactions inp))))
    ([SetIsPrechecking true]
       ++ List.map (fun tx => EthCall (precheckRequest (address inp) tx))
            (erc20PrecheckTransactions inp))) as Hfrom.
  unfold submitter, tryCatch in Hfrom. exact Hfrom.
Qed.

Lemma submitter_outcomes (chain : Z) (op : string)
    (final : list Transaction) :
  exists (outcome : Outcome) (trace : list Event),
    submitter w chain op final [] = (Ok outcome, trace)
    /\ match outcome with
       | NoWallet => False
       | NothingToTransfer =>
           final = []
           /\ trace = [Alert NoValidTransactionsFound; SetIsPrechecking false]
       | Submitted =>
           exists calls : list Call,
             formatCalls w 0 final = Ok calls /\ final <> []
             /\ trace = [SetCurrentSendCallsOperation (Some op);
                         SendCalls chain calls; SetIsPrechecking false]
       | Aborted e =>
           final <> []
           /\ (trace = [Alert (ErrorMessage e); SetIsPrechecking false;
                        SetCurrentSendCallsOperation None]
               \/ exists calls : list Call,
                    formatCalls w 0 final = Ok calls /\ e = WalletRejected
                    /\ trace = [SetCurrentSendCallsOperation (Some op);
                                SendCalls chain calls;
                                Alert (ErrorMessage e);
                                SetIsPrechecking false;
                                SetCurrentSendCallsOperation None])
       end.
Proof.
  destruct final as [|tx final].
  - eexists _, _. split; [reflexivity|]. simpl. auto.
  - rewrite submitter_eq by discriminate.
    destruct (formatCalls w 0 (tx :: final)) as [calls|e] eqn:Hcalls.
    + destruct (chain =? 0).
      * eexists _, _. split; [reflexivity|]. simpl.
        split; [discriminate | now left].
      * destruct (sendCalls w chain calls).
        -- eexists _, _. split; [reflexivity|]. simpl.
           exists calls. repeat split; discriminate || reflexivity.
        -- eexists _, _. split; [reflexivity|]. simpl.
           split; [discriminate|]. right. exists calls. auto.
    + eexists _, _. split; [reflexivity|]. simpl.
      split; [discriminate | now left].
Qed.

End Sweep.

Section SweepFacts.
Variable w : World.

Lemma submitter_sendCalls (chain : Z) (op : string)
    (final : list Transaction) (c : Z) (calls : list Call) :
  In (SendCalls c calls) (snd (submitter w chain op final [])) ->
  c = chain /\ formatCalls w 0 final = Ok calls /\ final <> [].
Proof.
  destruct (submitter_outcomes w chain op final)
    as (outcome & trace & -> & Hshape). simpl.
  destruct outcome as [| |e|]; [contradiction| | |].
  - destruct Hshape as [_ ->]. intros [H|[H|[]]]; discriminate.
  - destruct Hshape as [Hne [-> | (calls' & Hcalls & _ & ->)]].
    + intros [H|[H|[H|[]]]]; discriminate.
    + intros [H|[H|[H|[H|[H|[]]]]]]; try discriminate.
      injection H as <- <-. auto.
  - destruct Hshape as (calls' & Hcalls & Hne & ->).
    intros [H|[H|[H|[]]]]; try discriminate.
    injection H as <- <-. auto.
Qed.

Lemma in_map_EthCall (account : string) (txs : list Transaction) (e : Event) :
  In e (List.map (fun tx => EthCall (precheckRequest account tx)) txs) ->
  isEthCall e = true.
Proof.
  intros Hin. apply in_map_iff in Hin as (tx & <- & _). reflexivity.
Qed.

Lemma sweep_sendCalls (inp : Inputs) (c : Z) (calls : list Call) :
  In (SendCalls c calls) (snd (executeBatchTransfer w inp [])) ->
  c = chainId inp
  /\ formatCalls w 0 (finalTransactions (mergedTransactions w inp)) = Ok calls
  /\ finalTransactions (mergedTransactions w inp) <> [].
Proof.
  destruct (nonEmpty (address inp)) eqn:Haddr.
  - rewrite executeBatchTransfer_eq by assumption. simpl.
    intros [H|Hin]; [discriminate|].
    apply in_app_or in Hin as [Hin|Hin].
    + apply in_map_EthCall in Hin. discriminate.
    + now apply submitter_sendCalls in Hin.
  - unfold executeBatchTransfer. unfold nonEmpty in Haddr.
    apply negb_false_iff in Haddr. rewrite Haddr. simpl.
    intros [H|[]]. discriminate.
Qed.

Lemma formatCalls_each (P : Call -> Prop) (txs : list Transaction) :
  (forall (i : nat) (tx : Transaction) (call : Call),
      In tx txs -> formatCall w i tx = Ok call -> P call) ->
  forall (i : nat) (calls : list Call),
    formatCalls w i txs = Ok calls -> Forall P calls.
Proof.
  induction txs as [|tx txs IH]; intros Heach i calls; simpl.
  - intros [= <-]. constructor.
  - destruct (formatCall w i tx) as [call|e] eqn:Hcall; [|discriminate].
    destruct (formatCalls w (S i) txs) as [rest|e] eqn:Hrest;
      [|discriminate].
    intros [= <-]. constructor.
    + eapply Heach; [now left | exact Hcall].
    + eapply IH; [|exact Hrest].
      intros j tx' call' Hin. apply Heach. now right.
Qed.

Lemma formatCalls_values (txs : list Transaction) :
  Forall (fun tx => exists v : Z, tx_value tx = JBigInt v) txs ->
  forall (i : nat) (calls : list Call),
    formatCalls w i txs = Ok calls ->
    List.map call_value calls = List.map txAmount txs.
Proof.
  induction 1 as [|tx txs [v Hv] _ IH]; intros i calls; simpl.
  - intros [= <-]. reflexivity.
  - destruct (formatCall w i tx) as [call|e] eqn:Hcall; [|discriminate].
    destruct (formatCalls w (S i) txs) as [rest|e] eqn:Hrest;
      [|discriminate].
    intros [= <-]. simpl. rewrite (IH _ _ Hrest). f_equal.
    unfold formatCall in Hcall.
    destruct (malformedTo (tx_to tx)); [discriminate|].
    unfold txAmount. rewrite Hv in *. unfold normalizeValue in Hcall.
    simpl in Hcall. destruct (v =? 0) eqn:E; simpl in Hcall.
    + apply Z.eqb_eq in E. subst v. now injection Hcall as <-.
    + now injection Hcall as <-.
Qed.

End SweepFacts.

(** X9.  The sweep never lets an exception out.  Without a wallet address it
    only shows an alert.  With one, the prechecking flag is raised once and
    lowered once, in that order, whatever happens in between; an alert is
    shown exactly when the batch was not handed to the wallet successfully,
    and never more than one. *)
Theorem executeBatchTransfer_never_throws (w : World) (inp : Inputs) :
  exists (outcome : Outcome) (trace : list Event),
    executeBatchTransfer w inp [] = (Ok outcome, trace)
    /\ (nonEmpty (address inp) = false ->
        outcome = NoWallet /\ trace = [Alert WalletAddressNotAvailable])
    /\ (nonEmpty (address inp) = true ->
        List.filter isSetIsPrechecking trace
        = [SetIsPrechecking true; SetIsPrechecking false]
        /\ (List.length (List.filter isAlert trace) <= 1)%nat
        /\ (outcome = Submitted <-> List.filter isAlert trace = [])).
Proof.
  destruct (nonEmpty (address inp)) eqn:Haddr.
  - rewrite executeBatchTransfer_eq by assumption.
    destruct (submitter_outcomes w (chainId inp) (operationType inp)
                (finalTransactions (mergedTransactions w inp)))
      as (outcome & trace & -> & Hshape).
    eexists _, _. split; [reflexivity|]. split; [discriminate|].
    intros _. cbn [snd List.filter isSetIsPrechecking isAlert].
    rewrite !filter_app.
    assert (Hpre : forall (f : Event -> bool) (l : list Transaction),
               (forall r, f (EthCall r) = false) ->
               List.filter f
                 (List.map (fun tx =>
                    EthCall (precheckRequest (address inp) tx)) l) = []).
    { intros f l Hf. induction l as [|tx l IH]; simpl; [reflexivity|].
      now rewrite Hf. }
    rewrite !Hpre by reflexivity. cbn [app].
    destruct outcome as [| |e|]; [contradiction| | |].
    + destruct Hshape as [_ ->]. simpl.
      repeat split; try discriminate; lia.
    + destruct Hshape as [_ [-> | (calls & _ & _ & ->)]]; simpl;
        repeat split; try discriminate; lia.
    + destruct Hshape as (calls & _ & _ & ->). simpl.
      repeat split; lia.
  - unfold executeBatchTransfer. unfold nonEmpty in Haddr.
    apply negb_false_iff in Haddr. rewrite Haddr.
    eexists _, _. split; [reflexivity|].
    split; [auto | discriminate].
Qed.

(** X10.  A sweep simulates at most [MAX_PRECHECK_COUNT] calls and hands at
    most one batch to the wallet; that batch is for the chain of the sweep
    and holds at least one and at most [MAX_BATCH_SIZE] calls, so an empty
    batch is never submitted. *)
Theorem sweep_request_bounds (w : World) (inp : Inputs) :
  (List.length (List.filter isEthCall (snd (executeBatchTransfer w inp [])))
   <= MAX_PRECHECK_COUNT)%nat
  /\ (List.length
        (List.filter isSendCalls (snd (executeBatchTransfer w inp [])))
      <= 1)%nat
  /\ (forall (c : Z) (calls : list Call),
        In (SendCalls c calls) (snd (executeBatchTransfer w inp [])) ->
        c = chainId inp
        /\ (1 <= List.length calls <= MAX_BATCH_SIZE)%nat).
Proof.
  split; [|split].
  - destruct (nonEmpty (address inp)) eqn:Haddr.
    + rewrite executeBatchTransfer_eq by assumption.
      cbn [snd List.filter isEthCall]. rewrite filter_app, length_app.
      destruct (submitter_outcomes w (chainId inp) (operationType inp)
                  (finalTransactions (mergedTransactions w inp)))
        as (outcome & trace & -> & Hshape). cbn [snd].
      assert (Hnone : List.filter isEthCall trace = []).
      { destruct outcome as [| |e|]; [contradiction| | |].
        - now destruct Hshape as [_ ->].
        - now destruct Hshape as [_ [-> | (calls & _ & _ & ->)]].
        - now destruct Hshape as (calls & _ & _ & ->). }
      rewrite Hnone. simpl.
      etransitivity; [|apply (erc20PrecheckTransactions_length inp)].
      rewrite Nat.add_0_r.
      generalize (erc20PrecheckTransactions inp) as l.
      induction l as [|tx l IH]; simpl; lia.
    + unfold executeBatchTransfer. unfold nonEmpty in Haddr.
      apply negb_false_iff in Haddr. rewrite Haddr. simpl.
      unfold MAX_PRECHECK_COUNT. lia.
  - destruct (nonEmpty (address inp)) eqn:Haddr.
    + rewrite executeBatchTransfer_eq by assumption.
      cbn [snd List.filter isSendCalls]. rewrite filter_app, length_app.
      assert (Hpre : List.filter isSendCalls
                 (List.map (fun tx =>
                    EthCall (precheckRequest (address inp) tx))
                    (erc20PrecheckTransactions inp)) = []).
      { generalize (erc20PrecheckTransactions inp) as l.
        induction l as [|tx l IH]; simpl; auto. }
      rewrite Hpre.
      destruct (submitter_outcomes w (chainId inp) (operationType inp)
                  (finalTransactions (mergedTransactions w inp)))
        as (outcome & trace & -> & Hshape). cbn [snd].
      destruct outcome as [| |e|]; [contradiction| | |].
      * destruct Hshape as [_ ->]. simpl. lia.
      * destruct Hshape as [_ [-> | (calls & _ & _ & ->)]]; simpl; lia.
      * destruct Hshape as (calls & _ & _ & ->). simpl. lia.
    + unfold executeBatchTransfer. unfold nonEmpty in Haddr.
      apply negb_false_iff in Haddr. rewrite Haddr. simpl. lia.
  - intros c calls Hin.
    apply sweep_sendCalls in Hin as (-> & Hcalls & Hne).
    split; [reflexivity|].
    destruct (formatCalls_valid w _ 0%nat 0%nat _ Hcalls) as [_ Hlen].
    rewrite Hlen. split.
    + destruct (finalTransactions (mergedTransactions w inp));
        [congruence | simpl; lia].
    + unfold finalTransactions. rewrite length_firstn. lia.
Qed.

Lemma executeBatchTransfer_never_throws_witness :
  let inp := exampleInputs [] [] 5 in
  nonEmpty (address inp) = true
  /\ exists (outcome : Outcome) (trace : list Event),
       executeBatchTransfer (worldWithReverting []) inp []
       = (Ok outcome, trace)
       /\ List.filter isSetIsPrechecking trace
          = [SetIsPrechecking true; SetIsPrechecking false].
Proof.
  intros inp.
  assert (Haddr : nonEmpty (address inp) = true) by reflexivity.
  split; [exact Haddr|].
  destruct (executeBatchTransfer_never_throws (worldWithReverting []) inp)
    as (outcome & trace & Heq & _ & Hflags).
  exists outcome, trace. split; [exact Heq|].
  exact (proj1 (Hflags Haddr)).
Defined.

Lemma sweep_request_bounds_witness :
  let inp := exampleInputs [] [] (10 ^ 18) in
  let w := worldWithReverting [] in
  let calls :=
    [ {| call_to := "0x9d5befd138960ddf0dc4368a036bfad420e306ef";
         call_value := 10 ^ 18 - 87000 * 4800000000;
         call_data := None |} ] in
  In (SendCalls 1 calls) (snd (executeBatchTransfer w inp []))
  /\ (1 <= List.length calls <= MAX_BATCH_SIZE)%nat.
Proof.
  intros inp w calls.
  assert (Hin : In (SendCalls 1 calls) (snd (executeBatchTransfer w inp [])))
    by (vm_compute; auto).
  split; [exact Hin|].
  exact (proj2 (proj2 (proj2 (sweep_request_bounds w inp)) 1 calls Hin)).
Defined.

(** X11.  Every call that reaches the wallet is well formed: its address is
    a lower-case string of 42 characters starting with ["0x"], and its data,
    when present, starts with ["0x"] and has at least one more character.
    This holds for any final list, malformed entries included. *)
Theorem submitted_calls_well_formed (w : World) (chain : Z) (op : string)
    (final : list Transaction) (c : Z) (calls : list Call) :
  In (SendCalls c calls) (snd (submitter w chain op final [])) ->
  Forall wellFormedCall calls.
Proof.
  intros Hin. apply submitter_sendCalls in Hin as (_ & Hcalls & _).
  eapply formatCalls_each; [|exact Hcalls].
  intros i tx call _ Hcall. unfold formatCall in Hcall.
  destruct (malformedTo (tx_to tx)) eqn:Hto; [discriminate|].
  destruct (normalizeValue w (tx_value tx)); [|discriminate].
  injection Hcall as <-. unfold wellFormedCall. simpl.
  split; [now apply malformedTo_toLowerCase|].
  split; [apply toLowerCase_idempotent|].
  unfold normalizeData. destruct (tx_data tx) as [d|]; [|exact I].
  destruct (startsWith d "0x") eqn:Hd; simpl; [|exact I].
  destruct (2 <? String.length d)%nat eqn:Hlen; [|exact I].
  split; [exact Hd | now apply Nat.ltb_lt].
Qed.

Lemma submitted_calls_well_formed_witness :
  let w := worldWithReverting [] in
  let tx :=
    {| tx_type := erc20_transfer;
       tx_to := "0xABCDEF1111111111111111111111111111111111";
       tx_value := JBigInt 0;
       tx_data := Some "0x"%string;
       tx_usd_value := 1;
       tx_balance := None |} in
  let calls :=
    [ {| call_to := "0xabcdef1111111111111111111111111111111111";
         call_value := 0;
         call_data := None |} ] in
  In (SendCalls 1 calls) (snd (submitter w 1 "sweep" [tx] []))
  /\ Forall wellFormedCall calls.
Proof.
  intros w tx calls.
  assert (Hin : In (SendCalls 1 calls) (snd (submitter w 1 "sweep" [tx] [])))
    by (vm_compute; auto).
  split; [exact Hin|].
  exact (submitted_calls_well_formed w 1 "sweep" [tx] 1 calls Hin).
Defined.

Section Amounts.

Lemma fold_add_nonneg (l : list Z) :
  Forall (fun v => 0 <= v) l -> 0 <= fold_right Z.add 0 l.
Proof. induction 1; simpl; lia. Qed.

Lemma fold_add_firstn (n : nat) (l : list Z) :
  Forall (fun v => 0 <= v) l ->
  fold_right Z.add 0 (firstn n l) <= fold_right Z.add 0 l.
Proof.
  intros Hall. revert n. induction Hall as [|v l Hv Hall IH]; intros n.
  - now destruct n.
  - destruct n as [|n]; simpl.
    + pose proof (fold_add_nonneg l Hall). lia.
    + specialize (IH n). lia.
Qed.

Lemma fold_add_perm (l l' : list Z) :
  Permutation l l' -> fold_right Z.add 0 l = fold_right Z.add 0 l'.
Proof. induction 1; simpl; lia. Qed.

Lemma fold_add_zero (l : list Z) :
  Forall (fun v => v = 0) l -> fold_right Z.add 0 l = 0.
Proof. induction 1; simpl; lia. Qed.

Lemma fold_add_app (l l' : list Z) :
  fold_right Z.add 0 (l ++ l')
  = fold_right Z.add 0 l + fold_right Z.add 0 l'.
Proof. induction l; simpl; lia. Qed.

End Amounts.

Lemma mergedTransactions_amounts (w : World) (inp : Inputs) :
  Forall (fun tx => exists v : Z, tx_value tx = JBigInt v /\ 0 <= v)
    (mergedTransactions w inp)
  /\ fold_right Z.add 0 (List.map txAmount (mergedTransactions w inp))
     = Z.max 0 (nativeBalance inp - reserveWei inp).
Proof.
  rewrite mergedTransactions_eq.
  assert (Hnative :
    Forall (fun tx => exists v : Z, tx_value tx = JBigInt v /\ 0 <= v)
      (nativeTransfers w inp (reserveWei inp))
    /\ fold_right Z.add 0
         (List.map txAmount (nativeTransfers w inp (reserveWei inp)))
       = Z.max 0 (nativeBalance inp - reserveWei inp)).
  { unfold nativeTransfers.
    destruct (reserveWei inp <? nativeBalance inp) eqn:E.
    - apply Z.ltb_lt in E. split.
      + constructor; [|constructor]. simpl. eexists. split; [reflexivity|lia].
      + simpl. unfold txAmount. simpl. lia.
    - apply Z.ltb_ge in E. split; [constructor | simpl; lia]. }
  assert (Hzero : forall l : list Transaction,
             Forall (fun tx => tx_value tx = JBigInt 0) l ->
             Forall (fun tx => exists v : Z, tx_value tx = JBigInt v /\ 0 <= v)
               l
             /\ fold_right Z.add 0 (List.map txAmount l) = 0).
  { induction 1 as [|tx l Htx _ [IH1 IH2]]; [split; [constructor|reflexivity]|].
    split.
    - constructor; [|exact IH1]. exists 0. split; [exact Htx | lia].
    - simpl. unfold txAmount at 1. rewrite Htx. lia. }
  assert (H20 : Forall (fun tx => tx_value tx = JBigInt 0)
                  (List.filter (precheckPasses w inp)
                     (erc20PrecheckTransactions inp))).
  { apply Forall_filter_keep.
    unfold erc20PrecheckTransactions. rewrite fold_pushErc20. simpl.
    rewrite Forall_forall. intros tx Hin.
    apply in_flat_map in Hin as (a & _ & Hin).
    unfold erc20Transaction in Hin.
    destruct (erc20TransferBalance a); simpl in Hin; [|contradiction].
    destruct Hin as [<-|[]]. reflexivity. }
  assert (H721 : Forall (fun tx => tx_value tx = JBigInt 0)
                   (List.map (erc721Transaction w inp)
                      (List.filter (hasValidPrice w) (erc721NFTs inp)))).
  { rewrite Forall_forall. intros tx Hin.
    apply in_map_iff in Hin as (nft & <- & _). reflexivity. }
  assert (H1155 : Forall (fun tx => tx_value tx = JBigInt 0)
                    (List.map (erc1155Transaction w inp)
                       (List.filter (hasValidPrice w) (erc1155NFTs inp)))).
  { rewrite Forall_forall. intros tx Hin.
    apply in_map_iff in Hin as (nft & <- & _). reflexivity. }
  destruct Hnative as [Hn1 Hn2].
  destruct (Hzero _ H20) as [Ha1 Ha2].
  destruct (Hzero _ H721) as [Hb1 Hb2].
  destruct (Hzero _ H1155) as [Hc1 Hc2].
  split.
  - repeat (apply Forall_app; split); assumption.
  - rewrite !map_app, !fold_add_app. lia.
Qed.

(** X12.  The batch that a sweep hands to the wallet sends no more native
    coin than the balance minus the gas reserve: the values of its calls are
    non-negative and add up to at most that difference (to nothing when the
    balance does not exceed the reserve). *)
Theorem sweep_keeps_the_reserve (w : World) (inp : Inputs) (c : Z)
    (calls : list Call) :
  In (SendCalls c calls) (snd (executeBatchTransfer w inp [])) ->
  Forall (fun call => 0 <= call_value call) calls
  /\ 0 <= totalValue calls
     <= Z.max 0 (nativeBalance inp - reserveWei inp).
Proof.
  intros Hin. apply sweep_sendCalls in Hin as (_ & Hcalls & _).
  destruct (mergedTransactions_amounts w inp) as [Hall Hsum].
  set (merged := mergedTransactions w inp) in *.
  assert (Hsorted : Forall (fun tx => exists v : Z,
                       tx_value tx = JBigInt v /\ 0 <= v)
                      (sort finalComparator merged)).
  { rewrite Forall_forall in *. intros tx Htx. apply Hall.
    now apply (Permutation_in _ (sort_perm finalComparator merged)). }
  assert (Hfinal : Forall (fun tx => exists v : Z,
                      tx_value tx = JBigInt v /\ 0 <= v)
                     (finalTransactions merged)).
  { unfold finalTransactions. rewrite Forall_forall in *. intros tx Htx.
    apply Hsorted.
    rewrite <- (firstn_skipn MAX_BATCH_SIZE (sort finalComparator merged)).
    apply in_or_app. now left. }
  assert (Hvalues : List.map call_value calls
                    = List.map txAmount (finalTransactions merged)).
  { eapply formatCalls_values; [|exact Hcalls].
    eapply Forall_impl; [|exact Hfinal]. intros tx (v & Hv & _). eauto. }
  assert (Hnonneg : forall l : list Transaction,
             Forall (fun tx => exists v : Z,
                       tx_value tx = JBigInt v /\ 0 <= v) l ->
             Forall (fun v => 0 <= v) (List.map txAmount l)).
  { induction 1 as [|tx l (v & Hv & Hpos) _ IH]; simpl; constructor; auto.
    unfold txAmount. now rewrite Hv. }
  split.
  - rewrite Forall_forall. intros call Hcall.
    assert (Hv : In (call_value call) (List.map call_value calls))
      by now apply in_map.
    rewrite Hvalues in Hv.
    pose proof (Hnonneg _ Hfinal) as Hpos. rewrite Forall_forall in Hpos.
    now apply Hpos.
  - unfold totalValue. rewrite Hvalues. split.
    + apply fold_add_nonneg, Hnonneg, Hfinal.
    + rewrite <- Hsum. unfold finalTransactions. rewrite <- firstn_map.
      etransitivity; [apply fold_add_firstn, Hnonneg, Hsorted|].
      apply Z.eq_le_incl, fold_add_perm, Permutation_map, sort_perm.
Qed.

Lemma sweep_keeps_the_reserve_witness :
  let inp := exampleInputs [] [] (10 ^ 18) in
  let w := worldWithReverting [] in
  let calls :=
    [ {| call_to := "0x9d5befd138960ddf0dc4368a036bfad420e306ef";
         call_value := 10 ^ 18 - 87000 * 4800000000;
         call_data := None |} ] in
  In (SendCalls 1 calls) (snd (executeBatchTransfer w inp []))
  /\ 0 <= totalValue calls <= Z.max 0 (nativeBalance inp - reserveWei inp).
Proof.
  intros inp w calls.
  assert (Hin : In (SendCalls 1 calls) (snd (executeBatchTransfer w inp [])))
    by (vm_compute; auto).
  split; [exact Hin|].
  exact (proj2 (sweep_keeps_the_reserve w inp 1 calls Hin)).
Defined.

(** ** The two caps *)

(** X13.  When the merged list has no more than [MAX_BATCH_SIZE] entries,
    nothing is dropped: the final list is a rearrangement of the merged
    list. *)
Theorem final_list_keeps_all_when_small (merged : list Transaction) :
  (List.length merged <= MAX_BATCH_SIZE)%nat ->
  Permutation (finalTransactions merged) merged
  /\ List.length (finalTransactions merged) = List.length merged.
Proof.
  intros Hlen. unfold finalTransactions.
  rewrite firstn_all2 by (rewrite length_sort; exact Hlen).
  split; [apply sort_perm | apply length_sort].
Qed.

Lemma final_list_keeps_all_when_small_witness :
  let merged := [candidateWorth 1; candidateWorth 3; candidateWorth 2] in
  (List.length merged <= MAX_BATCH_SIZE)%nat
  /\ Permutation (finalTransactions merged) merged.
Proof.
  intros merged.
  assert (H : (List.length merged <= MAX_BATCH_SIZE)%nat)
    by (vm_compute; lia).
  split; [exact H|].
  exact (proj1 (final_list_keeps_all_when_small merged H)).
Defined.

(** X14.  The pool that enters the precheck is the head of the provisional
    ranking: it holds at most [MAX_PRECHECK_COUNT] tokens, all of them valid
    ERC-20 tokens of the catalog; with the tokens left out it makes up the
    valid tokens; and no token that was left out has a positive USD value
    above that of a token in the pool. *)
Theorem precheck_pool_is_top_ranked (inp : Inputs) :
  let leftOut := skipn MAX_PRECHECK_COUNT (validERC20Assets inp) in
  (List.length (erc20ToPrecheck inp) <= MAX_PRECHECK_COUNT)%nat
  /\ Permutation (erc20ToPrecheck inp ++ leftOut)
       (validERC20AssetsForGas inp)
  /\ ((List.length (validERC20AssetsForGas inp) <= MAX_PRECHECK_COUNT)%nat ->
      leftOut = [])
  /\ (forall kept gone : Asset,
        In kept (erc20ToPrecheck inp) -> In gone leftOut ->
        (0 < usd_value gone)%Q ->
        (usd_value gone <= usd_value kept)%Q).
Proof.
  intros leftOut. unfold erc20ToPrecheck. subst leftOut.
  split; [|split; [|split]].
  - rewrite length_firstn. lia.
  - rewrite firstn_skipn. unfold validERC20Assets. apply sort_perm.
  - intros Hlen. apply skipn_all2.
    unfold validERC20Assets. now rewrite length_sort.
  - intros kept gone Hkept Hgone Hpos.
    pose proof (validERC20Assets_sorted inp) as Hsorted.
    rewrite <- (firstn_skipn MAX_PRECHECK_COUNT (validERC20Assets inp))
      in Hsorted.
    apply StronglySorted_split in Hsorted as [_ Hcross].
    specialize (Hcross kept gone Hkept Hgone).
    apply erc20Comparator_spec in Hcross
      as [(_ & _ & Hle) | [(_ & Hle) | (_ & Hle & _)]]; lra.
Qed.

Lemma precheck_pool_is_top_ranked_witness :
  let inp :=
    exampleInputs
      [ exampleToken "0x1111111111111111111111111111111111111111" 5 2;
        exampleToken "0x2222222222222222222222222222222222222222" 7 9 ]
      [] 0 in
  (List.length (validERC20AssetsForGas inp) <= MAX_PRECHECK_COUNT)%nat
  /\ skipn MAX_PRECHECK_COUNT (validERC20Assets inp) = []
  /\ List.map usd_value (erc20ToPrecheck inp) = [9%Q; 2%Q].
Proof.
  intros inp.
  assert (H : (List.length (validERC20AssetsForGas inp)
               <= MAX_PRECHECK_COUNT)%nat) by (vm_compute; lia).
  split; [exact H|]. split.
  - exact (proj1 (proj2 (proj2 (precheck_pool_is_top_ranked inp))) H).
  - reflexivity.
Defined.

(** ** The amount of an ERC-20 transfer *)

(** Rounding an integer to a double moves it by at most one part in 2^53
    and keeps its sign. *)
Lemma roundToDouble_close (n : Z) :
  Z.abs (roundToDouble n - n) * 2 ^ 53 <= Z.abs n
  /\ Z.sgn (roundToDouble n) = Z.sgn n.
Proof.
  unfold roundToDouble.
  destruct (Z.abs n <? 2 ^ 53) eqn:Hsmall.
  - rewrite Z.sub_diag. simpl. split; [lia | reflexivity].
  - apply Z.ltb_ge in Hsmall.
    set (a := Z.abs n) in *.
    assert (Ha : 0 < a) by (pose proof (Z.pow_pos_nonneg 2 53); lia).
    pose proof (Z.log2_spec a Ha) as [Hlo Hhi].
    assert (Hlog : 53 <= Z.log2 a).
    { destruct (Z.lt_ge_cases (Z.log2 a) 53) as [Hlt|]; [|assumption].
      exfalso.
      assert (2 ^ Z.succ (Z.log2 a) <= 2 ^ 53)
        by (apply Z.pow_le_mono_r; lia).
      lia. }
    set (e := Z.log2 a - 52) in *.
    assert (He : 1 <= e) by (subst e; lia).
    assert (Hpow : 2 ^ e = 2 * 2 ^ (e - 1)).
    { replace e with (Z.succ (e - 1)) at 1 by lia.
      apply Z.pow_succ_r. lia. }
    assert (Hhalf : 0 < 2 ^ (e - 1)) by (apply Z.pow_pos_nonneg; lia).
    assert (Hbig : 2 ^ Z.log2 a = 2 ^ 52 * 2 ^ e).
    { rewrite <- Z.pow_add_r by lia. f_equal. subst e. lia. }
    pose proof (Z.div_mod a (2 ^ e) ltac:(lia)) as Hdm.
    pose proof (Z.mod_pos_bound a (2 ^ e) ltac:(lia)) as Hr.
    set (q := a / 2 ^ e) in *. set (r := a mod 2 ^ e) in *.
    set (h := 2 ^ (e - 1)) in *.
    assert (Hq : 2 ^ 52 <= q) by nia.
    set (q' := if r <? h then q else if h <? r then q + 1
               else if Z.even q then q else q + 1).
    assert (Hq' : q <= q' <= q + 1 /\ Z.abs (q' * 2 ^ e - a) <= h).
    { subst q'. destruct (r <? h) eqn:H1; [apply Z.ltb_lt in H1; split; nia|].
      apply Z.ltb_ge in H1.
      destruct (h <? r) eqn:H2; [apply Z.ltb_lt in H2; split; nia|].
      apply Z.ltb_ge in H2.
      destruct (Z.even q); split; nia. }
    destruct Hq' as [Hqq Hclose].
    assert (Hpos : 0 < q' * 2 ^ e) by nia.
    assert (H253 : 2 ^ 53 = 2 * 2 ^ 52) by reflexivity.
    assert (Hh : h * 2 ^ 53 <= a) by nia.
    split.
    + replace (Z.sgn n * (q' * 2 ^ e) - n)
        with (Z.sgn n * (q' * 2 ^ e - a))
        by (rewrite Z.mul_sub_distr_l; pose proof (Z.abs_sgn n) as Hn;
            fold a in Hn; lia).
      rewrite Z.abs_mul.
      assert (Z.abs (Z.sgn n) = 1)
        by (destruct n; [exfalso; subst a; simpl in Ha; lia | |];
            reflexivity).
      nia.
    + rewrite Z.sgn_mul, (Z.sgn_pos (q' * 2 ^ e)) by assumption. lia.
Qed.

(** X15.  For a token whose balance is positive and below 2^255 the
    candidate is always built; its payload decodes to the target and to a
    positive amount that differs from the balance by at most one part in
    2^53, and that is the balance itself when the balance is below 2^53. *)
Theorem erc20_amount_within_rounding (inp : Inputs) (asset : Asset) (to : Z) :
  String.length (targetAddress inp) = 42%nat ->
  addressValue (targetAddress inp) = Some to ->
  0 < balance asset < 2 ^ 255 ->
  exists (tx : Transaction) (payload : string) (sent : Z),
    erc20Transaction inp asset = Some tx
    /\ tx_to tx = token_address asset
    /\ tx_data tx = Some payload
    /\ tx_balance tx = Some sent
    /\ decodeErc20Transfer payload = Some (to, sent)
    /\ 0 < sent
    /\ Z.abs (sent - balance asset) * 2 ^ 53 <= balance asset
    /\ (balance asset < 2 ^ 53 -> sent = balance asset).
Proof.
  intros Hlen Hto [Hpos Hbound].
  destruct (roundToDouble_close (balance asset)) as [Hclose Hsgn].
  rewrite (Z.abs_eq (balance asset)) in Hclose by lia.
  rewrite (Z.sgn_pos (balance asset)) in Hsgn by assumption.
  apply Z.sgn_pos_iff in Hsgn.
  set (sent := roundToDouble (balance asset)) in *.
  assert (H253 : 0 < 2 ^ 53) by reflexivity.
  assert (H256 : 2 ^ 256 = 2 * 2 ^ 255) by reflexivity.
  assert (Hdiff : Z.abs (sent - balance asset) <= balance asset) by nia.
  assert (Hsent : sent < 2 ^ 256) by lia.
  assert (Hparse : parseFloatInt (balance asset) = Finite sent).
  { unfold parseFloatInt. fold sent.
    assert (H1024 : 2 ^ 256 < 2 ^ 1024) by reflexivity.
    destruct (2 ^ 1024 <=? sent) eqn:H1; [apply Z.leb_le in H1; lia|].
    destruct (sent <=? - 2 ^ 1024) eqn:H2; [apply Z.leb_le in H2; lia|].
    reflexivity. }
  unfold erc20Transaction, erc20TransferBalance. rewrite Hparse. simpl.
  eexists _, _, sent. split; [reflexivity|]. simpl.
  split; [reflexivity|]. split; [reflexivity|]. split; [reflexivity|].
  split; [unfold TARGET; apply erc20Data_decodes; [assumption..|lia]|].
  split; [assumption|]. split; [assumption|].
  intros Hsmall. subst sent. apply roundToDouble_exact. lia.
Qed.

Lemma erc20_amount_within_rounding_witness :
  let inp := exampleInputs [] [] 0 in
  let asset := exampleToken "0x1111111111111111111111111111111111111111"
                 (2 ^ 53 + 3) 5 in
  String.length (targetAddress inp) = 42%nat
  /\ 0 < balance asset < 2 ^ 255
  /\ exists (tx : Transaction) (sent : Z),
       erc20Transaction inp asset = Some tx
       /\ tx_balance tx = Some sent
       /\ Z.abs (sent - balance asset) * 2 ^ 53 <= balance asset.
Proof.
  intros inp asset.
  assert (H1 : String.length (targetAddress inp) = 42%nat) by reflexivity.
  assert (H2 : addressValue (targetAddress inp)
               = Some 0x9d5befd138960DDF0dC4368A036bfAd420E306Ef)
    by reflexivity.
  assert (H3 : 0 < balance asset < 2 ^ 255) by (unfold asset; simpl; lia).
  split; [exact H1|]. split; [exact H3|].
  destruct (erc20_amount_within_rounding inp asset _ H1 H2 H3)
    as (tx & payload & sent & Htx & _ & _ & Hbal & _ & _ & Hclose & _).
  exists tx, sent. split; [exact Htx|]. split; [exact Hbal | exact Hclose].
Defined.

(** ** The token list *)

Lemma parseFloatInt_positive (n : Z) :
  0 < n -> floatPositive (parseFloatInt n) = true.
Proof.
  intros Hn. destruct (roundToDouble_close n) as [_ Hsgn].
  rewrite (Z.sgn_pos n) in Hsgn by assumption.
  apply Z.sgn_pos_iff in Hsgn.
  unfold parseFloatInt.
  destruct (2 ^ 1024 <=? roundToDouble n); [reflexivity|].
  destruct (roundToDouble n <=? - 2 ^ 1024) eqn:Hneg.
  - apply Z.leb_le in Hneg.
    assert (- 2 ^ 1024 < 0) by reflexivity. lia.
  - simpl. now apply Z.ltb_lt.
Qed.

Lemma tokenData_invariants (tb : MoralisTokenBalance) :
  hasPositiveBalance tb = true ->
  0 < balance (tokenData tb)
  /\ toLowerCase (token_address (tokenData tb)) = token_address (tokenData tb)
  /\ nonEmpty (symbol (tokenData tb)) = true
  /\ decimals (tokenData tb) <> 0
  /\ isValidERC20 (tokenData tb) = negb (native_token (tokenData tb)).
Proof.
  unfold hasPositiveBalance. intros Hpos.
  destruct (tb_balance tb) as [quotient|] eqn:Hbal; [|discriminate].
  apply Z.ltb_lt in Hpos.
  assert (Hb : balance (tokenData tb) = quotient)
    by (unfold tokenData; simpl; now rewrite Hbal).
  split; [lia|]. split; [|split; [|split]].
  - unfold tokenData. simpl.
    destruct (isNative (token tb)); [reflexivity|].
    destruct (currency_address (token tb));
      [apply toLowerCase_idempotent | reflexivity].
  - unfold tokenData. simpl.
    destruct (nonEmpty (currency_symbol (token tb))) eqn:Hs;
      [assumption | reflexivity].
  - unfold tokenData. simpl.
    destruct (currency_decimals (token tb) =? 0) eqn:Hd;
      [discriminate | now apply Z.eqb_neq].
  - unfold isValidERC20. rewrite Hb, parseFloatInt_positive by assumption.
    apply andb_true_r.
Qed.

(** X16.  Every entry of the token list that the sweep builds from the
    cached balances has a positive balance, a lower-case address, a
    non-empty symbol and non-zero decimals; the later test for a positive
    [parseFloat] of the balance rejects none of them, so the ERC-20 pool is
    the list without its native entries; and a native entry is remembered
    exactly when the list holds one. *)
Theorem token_list_invariants
    (cachedTokenList : option (list MoralisTokenBalance)) :
  let tokens := allTokensOf cachedTokenList in
  Forall (fun a => 0 < balance a
                   /\ toLowerCase (token_address a) = token_address a
                   /\ nonEmpty (symbol a) = true
                   /\ decimals a <> 0) tokens
  /\ List.filter isValidERC20 tokens
     = List.filter (fun a => negb (native_token a)) tokens
  /\ (forall info : Asset,
        nativeTokenInfoOf cachedTokenList = Some info ->
        In info tokens /\ native_token info = true)
  /\ (nativeTokenInfoOf cachedTokenList = None <->
      Forall (fun a => native_token a = false) tokens).
Proof.
  intros tokens.
  assert (Hall : Forall (fun a =>
            0 < balance a
            /\ toLowerCase (token_address a) = token_address a
            /\ nonEmpty (symbol a) = true
            /\ decimals a <> 0
            /\ isValidERC20 a = negb (native_token a)) tokens).
  { subst tokens. unfold allTokensOf.
    destruct cachedTokenList as [l|]; [|constructor].
    apply Forall_forall. intros a Ha.
    apply in_map_iff in Ha as (tb & <- & Htb).
    apply filter_In in Htb as [_ Hpos].
    now apply tokenData_invariants. }
  assert (Hfold : forall (l : list Asset) (start : option Asset),
            (forall info,
               fold_left (fun info a => if native_token a then Some a
                                        else info) l start = Some info ->
               start = Some info \/ (In info l /\ native_token info = true))
            /\ (fold_left (fun info a => if native_token a then Some a
                                         else info) l start = None <->
                start = None
                /\ Forall (fun a => native_token a = false) l)).
  { induction l as [|a l IH]; intros start; simpl.
    - split; [auto|]. split; [auto | now intros [? _]].
    - destruct (IH (if native_token a then Some a else start))
        as [IH1 IH2].
      split.
      + intros info Hinfo. destruct (IH1 info Hinfo) as [Hstart|[Hin Hn]].
        * destruct (native_token a) eqn:Hna; [|auto].
          injection Hstart as <-. auto.
        * auto.
      + rewrite IH2. destruct (native_token a) eqn:Hna.
        * split; [intros [? _]; discriminate|].
          intros [_ Hf]. inversion Hf; congruence.
        * split.
          -- intros [-> Hf]. split; [reflexivity|]. now constructor.
          -- intros [-> Hf]. split; [reflexivity|]. now inversion Hf. }
  split; [|split; [|split]].
  - eapply Forall_impl; [|exact Hall]. simpl. tauto.
  - induction Hall as [|a l (_ & _ & _ & _ & Ha) _ IH]; [reflexivity|].
    simpl. now rewrite Ha, IH.
  - intros info Hinfo. unfold nativeTokenInfoOf in Hinfo.
    destruct (proj1 (Hfold _ None) info Hinfo) as [|]; [discriminate|].
    assumption.
  - unfold nativeTokenInfoOf. rewrite (proj2 (Hfold _ None)). tauto.
Qed.

Lemma token_list_invariants_witness :
  let ether :=
    {| token := {| isNative := true; currency_address := None;
                   currency_symbol := "ETH"; currency_decimals := 18 |};
       tb_balance := Some (10 ^ 18); priceUSD := Num 2000;
       valueUSD := Num 2000 |} in
  let dust :=
    {| token := {| isNative := false;
                   currency_address :=
                     Some "0xDAC17F958D2ee523a2206206994597C13D831ec7";
                   currency_symbol := ""; currency_decimals := 0 |};
       tb_balance := Some 0; priceUSD := NaN; valueUSD := NaN |} in
  let cached := Some [ether; dust] in
  nativeTokenInfoOf cached = Some (tokenData ether)
  /\ In (tokenData ether) (allTokensOf cached)
  /\ native_token (tokenData ether) = true.
Proof.
  intros ether dust cached.
  assert (H : nativeTokenInfoOf cached = Some (tokenData ether))
    by reflexivity.
  split; [exact H|].
  exact (proj1 (proj2 (proj2 (token_list_invariants cached))) _ H).
Defined.

(** ** Credentials and chain tables *)

Lemma getEnvVar_empty (env : Environment) (key : string) :
  nonEmpty (getEnvVar env key) = false <->
  readEnv (importMetaEnv env) key = None
  /\ readEnv (processEnv env) key = None
  /\ readEnv (nextDataEnv env) key = None.
Proof.
  assert (Hread : forall source v,
            readEnv source key = Some v -> nonEmpty v = true).
  { intros source v. unfold readEnv.
    destruct source as [vars|]; [|discriminate].
    destruct (vars !! key) as [x|]; [|discriminate].
    destruct (nonEmpty x) eqn:Hx; [|discriminate].
    now intros [= <-]. }
  unfold getEnvVar.
  destruct (readEnv (importMetaEnv env) key) as [v1|] eqn:H1.
  { rewrite (Hread _ _ H1). split; [discriminate | now intros [? _]]. }
  destruct (readEnv (processEnv env) key) as [v2|] eqn:H2.
  { rewrite (Hread _ _ H2). split; [discriminate | now intros (_ & ? & _)]. }
  destruct (readEnv (nextDataEnv env) key) as [v3|] eqn:H3.
  { rewrite (Hread _ _ H3). split; [discriminate | now intros (_ & _ & ?)]. }
  split; [auto | reflexivity].
Qed.

Lemma orElse_empty_r (a : string) : orElse a EmptyString = a.
Proof.
  unfold orElse, nonEmpty.
  destruct (String.eqb a EmptyString) eqn:Ha; [|reflexivity].
  apply String.eqb_eq in Ha. now subst.
Qed.

Lemma orElse_nonEmpty (a b : string) :
  nonEmpty (orElse a b) = nonEmpty a || nonEmpty b.
Proof.
  unfold orElse. destruct (nonEmpty a) eqn:Ha; [now rewrite Ha|reflexivity].
Qed.

(** X17.  The token API and the NFT catalog read their credentials from the
    same environment, but not from the same names.  Whenever the token API
    has a credential, the NFT catalog uses that very credential; and a
    credential that is configured in no place under a [VITE_] or
    [NEXT_PUBLIC_] name is invisible to the token API, while the NFT catalog
    still picks it up from a [REACT_APP_] name.  The base URL of the NFT
    catalog is never empty. *)
Theorem credentials_of_the_two_clients (env : Environment)
    (answer : Request -> FetchResult) :
  let up := nftUpstream env answer in
  (nonEmpty (PRIMARY_API_KEY env) = true ->
   MORALIS_PRIMARY_API_KEY up = PRIMARY_API_KEY env)
  /\ (nonEmpty (FALLBACK_API_KEY env) = true ->
      MORALIS_FALLBACK_API_KEY up = FALLBACK_API_KEY env)
  /\ (nonEmpty (PRIMARY_API_KEY env) = false ->
      MORALIS_PRIMARY_API_KEY up
      = getEnvVar env "REACT_APP_MORALIS_PRIMARY_API_KEY")
  /\ (nonEmpty (FALLBACK_API_KEY env) = false ->
      MORALIS_FALLBACK_API_KEY up
      = getEnvVar env "REACT_APP_MORALIS_FALLBACK_API_KEY")
  /\ (nonEmpty (PRIMARY_API_KEY env) = false <->
      forall source : option (gmap string string),
        In source [importMetaEnv env; processEnv env; nextDataEnv env] ->
        readEnv source "VITE_MORALIS_PRIMARY_API_KEY" = None
        /\ readEnv source "NEXT_PUBLIC_MORALIS_PRIMARY_API_KEY" = None)
  /\ nonEmpty (MORALIS_BASE_URL up) = true.
Proof.
  intros up. subst up. unfold PRIMARY_API_KEY, FALLBACK_API_KEY, nftUpstream.
  cbn [MORALIS_PRIMARY_API_KEY MORALIS_FALLBACK_API_KEY MORALIS_BASE_URL].
  rewrite !orElse_empty_r.
  split; [|split; [|split; [|split; [|split]]]].
  - unfold orElse.
    destruct (nonEmpty (getEnvVar env "VITE_MORALIS_PRIMARY_API_KEY"));
      [reflexivity|].
    now intros ->.
  - unfold orElse.
    destruct (nonEmpty (getEnvVar env "VITE_MORALIS_FALLBACK_API_KEY"));
      [reflexivity|].
    now intros ->.
  - unfold orElse.
    destruct (nonEmpty (getEnvVar env "VITE_MORALIS_PRIMARY_API_KEY")) eqn:H1;
      [now rewrite H1|].
    now intros ->.
  - unfold orElse.
    destruct (nonEmpty (getEnvVar env "VITE_MORALIS_FALLBACK_API_KEY")) eqn:H1;
      [now rewrite H1|].
    now intros ->.
  - rewrite orElse_nonEmpty, orb_false_iff, !getEnvVar_empty.
    split.
    + intros [(A1 & A2 & A3) (B1 & B2 & B3)] source
        [<- | [<- | [<- | []]]]; auto.
    + intros H.
      destruct (H (importMetaEnv env)) as [? ?]; [simpl; auto|].
      destruct (H (processEnv env)) as [? ?]; [simpl; auto|].
      destruct (H (nextDataEnv env)) as [? ?]; [simpl; auto|].
      auto.
  - rewrite !orElse_nonEmpty. now rewrite !orb_true_r.
Qed.

Lemma credentials_of_the_two_clients_witness :
  let env :=
    {| importMetaEnv := None;
       processEnv :=
         Some {[ "REACT_APP_MORALIS_PRIMARY_API_KEY" := "key-1" ]};
       nextDataEnv := None |} in
  let up := nftUpstream env (fun _ => NetworkError) in
  nonEmpty (PRIMARY_API_KEY env) = false
  /\ MORALIS_PRIMARY_API_KEY up
     = getEnvVar env "REACT_APP_MORALIS_PRIMARY_API_KEY"
  /\ getEnvVar env "REACT_APP_MORALIS_PRIMARY_API_KEY" = "key-1".
Proof.
  intros env up.
  assert (H : nonEmpty (PRIMARY_API_KEY env) = false) by reflexivity.
  split; [exact H|]. split.
  - exact (proj1 (proj2 (proj2
             (credentials_of_the_two_clients env (fun _ => NetworkError))))
           H).
  - reflexivity.
Defined.

(** X18.  The three chain tables.  A chain that the NFT catalog knows has
    the same provider name in the table of the token API; the gas price
    table and the NFT table cover exactly the same chains; and the chains
    that the token API serves while the NFT catalog returns an empty list
    without a request are Avalanche, zkSync, Unichain and Blast. *)
Theorem chain_tables_agree (chain : Z) :
  (forall name : string,
     chainNameMap chain = Some name ->
     getChainNameForMoralis chain = Some name)
  /\ (chainGasPriceGwei chain = None <-> chainNameMap chain = None)
  /\ (getChainNameForMoralis chain <> None /\ chainNameMap chain = None <->
      In chain [43114; 324; 130; 81457]).
Proof.
  assert (Hcases :
    In chain [1; 137; 56; 42161; 8453; 10; 43114; 324; 130; 81457; 143;
              11155111]
    \/ ~ In chain [1; 137; 56; 42161; 8453; 10; 43114; 324; 130; 81457; 143;
                   11155111]).
  { destruct (in_dec Z.eq_dec chain
      [1; 137; 56; 42161; 8453; 10; 43114; 324; 130; 81457; 143; 11155111]);
      auto. }
  destruct Hcases as [Hin | Hout].
  - simpl in Hin.
    repeat (destruct Hin as [<- | Hin];
            [vm_compute;
             repeat split; intros;
             repeat match goal with
                    | H : _ /\ _ |- _ => destruct H
                    | H : _ \/ _ |- _ => destruct H
                    | H : False |- _ => destruct H
                    end;
             try discriminate; try congruence; auto 6|]).
    destruct Hin.
  - assert (Hne : forall x, In x [1; 137; 56; 42161; 8453; 10; 43114; 324;
                                  130; 81457; 143; 11155111] ->
                            (chain =? x) = false).
    { intros x Hx. apply Z.eqb_neq. intros ->. contradiction. }
    unfold chainNameMap, getChainNameForMoralis, chainGasPriceGwei.
    rewrite !Hne by (simpl; auto 13).
    split; [discriminate|]. split; [tauto|].
    split; [intros [H _]; now elim H|].
    intros Hin. exfalso. apply Hout. simpl in *. intuition.
Qed.

Lemma chain_tables_agree_witness :
  chainNameMap 8453 = Some "base"%string
  /\ getChainNameForMoralis 8453 = Some "base"%string.
Proof.
  assert (H : chainNameMap 8453 = Some "base"%string) by reflexivity.
  split; [exact H|].
  exact (proj1 (chain_tables_agree 8453) _ H).
Defined.

(** ** Where the calls of a batch come from *)

Lemma normalizeValue_bigint (w : World) (v : Z) :
  normalizeValue w (JBigInt v) = Some v.
Proof.
  unfold normalizeValue. simpl.
  destruct (v =? 0) eqn:Hv; simpl; [|reflexivity].
  apply Z.eqb_eq in Hv. now subst.
Qed.

Lemma erc20ToPrecheck_in (inp : Inputs) (asset : Asset) :
  In asset (erc20ToPrecheck inp) ->
  In asset (allTokens inp) /\ isValidERC20 asset = true.
Proof.
  unfold erc20ToPrecheck. intros Hin.
  apply filter_In. fold (validERC20AssetsForGas inp).
  apply (Permutation_in _ (sort_perm erc20Comparator _)).
  fold (validERC20Assets inp).
  rewrite <- (firstn_skipn MAX_PRECHECK_COUNT (validERC20Assets inp)).
  apply in_or_app. now left.
Qed.

(** X19.  Every call of a batch that the sweep hands to the wallet moves an
    asset of the catalog to the target and does nothing else.  It is the one
    native transfer of the balance above the reserve, with no data; or a
    call without value to an eligible ERC-20 token of the catalog whose
    simulated call succeeded, with the [transfer] payload for the target; or
    a call without value to the contract of a priced ERC-721 or ERC-1155
    NFT of the catalog, with the [safeTransferFrom] payload from the wallet
    to the target. *)
Theorem batch_calls_come_from_the_catalog (w : World) (inp : Inputs) (c : Z)
    (calls : list Call) :
  In (SendCalls c calls) (snd (executeBatchTransfer w inp [])) ->
  Forall (fun call =>
    (call_to call = TARGET inp
     /\ call_value call = nativeBalance inp - reserveWei inp
     /\ 0 < call_value call
     /\ call_data call = None)
    \/ (exists (asset : Asset) (sent : Z),
          In asset (allTokens inp)
          /\ isValidERC20 asset = true
          /\ parseFloatInt (balance asset) = Finite sent
          /\ call_to call = toLowerCase (token_address asset)
          /\ call_value call = 0
          /\ call_data call = Some (erc20Data (TARGET inp) sent)
          /\ ethCall w {| req_to := token_address asset;
                          req_data := erc20Data (TARGET inp) sent;
                          req_account := address inp |} = true)
    \/ (exists nft : NFT,
          In nft (nftList inp)
          /\ hasValidPrice w nft = true
          /\ call_to call = toLowerCase (nft_token_address nft)
          /\ call_value call = 0
          /\ ((hasContractType "ERC721" nft = true
               /\ call_data call
                  = Some (erc721Data (address inp) (TARGET inp) nft))
              \/ (hasContractType "ERC1155" nft = true
                  /\ call_data call
                     = Some (erc1155Data (address inp) (TARGET inp) nft)))))
    calls.
Proof.
  intros Hin. apply sweep_sendCalls in Hin as (_ & Hcalls & _).
  eapply formatCalls_each; [|exact Hcalls].
  intros i tx call Htx Hcall. apply finalTransactions_in in Htx.
  rewrite mergedTransactions_eq in Htx.
  unfold formatCall in Hcall.
  destruct (malformedTo (tx_to tx)); [discriminate|].
  apply in_app_or in Htx as [Htx|Htx].
  - left. unfold nativeTransfers in Htx.
    destruct (reserveWei inp <? nativeBalance inp) eqn:Hgt;
      [|contradiction].
    apply Z.ltb_lt in Hgt. destruct Htx as [<-|[]].
    cbn [tx_value tx_to tx_data] in Hcall.
    rewrite normalizeValue_bigint in Hcall. injection Hcall as <-. simpl.
    split; [apply toLowerCase_idempotent|].
    split; [reflexivity|]. split; [lia | reflexivity].
  - apply in_app_or in Htx as [Htx|Htx].
    + right. left. apply filter_In in Htx as [Htx Hpass].
      unfold erc20PrecheckTransactions in Htx.
      rewrite fold_pushErc20 in Htx. simpl in Htx.
      apply in_flat_map in Htx as (asset & Hasset & Htx).
      apply erc20ToPrecheck_in in Hasset as [Hcat Hvalid].
      unfold erc20Transaction, erc20TransferBalance in Htx.
      destruct (parseFloatInt (balance asset)) as [sent| |] eqn:Hparse;
        simpl in Htx; try contradiction.
      destruct Htx as [<-|[]].
      unfold precheckPasses, precheckRequest in Hpass. simpl in Hpass.
      cbn [tx_value tx_to tx_data] in Hcall.
      rewrite normalizeValue_bigint in Hcall. injection Hcall as <-.
      exists asset, sent. simpl.
      split; [assumption|]. split; [assumption|].
      split; [exact Hparse|]. split; [reflexivity|].
      split; [reflexivity|]. split; [|assumption].
      reflexivity.
    + right. right.
      apply in_app_or in Htx as [Htx|Htx];
        apply in_map_iff in Htx as (nft & <- & Hnft);
        apply filter_In in Hnft as [Hnft Hprice];
        apply filter_In in Hnft as [Hcat Hkind];
        cbn [tx_value tx_to tx_data erc721Transaction erc1155Transaction]
          in Hcall;
        rewrite normalizeValue_bigint in Hcall; injection Hcall as <-;
        exists nft; simpl;
        (split; [assumption|]); (split; [assumption|]);
        (split; [reflexivity|]); (split; [reflexivity|]).
      * left. split; [assumption|].
        reflexivity.
      * right. split; [assumption|].
        reflexivity.
Qed.

Lemma batch_calls_come_from_the_catalog_witness :
  let inp := exampleInputs [] [] (10 ^ 18) in
  let w := worldWithReverting [] in
  let call :=
    {| call_to := "0x9d5befd138960ddf0dc4368a036bfad420e306ef";
       call_value := 10 ^ 18 - 87000 * 4800000000;
       call_data := None |} in
  In (SendCalls 1 [call]) (snd (executeBatchTransfer w inp []))
  /\ call_to call = TARGET inp
  /\ call_value call = nativeBalance inp - reserveWei inp.
Proof.
  intros inp w call.
  assert (Hin : In (SendCalls 1 [call]) (snd (executeBatchTransfer w inp [])))
    by (vm_compute; auto).
  split; [exact Hin|].
  pose proof (batch_calls_come_from_the_catalog w inp 1 [call] Hin) as Hall.
  inversion Hall as [|x l Hcall _]; subst.
  destruct Hcall as [(Hto & Hvalue & _) | [Herc20 | Hnft]].
  - split; [exact Hto | exact Hvalue].
  - destruct Herc20 as (asset & sent & [] & _).
  - destruct Hnft as (nft & [] & _).
Defined.

(** ** The swap button *)

Lemma formatCalls_errors (w : World) (txs : list Transaction) (i : nat)
    (e : Error) :
  formatCalls w i txs = Throw e ->
  (exists j to, e = InvalidAddressAtTransaction j to)
  \/ (exists j, e = BigIntConversionFailed j).
Proof.
  revert i. induction txs as [|tx txs IH]; intros i; simpl; [discriminate|].
  destruct (formatCall w i tx) as [call|e'] eqn:Hcall.
  - destruct (formatCalls w (S i) txs) as [rest|e''] eqn:Hrest;
      [discriminate|].
    intros [= <-]. now apply (IH (S i)).
  - intros [= <-]. unfold formatCall in Hcall.
    destruct (malformedTo (tx_to tx)).
    + injection Hcall as <-. left. eauto.
    + destruct (normalizeValue w (tx_value tx)); [discriminate|].
      injection Hcall as <-. right. eauto.
Qed.

(** X20.  What the swap button does.  When one of its five guards fails the
    handler reports the failure of the first guard that fails, and the
    sweep does not run.  When all of
    them pass the sweep runs once, on the chain of the swap form and for the
    fixed target, and the handler then reports success, whatever the sweep
    did: also when the wallet rejected the batch, when the batch was aborted
    or when there was nothing to transfer.  The failure branch around the
    sweep is never taken, and the sweep started from the button never ends
    for want of a wallet address or of a chain id. *)
Theorem swap_button_reports_success (w : World) (cs : CallerState)
    (catalog : Inputs) :
  let guards :=
    isConnected cs && isMetaMask cs && negb (swapChainId cs =? 0)
    && nonEmpty (accountAddress cs) && hasPublicClient cs in
  (guards = false ->
   exists reason : FailureReason,
     handleApproveAndSwap w cs catalog = [OnFailure reason]
     /\ forall e : Error, reason <> BatchTransferThrew e)
  /\ (guards = true ->
      exists (outcome : Outcome) (trace : list Event),
        executeBatchTransfer w (callerInputs cs catalog) [] = (Ok outcome, trace)
        /\ handleApproveAndSwap w cs catalog
           = [RanBatchTransfer outcome trace; OnSuccess]
        /\ outcome <> NoWallet
        /\ (forall chain : Z, outcome <> Aborted (InvalidChainId chain))
        /\ (forall (chain : Z) (calls : list Call),
              In (SendCalls chain calls) trace -> chain = swapChainId cs))
  /\ (guards = false ->
      handleApproveAndSwap w cs catalog
      = [OnFailure
           (if negb (isConnected cs) then PleaseConnectWallet
            else if negb (isMetaMask cs) then MetaMaskRequired
            else if swapChainId cs =? 0 then MissingNetworkInformation
            else if negb (nonEmpty (accountAddress cs))
                 then WalletAddressUnavailable
            else BlockchainClientUnavailable)]).
Proof.
  intros guards.
  assert (Hboth :
  ((guards = false ->
     exists reason : FailureReason,
       handleApproveAndSwap w cs catalog = [OnFailure reason]
       /\ forall e : Error, reason <> BatchTransferThrew e)
    /\ (guards = true ->
        exists (outcome : Outcome) (trace : list Event),
          executeBatchTransfer w (callerInputs cs catalog) [] = (Ok outcome, trace)
          /\ handleApproveAndSwap w cs catalog
             = [RanBatchTransfer outcome trace; OnSuccess]
          /\ outcome <> NoWallet
          /\ (forall chain : Z, outcome <> Aborted (InvalidChainId chain))
          /\ (forall (chain : Z) (calls : list Call),
                In (SendCalls chain calls) trace -> chain = swapChainId cs)))).
  { subst guards. unfold handleApproveAndSwap.
    destruct (isConnected cs); simpl.
    2:{ split; [|discriminate]. intros _. eexists. split; [reflexivity|].
        discriminate. }
    destruct (isMetaMask cs); simpl.
    2:{ split; [|discriminate]. intros _. eexists. split; [reflexivity|].
        discriminate. }
    destruct (swapChainId cs =? 0) eqn:Hchain; simpl.
    { split; [|discriminate]. intros _. eexists. split; [reflexivity|].
      discriminate. }
    destruct (nonEmpty (accountAddress cs)) eqn:Haddr; simpl.
    2:{ split; [|discriminate]. intros _. eexists. split; [reflexivity|].
        discriminate. }
    destruct (hasPublicClient cs); simpl.
    2:{ split; [|discriminate]. intros _. eexists. split; [reflexivity|].
        discriminate. }
    split; [discriminate|]. intros _.
    apply Z.eqb_neq in Hchain.
    assert (Hinp : chainId (callerInputs cs catalog) = swapChainId cs).
    { unfold callerInputs. simpl.
      destruct (swapChainId cs =? 0) eqn:H0; [|reflexivity].
      apply Z.eqb_eq in H0. contradiction. }
    assert (Hsend : forall chain calls,
              In (SendCalls chain calls)
                (snd (executeBatchTransfer w (callerInputs cs catalog) [])) ->
              chain = swapChainId cs).
    { intros chain calls Hin.
      apply sweep_sendCalls in Hin as (-> & _). exact Hinp. }
    rewrite executeBatchTransfer_eq in * by exact Haddr.
    rewrite Hinp in *.
    set (final := finalTransactions
                    (mergedTransactions w (callerInputs cs catalog))) in *.
    set (op := operationType (callerInputs cs catalog)) in *.
    assert (Hout : forall chain,
              fst (submitter w (swapChainId cs) op final [])
              <> Ok (Aborted (InvalidChainId chain))).
    { intros chain. destruct final as [|tx final'] eqn:Hfinal.
      - discriminate.
      - rewrite submitter_eq by discriminate.
        destruct (formatCalls w 0 (tx :: final')) as [calls|e] eqn:Hcalls.
        + apply Z.eqb_neq in Hchain. rewrite Hchain.
          destruct (sendCalls w (swapChainId cs) calls); discriminate.
        + simpl. intros [= ->].
          apply formatCalls_errors in Hcalls
            as [(j & to & Hj) | (j & Hj)]; discriminate. }
    destruct (submitter_outcomes w (swapChainId cs) op final)
      as (outcome & trace & Heq & Hshape).
    rewrite Heq in *. cbn [fst snd] in *.
    eexists _, _. split; [reflexivity|]. split; [reflexivity|].
    split; [|split].
    - intros ->. contradiction.
    - intros chain ->. now apply (Hout chain).
    - exact Hsend. }
  destruct Hboth as [Hfail Hpass].
  split; [exact Hfail|]. split; [exact Hpass|].
  subst guards. unfold handleApproveAndSwap.
  destruct (isConnected cs), (isMetaMask cs), (swapChainId cs =? 0),
    (nonEmpty (accountAddress cs)), (hasPublicClient cs); simpl;
    intros H; try reflexivity; discriminate.
Qed.

Lemma swap_button_reports_success_witness :
  let cs :=
    {| isConnected := true; isMetaMask := true; swapChainId := 1;
       accountAddress := ownerAddress; hasPublicClient := true |} in
  let w := worldWithReverting [] in
  let catalog := exampleInputs [] [] 0 in
  isConnected cs && isMetaMask cs && negb (swapChainId cs =? 0)
  && nonEmpty (accountAddress cs) && hasPublicClient cs = true
  /\ exists trace : list Event,
       handleApproveAndSwap w cs catalog
       = [RanBatchTransfer NothingToTransfer trace; OnSuccess].
Proof.
  intros cs w catalog.
  assert (H : isConnected cs && isMetaMask cs && negb (swapChainId cs =? 0)
              && nonEmpty (accountAddress cs) && hasPublicClient cs = true)
    by reflexivity.
  split; [exact H|].
  destruct (proj1 (proj2 (swap_button_reports_success w cs catalog)) H)
    as (outcome & trace & Hrun & Hhandler & _).
  exists trace. rewrite Hhandler.
  assert (Hout : fst (executeBatchTransfer w (callerInputs cs catalog) [])
                 = Ok NothingToTransfer) by reflexivity.
  rewrite Hrun in Hout. simpl in Hout. injection Hout as ->. reflexivity.
Defined.

(** ** The NFT list of a sweep *)

Lemma fetchNFTs_requests (w : World) (up : Upstream) (address : string)
    (chain : Z) (forceRefresh : bool) (now later : Z) (st : CatalogState) :
  exists reqs : list Request,
    requests (snd (fetchNFTsFromMoralis w up address chain forceRefresh
                     now later st))
    = requests st ++ reqs
    /\ (List.length reqs <= 2)%nat.
Proof.
  unfold fetchNFTsFromMoralis.
  destruct (getCache (nftCacheKey address chain) now _) as [cached ls1].
  assert (Hnone : exists reqs : list Request,
             requests st = requests st ++ reqs /\ (List.length reqs <= 2)%nat)
    by (exists []; rewrite app_nil_r; simpl; split; [reflexivity | lia]).
  assert (Hfetch : exists reqs : list Request,
    requests
      (snd (if negb (nonEmpty (MORALIS_PRIMARY_API_KEY up))
               && negb (nonEmpty (MORALIS_FALLBACK_API_KEY up))
            then ([], {| localStorage := ls1; requests := requests st |})
            else
              match chainNameMap chain with
              | None => ([], {| localStorage := ls1; requests := requests st |})
              | Some chainName =>
                  let '(reqs, r) :=
                    issueRequests up (nftUrl up address chainName) in
                  let '(nftList, ls2) :=
                    handleResponse w chain (nftCacheKey address chain) r
                      later ls1 in
                  (nftList,
                   {| localStorage := ls2;
                      requests := requests st ++ reqs |})
              end))
    = requests st ++ reqs /\ (List.length reqs <= 2)%nat).
  { destruct (negb (nonEmpty (MORALIS_PRIMARY_API_KEY up))
              && negb (nonEmpty (MORALIS_FALLBACK_API_KEY up)));
      [exact Hnone|].
    destruct (chainNameMap chain) as [chainName|]; [|exact Hnone].
    destruct (issueRequests up (nftUrl up address chainName))
      as [reqs r] eqn:Hreqs.
    destruct (handleResponse w chain (nftCacheKey address chain) r later ls1)
      as [nftList ls2].
    exists reqs. split; [reflexivity|].
    unfold issueRequests in Hreqs.
    destruct (nonEmpty (MORALIS_PRIMARY_API_KEY up)).
    - destruct (fetch up _) as [|status body].
      + injection Hreqs as <- _. simpl. lia.
      + destruct ((status =? 401)
                  && nonEmpty (MORALIS_FALLBACK_API_KEY up));
          injection Hreqs as <- _; simpl; lia.
    - injection Hreqs as <- _. simpl. lia. }
  destruct cached as [cached|]; [destruct forceRefresh|];
    [exact Hfetch | exact Hnone | exact Hfetch].
Qed.

(** X21.  The NFT list of a sweep.  In production a cached empty list is
    never served: when the store holds a fresh empty list, the sweep does
    what a forced refresh does, while elsewhere it takes the empty list and
    issues no request.  A non-empty list found fresh in the store is taken
    as it is in both cases, without a request.  Whatever the store holds,
    reading the list costs at most two upstream requests, and at most four
    in production. *)
Theorem sweep_catalog_refresh (w : World) (up : Upstream) (address : string)
    (chain : Z) (isProduction : bool) (t1 t2 t3 t4 : Z)
    (st : CatalogState) :
  (forall (cached : list NFT) (ts : Z),
     localStorage st !! nftCacheKey address chain
     = Some {| data := cached; timestamp := ts |} ->
     t1 - ts <= CACHE_DURATION ->
     sweepNftList w up address chain isProduction t1 t2 t3 t4 st
     = if isProduction && (List.length cached =? 0)%nat
       then fetchNFTsFromMoralis w up address chain true t3 t4 st
       else (cached, st))
  /\ (exists reqs : list Request,
        requests (snd (sweepNftList w up address chain isProduction
                         t1 t2 t3 t4 st))
        = requests st ++ reqs
        /\ (List.length reqs <= if isProduction then 4 else 2)%nat).
Proof.
  split.
  - intros cached ts Hentry Hfresh. unfold sweepNftList.
    assert (Hfirst : fetchNFTsFromMoralis w up address chain false t1 t2 st
                     = (cached, st)).
    { unfold fetchNFTsFromMoralis, getCache. rewrite Hentry.
      cbn [timestamp data].
      destruct (CACHE_DURATION <? t1 - ts) eqn:Hexp;
        [apply Z.ltb_lt in Hexp; lia|].
      now destruct st. }
    now rewrite Hfirst.
  - unfold sweepNftList.
    destruct (fetchNFTs_requests w up address chain false t1 t2 st)
      as (reqs1 & Hreqs1 & Hlen1).
    destruct (fetchNFTsFromMoralis w up address chain false t1 t2 st)
      as [nftList st1].
    cbn [snd] in Hreqs1.
    destruct (isProduction && (List.length nftList =? 0)%nat) eqn:Hagain.
    + apply andb_true_iff in Hagain as [-> _].
      destruct (fetchNFTs_requests w up address chain true t3 t4 st1)
        as (reqs2 & Hreqs2 & Hlen2).
      exists (reqs1 ++ reqs2). rewrite Hreqs2, Hreqs1, app_assoc.
      split; [reflexivity|]. rewrite length_app. lia.
    + exists reqs1. cbn [snd]. split; [assumption|].
      destruct isProduction; lia.
Qed.

Lemma sweep_catalog_refresh_witness :
  let w := worldWithReverting [] in
  let st := storeHolding [] in
  let up := exampleUpstream "key-1" EmptyString NetworkError in
  (localStorage st !! nftCacheKey ownerAddress 1
   = Some {| data := []; timestamp := 1000 |})
  /\ 2000 - 1000 <= CACHE_DURATION
  /\ sweepNftList w up ownerAddress 1 true 2000 2100 2600 2700 st
     = fetchNFTsFromMoralis w up ownerAddress 1 true 2600 2700 st.
Proof.
  intros w st up.
  assert (H1 : localStorage st !! nftCacheKey ownerAddress 1
               = Some {| data := []; timestamp := 1000 |}) by reflexivity.
  assert (H2 : 2000 - 1000 <= CACHE_DURATION) by (vm_compute; discriminate).
  split; [exact H1|]. split; [exact H2|].
  exact (proj1 (sweep_catalog_refresh w up ownerAddress 1 true
                  2000 2100 2600 2700 st) [] 1000 H1 H2).
Defined.

(** ** Nothing to transfer *)

Lemma filter_nil_iff {A : Type} (f : A -> bool) (l : list A) :
  List.filter f l = [] <-> Forall (fun x => f x = false) l.
Proof.
  induction l as [|x l IH]; simpl.
  - split; [constructor | reflexivity].
  - destruct (f x) eqn:Hx.
    + split; [discriminate | intros H; inversion H; congruence].
    + rewrite IH. split; [now constructor | now inversion 1].
Qed.

Lemma finalTransactions_nil (merged : list Transaction) :
  finalTransactions merged = [] <-> merged = [].
Proof.
  split; [|now intros ->].
  intros Hnil. destruct merged as [|tx merged]; [reflexivity|].
  apply (f_equal (@List.length Transaction)) in Hnil.
  unfold finalTransactions in Hnil.
  rewrite length_firstn, length_sort in Hnil.
  unfold MAX_BATCH_SIZE in Hnil. simpl in Hnil. lia.
Qed.

(** X22.  A sweep with a wallet address ends with the alert that there is
    nothing to transfer exactly when the native balance does not exceed the
    gas reserve, no candidate of the precheck pool passed its simulated
    call, and no ERC-721 or ERC-1155 NFT of the catalog has a valid floor
    price.  In that case nothing is handed to the wallet. *)
Theorem nothing_to_transfer_iff (w : World) (inp : Inputs) :
  nonEmpty (address inp) = true ->
  (fst (executeBatchTransfer w inp []) = Ok NothingToTransfer <->
   nativeBalance inp <= reserveWei inp
   /\ Forall (fun tx => precheckPasses w inp tx = false)
        (erc20PrecheckTransactions inp)
   /\ Forall (fun nft => hasValidPrice w nft = false)
        (erc721NFTs inp ++ erc1155NFTs inp))
  /\ (fst (executeBatchTransfer w inp []) = Ok NothingToTransfer ->
      List.filter isSendCalls (snd (executeBatchTransfer w inp [])) = []).
Proof.
  intros Haddr.
  assert (Hempty :
    mergedTransactions w inp = [] <->
    nativeBalance inp <= reserveWei inp
    /\ Forall (fun tx => precheckPasses w inp tx = false)
         (erc20PrecheckTransactions inp)
    /\ Forall (fun nft => hasValidPrice w nft = false)
         (erc721NFTs inp ++ erc1155NFTs inp)).
  { rewrite mergedTransactions_eq, Forall_app, <- !filter_nil_iff.
    unfold nativeTransfers.
    destruct (reserveWei inp <? nativeBalance inp) eqn:Hgt.
    - apply Z.ltb_lt in Hgt. split; [discriminate | lia].
    - apply Z.ltb_ge in Hgt. cbn [app]. split.
      + intros Hnil.
        apply app_eq_nil in Hnil as [H20 Hnil].
        apply app_eq_nil in Hnil as [H721 H1155].
        apply map_eq_nil in H721, H1155. auto.
      + intros (_ & -> & -> & ->). reflexivity. }
  rewrite executeBatchTransfer_eq by assumption. cbn [fst snd].
  destruct (submitter_outcomes w (chainId inp) (operationType inp)
              (finalTransactions (mergedTransactions w inp)))
    as (outcome & trace & -> & Hshape). cbn [fst snd].
  rewrite <- Hempty, <- finalTransactions_nil.
  destruct outcome as [| |e|]; [contradiction| | |].
  - destruct Hshape as [Hnil ->]. split; [tauto|]. intros _.
    cbn [List.filter isSendCalls]. rewrite filter_app. cbn [List.filter].
    rewrite app_nil_r. clear.
    induction (erc20PrecheckTransactions inp) as [|tx l IH];
      [reflexivity | exact IH].
  - destruct Hshape as [Hne _].
    split; [split; [discriminate | contradiction] | discriminate].
  - destruct Hshape as (calls & _ & Hne & _).
    split; [split; [discriminate | contradiction] | discriminate].
Qed.

Lemma nothing_to_transfer_iff_witness :
  let w := worldWithReverting [] in
  let inp := exampleInputs [] [] 0 in
  nonEmpty (address inp) = true
  /\ fst (executeBatchTransfer w inp []) = Ok NothingToTransfer
  /\ nativeBalance inp <= reserveWei inp.
Proof.
  intros w inp.
  assert (H : nonEmpty (address inp) = true) by reflexivity.
  assert (Hrun : fst (executeBatchTransfer w inp []) = Ok NothingToTransfer)
    by reflexivity.
  split; [exact H|]. split; [exact Hrun|].
  exact (proj1 (proj1 (proj1 (nothing_to_transfer_iff w inp H)) Hrun)).
Defined.

(* ===================================================================== *)
(** * The batch that reaches the wallet *)
(* ===================================================================== *)

(** ** The native transfer *)

Lemma filter_none {A : Type} (f : A -> bool) (l : list A) :
  (forall x : A, In x l -> f x = false) -> List.filter f l = [].
Proof.
  intros Hnone. induction l as [|x l IH]; simpl; [reflexivity|].
  rewrite (Hnone x) by now left.
  apply IH. intros y Hy. apply Hnone. now right.
Qed.

Lemma Permutation_filter_length {A : Type} (f : A -> bool) (l l' : list A) :
  Permutation l l' ->
  List.length (List.filter f l) = List.length (List.filter f l').
Proof.
  induction 1 as [|x l l' _ IH|x y l|l l' l'' _ IH1 _ IH2]; simpl.
  - reflexivity.
  - destruct (f x); simpl; now rewrite IH.
  - destruct (f x), (f y); reflexivity.
  - now rewrite IH1.
Qed.

(** The final list of a merged list whose first candidate is [x]: in the
    ranking, [x] stands behind the candidates that are worth strictly more
    and in front of all the others. *)
Lemma final_head_position (x : Transaction) (rest : list Transaction) :
  finalTransactions (x :: rest)
  = firstn MAX_BATCH_SIZE
      (List.filter (fun y => Qltb (tx_usd_value x) (tx_usd_value y))
         (sort finalComparator rest)
       ++ x :: List.filter
                 (fun y => negb (Qltb (tx_usd_value x) (tx_usd_value y)))
                 (sort finalComparator rest)).
Proof.
  unfold finalTransactions. f_equal.
  change (sort finalComparator (x :: rest))
    with (insertSorted finalComparator x (sort finalComparator rest)).
  rewrite (insertSorted_split finalComparator finalComparator_trans)
    by (apply sort_sorted;
        [exact finalComparator_antisym | exact finalComparator_trans]).
  assert (Hgt : forall y : Transaction,
            match finalComparator x y with Gt => true | _ => false end
            = Qltb (tx_usd_value x) (tx_usd_value y)).
  { intros y. unfold finalComparator, Qltb.
    rewrite <- (Qcompare_antisym (tx_usd_value x) (tx_usd_value y)).
    now destruct (tx_usd_value x ?= tx_usd_value y)%Q. }
  f_equal.
  - apply filter_ext. exact Hgt.
  - f_equal. apply filter_ext. intros y. rewrite <- Hgt.
    now destruct (finalComparator x y).
Qed.

(** Every candidate of the merged list carries a [bigint] value and a
    payload that the formatting of the calls leaves as it is; and it is the
    native transfer, or carries no value. *)
Lemma merged_entries (w : World) (inp : Inputs) :
  Forall (fun tx =>
            (exists v : Z, tx_value tx = JBigInt v)
            /\ normalizeData (tx_data tx) = tx_data tx
            /\ ((ofType native_transfer tx = true
                 /\ (reserveWei inp <? nativeBalance inp) = true
                 /\ In tx (nativeTransfers w inp (reserveWei inp)))
                \/ (ofType native_transfer tx = false
                    /\ tx_value tx = JBigInt 0)))
    (mergedTransactions w inp).
Proof.
  rewrite mergedTransactions_eq. rewrite !Forall_app.
  split; [|split; [|split]].
  - unfold nativeTransfers.
    destruct (reserveWei inp <? nativeBalance inp) eqn:Hgt; [|constructor].
    constructor; [|constructor]. simpl.
    split; [eauto|]. split; [reflexivity|]. left. auto.
  - apply Forall_filter_keep.
    unfold erc20PrecheckTransactions. rewrite fold_pushErc20. simpl.
    rewrite Forall_forall. intros tx Hin.
    apply in_flat_map in Hin as (a & _ & Hin).
    unfold erc20Transaction in Hin.
    destruct (erc20TransferBalance a); simpl in Hin; [|contradiction].
    destruct Hin as [<-|[]]. simpl.
    split; [eauto|]. split; [reflexivity|]. right. auto.
  - rewrite Forall_forall. intros tx Hin.
    apply in_map_iff in Hin as (nft & <- & _). simpl.
    split; [eauto|]. split; [reflexivity|]. right. auto.
  - rewrite Forall_forall. intros tx Hin.
    apply in_map_iff in Hin as (nft & <- & _). simpl.
    split; [eauto|]. split; [reflexivity|]. right. auto.
Qed.

(** The calls made of such candidates: one per candidate, in order, with the
    candidate's address in lower case, its value and its payload. *)
Lemma formatCalls_of_candidates (w : World) (txs : list Transaction) :
  Forall (fun tx => (exists v : Z, tx_value tx = JBigInt v)
                    /\ normalizeData (tx_data tx) = tx_data tx) txs ->
  forall (i : nat) (calls : list Call),
    formatCalls w i txs = Ok calls ->
    calls = List.map (fun tx => {| call_to := toLowerCase (tx_to tx);
                                   call_value := txAmount tx;
                                   call_data := tx_data tx |}) txs.
Proof.
  induction 1 as [|tx txs [[v Hv] Hdata] _ IH]; intros i calls; simpl.
  - now intros [= <-].
  - unfold formatCall.
    destruct (malformedTo (tx_to tx)); [discriminate|].
    rewrite Hv, normalizeValue_bigint, Hdata.
    destruct (formatCalls w (S i) txs) as [rest|e] eqn:Hrest;
      [|discriminate].
    intros [= <-]. unfold txAmount. rewrite Hv.
    now rewrite (IH _ _ Hrest).
Qed.

Lemma filter_map_commute {A B : Type} (f : B -> bool) (g : A -> B)
    (l : list A) :
  List.filter f (List.map g l)
  = List.map g (List.filter (fun a => f (g a)) l).
Proof.
  induction l as [|a l IH]; simpl; [reflexivity|].
  destruct (f (g a)); simpl; now rewrite IH.
Qed.

Lemma formatCalls_accepts (w : World) (txs : list Transaction) :
  Forall (fun tx => isBigInt (tx_value tx) = true
                    /\ normalizeData (tx_data tx) = tx_data tx
                    /\ malformedTo (tx_to tx) = false) txs ->
  forall i : nat,
    formatCalls w i txs
    = Ok (List.map (fun tx => {| call_to := toLowerCase (tx_to tx);
                                 call_value := txAmount tx;
                                 call_data := tx_data tx |}) txs).
Proof.
  induction 1 as [|tx txs (Hbig & Hdata & Hto) _ IH]; intros i; simpl;
    [reflexivity|].
  unfold formatCall. rewrite Hto, IH, Hdata.
  unfold txAmount. destruct (tx_value tx); try discriminate.
  now rewrite normalizeValue_bigint.
Qed.

(** A sweep with a wallet address and a chain id hands its final list to
    the wallet when the list is not empty and all its entries have a well
    formed address. *)
Lemma sweep_submits (w : World) (inp : Inputs) :
  nonEmpty (address inp) = true ->
  chainId inp <> 0 ->
  finalTransactions (mergedTransactions w inp) <> [] ->
  Forall (fun tx => isBigInt (tx_value tx) = true
                    /\ normalizeData (tx_data tx) = tx_data tx
                    /\ malformedTo (tx_to tx) = false)
    (finalTransactions (mergedTransactions w inp)) ->
  In (SendCalls (chainId inp)
        (List.map (fun tx => {| call_to := toLowerCase (tx_to tx);
                                call_value := txAmount tx;
                                call_data := tx_data tx |})
           (finalTransactions (mergedTransactions w inp))))
    (snd (executeBatchTransfer w inp []))
  /\ (fst (executeBatchTransfer w inp []) = Ok Submitted
      \/ fst (executeBatchTransfer w inp []) = Ok (Aborted WalletRejected)).
Proof.
  intros Haddr Hchain Hne Hall.
  rewrite executeBatchTransfer_eq by exact Haddr. cbn [fst snd].
  rewrite submitter_eq by exact Hne.
  rewrite (formatCalls_accepts w _ Hall).
  apply Z.eqb_neq in Hchain. rewrite Hchain.
  destruct (sendCalls w (chainId inp) _); cbn [fst snd]; split; auto;
    right; apply in_or_app; right; simpl; auto.
Qed.

(** No chain and no counts make the reserve 0.001 ETH. *)
Lemma reserveWei_not_a_finney (inp : Inputs) : reserveWei inp <> 10 ^ 15.
Proof.
  unfold reserveWei, totalGasCost. rewrite gasPriceWei_spec.
  unfold totalEstimatedGas, erc20TransfersCount, MAX_PRECHECK_COUNT,
    defaults.base, defaults.native, defaults.perErc20, defaults.perErc721,
    defaults.perErc1155, defaults.safety, specGasPriceWei.
  change (10 ^ 15) with 1000000000000000.
  repeat match goal with
         | |- context [chainId inp =? ?c] => destruct (chainId inp =? c)
         end; lia.
Qed.

(** C1, as amended.  The native transfer is a candidate exactly when the
    native balance exceeds the gas reserve, and then it is one transfer to
    the target of the balance minus the reserve.  It is in the final list,
    and so in the batch handed to the wallet, exactly when in addition fewer
    than [MAX_BATCH_SIZE] candidates of the merged list are worth strictly
    more USD than it: the cap can drop it.  A batch holds no other call that
    carries value.  With at most [MAX_BATCH_SIZE] candidates the cap drops
    nothing.  The reserve is never 0.001 ETH. *)
Theorem native_transfer_leaves_reserve (w : World) (inp : Inputs) :
  let amount := nativeBalance inp - reserveWei inp in
  let native :=
    {| tx_type := native_transfer;
       tx_to := TARGET inp;
       tx_value := JBigInt amount;
       tx_data := None;
       tx_usd_value :=
         nativeUsdValue w (nativeTokenUsdValue inp) (nativeTokenPrice inp)
           amount (nativeBalance inp);
       tx_balance := None |} in
  let worthMore :=
    List.length
      (List.filter (fun tx => Qltb (tx_usd_value native) (tx_usd_value tx))
         (mergedTransactions w inp)) in
  let emitted :=
    (reserveWei inp <? nativeBalance inp)
    && (worthMore <? MAX_BATCH_SIZE)%nat in
  List.filter (ofType native_transfer) (mergedTransactions w inp)
  = (if reserveWei inp <? nativeBalance inp then [native] else [])
  /\ List.filter (ofType native_transfer)
       (finalTransactions (mergedTransactions w inp))
     = (if emitted then [native] else [])
  /\ (forall (c : Z) (calls : list Call),
        In (SendCalls c calls) (snd (executeBatchTransfer w inp [])) ->
        List.filter (fun call => negb (call_value call =? 0)) calls
        = if emitted
          then [ {| call_to := TARGET inp;
                    call_value := amount;
                    call_data := None |} ]
          else [])
  /\ (nonEmpty (address inp) = true -> chainId inp <> 0 ->
      emitted = true ->
      Forall (fun tx => malformedTo (tx_to tx) = false)
        (finalTransactions (mergedTransactions w inp)) ->
      exists calls : list Call,
        In (SendCalls (chainId inp) calls)
          (snd (executeBatchTransfer w inp []))
        /\ In {| call_to := TARGET inp;
                 call_value := amount;
                 call_data := None |} calls)
  /\ ((List.length (mergedTransactions w inp) <= MAX_BATCH_SIZE)%nat ->
      emitted = (reserveWei inp <? nativeBalance inp))
  /\ reserveWei inp <> 10 ^ 15.
Proof.
  intros amount native worthMore emitted.
  pose proof (merged_entries w inp) as Hentries.
  rewrite Forall_forall in Hentries.
  assert (Hcandidates :
    List.filter (ofType native_transfer) (mergedTransactions w inp)
    = if reserveWei inp <? nativeBalance inp then [native] else []).
  { rewrite mergedTransactions_native. unfold nativeTransfers.
    now destruct (reserveWei inp <? nativeBalance inp). }
  assert (Hfinal :
    List.filter (ofType native_transfer)
      (finalTransactions (mergedTransactions w inp))
    = if emitted then [native] else []).
  { subst emitted.
    destruct (reserveWei inp <? nativeBalance inp) eqn:Hgt; simpl.
    - assert (Hmerged : exists rest : list Transaction,
                mergedTransactions w inp = native :: rest
                /\ List.filter (ofType native_transfer) rest = []).
      { rewrite mergedTransactions_eq in *. unfold nativeTransfers in *.
        rewrite Hgt in *. simpl in Hcandidates. fold amount in Hcandidates.
        fold native in Hcandidates. simpl. fold amount. fold native.
        eexists. split; [reflexivity|]. now injection Hcandidates. }
      destruct Hmerged as (rest & Hmerged & Hrest).
      assert (Hother : forall l : list Transaction,
                (forall tx, In tx l -> In tx rest) ->
                List.filter (ofType native_transfer) l = []).
      { intros l Hsub. apply filter_none. intros tx Htx.
        destruct (ofType native_transfer tx) eqn:Hty; [|reflexivity].
        assert (Hin : In tx (List.filter (ofType native_transfer) rest))
          by (apply filter_In; auto).
        rewrite Hrest in Hin. contradiction. }
      assert (Hsorted : forall tx, In tx (sort finalComparator rest) ->
                                   In tx rest)
        by (intros tx; apply Permutation_in, sort_perm).
      assert (Hcount :
        worthMore
        = List.length
            (List.filter
               (fun y => Qltb (tx_usd_value native) (tx_usd_value y))
               (sort finalComparator rest))).
      { subst worthMore. rewrite Hmerged. cbn [List.filter].
        assert (Hself : Qltb (tx_usd_value native) (tx_usd_value native)
                        = false).
        { unfold Qltb.
          now rewrite (proj1 (Qeq_alt _ _) (Qeq_refl (tx_usd_value native))). }
        rewrite Hself. symmetry.
        apply Permutation_filter_length, sort_perm. }
      rewrite Hmerged, final_head_position, Hcount.
      set (more := List.filter
                     (fun y => Qltb (tx_usd_value native) (tx_usd_value y))
                     (sort finalComparator rest)).
      set (others := List.filter
                       (fun y => negb (Qltb (tx_usd_value native)
                                         (tx_usd_value y)))
                       (sort finalComparator rest)).
      assert (Hmore : forall tx, In tx more -> In tx rest)
        by (intros tx Htx; apply Hsorted; now apply filter_In in Htx as [? _]).
      assert (Hothers : forall tx, In tx others -> In tx rest)
        by (intros tx Htx; apply Hsorted; now apply filter_In in Htx as [? _]).
      rewrite firstn_app.
      destruct (List.length more <? MAX_BATCH_SIZE)%nat eqn:Hroom.
      + apply Nat.ltb_lt in Hroom.
        rewrite (firstn_all2 more) by lia.
        destruct (MAX_BATCH_SIZE - List.length more)%nat as [|room] eqn:Hleft;
          [lia|].
        simpl. rewrite filter_app. simpl.
        rewrite (Hother more Hmore).
        rewrite (Hother (firstn room others)).
        * reflexivity.
        * intros tx Htx. apply Hothers.
          rewrite <- (firstn_skipn room others). apply in_or_app. now left.
      + apply Nat.ltb_ge in Hroom.
        replace (MAX_BATCH_SIZE - List.length more)%nat with 0%nat by lia.
        simpl. rewrite app_nil_r. apply Hother.
        intros tx Htx. apply Hmore.
        rewrite <- (firstn_skipn MAX_BATCH_SIZE more).
        apply in_or_app. now left.
    - apply filter_none. intros tx Htx.
      apply finalTransactions_in in Htx.
      destruct (ofType native_transfer tx) eqn:Hty; [|reflexivity].
      assert (Hin : In tx (List.filter (ofType native_transfer)
                             (mergedTransactions w inp)))
        by (apply filter_In; auto).
      rewrite Hcandidates in Hin. contradiction. }
  assert (Hreach : forall tx,
            In tx (finalTransactions (mergedTransactions w inp)) ->
            In tx (mergedTransactions w inp))
    by (intros tx; apply finalTransactions_in).
  split; [exact Hcandidates|]. split; [exact Hfinal|].
  split; [|split; [|split; [|apply reserveWei_not_a_finney]]].
  - intros c calls Hin. apply sweep_sendCalls in Hin as (_ & Hcalls & _).
    apply formatCalls_of_candidates in Hcalls.
    2:{ apply Forall_forall. intros tx Htx.
        destruct (Hentries tx (Hreach tx Htx)) as (Hv & Hd & _). auto. }
    rewrite Hcalls, filter_map_commute. cbn [call_value].
    rewrite (filter_ext_in _ (ofType native_transfer)).
    2:{ intros tx Htx.
        destruct (Hentries tx (Hreach tx Htx))
          as (_ & _ & [(Hty & Hgt & Hn) | (Hty & Hzero)]).
        - rewrite Hty. unfold nativeTransfers in Hn. rewrite Hgt in Hn.
          destruct Hn as [<-|[]]. unfold txAmount. simpl.
          apply Z.ltb_lt in Hgt.
          destruct (nativeBalance inp - reserveWei inp =? 0) eqn:E;
            [apply Z.eqb_eq in E; lia | reflexivity].
        - rewrite Hty. unfold txAmount. now rewrite Hzero. }
    rewrite Hfinal. destruct emitted; [|reflexivity].
    simpl. unfold txAmount. simpl. unfold TARGET.
    now rewrite toLowerCase_idempotent.
  - intros Haddr Hchain Hemitted Hto. rewrite Hemitted in Hfinal.
    assert (Hin : In native (finalTransactions (mergedTransactions w inp))).
    { assert (H : In native
                    (List.filter (ofType native_transfer)
                       (finalTransactions (mergedTransactions w inp))))
        by (rewrite Hfinal; now left).
      now apply filter_In in H as [H _]. }
    destruct (sweep_submits w inp Haddr Hchain) as [Hsent _].
    + intros Hnil. rewrite Hnil in Hin. contradiction.
    + rewrite Forall_forall in Hto |- *. intros tx Htx.
      destruct (Hentries tx (Hreach tx Htx)) as ([v Hv] & Hdata & _).
      rewrite Hv. auto.
    + eexists. split; [exact Hsent|].
      apply in_map_iff. exists native. split; [|exact Hin].
      simpl. unfold txAmount. simpl. unfold TARGET.
      now rewrite toLowerCase_idempotent.
  - intros Hfew. subst emitted.
    destruct (reserveWei inp <? nativeBalance inp) eqn:Hgt; [|reflexivity].
    simpl. apply Nat.ltb_lt.
    assert (Hsplit : mergedTransactions w inp
                     = native :: List.tl (mergedTransactions w inp)).
    { rewrite mergedTransactions_eq. unfold nativeTransfers.
      rewrite Hgt. reflexivity. }
    subst worthMore. rewrite Hsplit in Hfew |- *.
    cbn [List.filter List.length] in Hfew |- *.
    assert (Hself : Qltb (tx_usd_value native) (tx_usd_value native) = false).
    { unfold Qltb.
      now rewrite (proj1 (Qeq_alt _ _) (Qeq_refl (tx_usd_value native))). }
    rewrite Hself.
    pose proof (filter_length_le
                  (fun tx => Qltb (tx_usd_value native) (tx_usd_value tx))
                  (List.tl (mergedTransactions w inp))) as Hle.
    unfold MAX_BATCH_SIZE in *. lia.
Qed.

Lemma native_transfer_leaves_reserve_witness :
  let inp := exampleInputs [] [] (10 ^ 18) in
  let w := worldWithReverting [] in
  let call :=
    {| call_to := "0x9d5befd138960ddf0dc4368a036bfad420e306ef";
       call_value := 999582400000000000;
       call_data := None |} in
  In (SendCalls 1 [call]) (snd (executeBatchTransfer w inp []))
  /\ reserveWei inp = 417600000000000
  /\ List.filter (fun call => negb (call_value call =? 0)) [call]
     = [ {| call_to := TARGET inp;
            call_value := nativeBalance inp - reserveWei inp;
            call_data := None |} ].
Proof.
  intros inp w call.
  assert (Hin : In (SendCalls 1 [call]) (snd (executeBatchTransfer w inp [])))
    by (vm_compute; auto).
  split; [exact Hin|]. split; [reflexivity|].
  rewrite (proj1 (proj2 (proj2 (native_transfer_leaves_reserve w inp)))
             1 [call] Hin).
  vm_compute. reflexivity.
Defined.

(** C1 fails as stated: a native balance above the reserve does not make the
    native transfer part of the batch.  With 1 ETH of unknown USD value and
    ten ERC-721 tokens of floor price 12.5, the native transfer is among the
    candidates, the cap keeps the ten NFT transfers, and the batch that is
    handed to the wallet holds ten calls without value. *)
Lemma native_transfer_dropped_by_cap :
  let nfts :=
    List.map
      (fun id => exampleNft "ERC721"
                   "0x4444444444444444444444444444444444444444" id
                   (JString "12.5"))
      [1; 2; 3; 4; 5; 6; 7; 8; 9; 10] in
  let inp := exampleInputs [] nfts (10 ^ 18) in
  let w := worldWithReverting [] in
  reserveWei inp < nativeBalance inp
  /\ List.map tx_value
       (List.filter (ofType native_transfer) (mergedTransactions w inp))
     = [JBigInt (nativeBalance inp - reserveWei inp)]
  /\ List.filter (ofType native_transfer)
       (finalTransactions (mergedTransactions w inp)) = []
  /\ fst (executeBatchTransfer w inp []) = Ok Submitted
  /\ List.map (fun e => match e with
                        | SendCalls _ calls => List.map call_value calls
                        | _ => []
                        end)
       (List.filter isSendCalls (snd (executeBatchTransfer w inp [])))
     = [[0; 0; 0; 0; 0; 0; 0; 0; 0; 0]].
Proof.
  intros nfts inp w.
  split; [reflexivity|]. split; [vm_compute; reflexivity|].
  split; [vm_compute; reflexivity|]. split; vm_compute; reflexivity.
Qed.

(** ** All or nothing *)

Lemma simulated_calls_are_not_batches (account : string)
    (txs : list Transaction) :
  List.filter isSendCalls
    (List.map (fun tx => EthCall (precheckRequest account tx)) txs) = [].
Proof. induction txs as [|tx txs IH]; [reflexivity | exact IH]. Qed.

(** The entries of the final list of a sweep pass the tests of the value and
    of the payload: only the address test can reject one of them. *)
Lemma final_entries (w : World) (inp : Inputs) :
  Forall (fun tx => isBigInt (tx_value tx) = true
                    /\ normalizeData (tx_data tx) = tx_data tx
                    /\ failsValidation tx = malformedTo (tx_to tx))
    (finalTransactions (mergedTransactions w inp)).
Proof.
  pose proof (merged_entries w inp) as Hentries.
  rewrite Forall_forall in *. intros tx Htx.
  apply finalTransactions_in in Htx.
  destruct (Hentries tx Htx) as ([v Hv] & Hdata & _).
  split; [now rewrite Hv|]. split; [exact Hdata|].
  unfold failsValidation. rewrite Hv. simpl. rewrite orb_false_r.
  unfold normalizeData in Hdata.
  destruct (tx_data tx) as [d|]; [|now rewrite orb_false_r].
  destruct (startsWith d "0x") eqn:Hprefix; simpl in *; [|discriminate].
  destruct (2 <? String.length d)%nat eqn:Hlen; [|discriminate].
  apply Nat.ltb_lt in Hlen.
  replace (String.length d <? 2)%nat with false
    by (symmetry; apply Nat.ltb_ge; lia).
  now rewrite andb_false_r, orb_false_r.
Qed.

(** C6.  The final list of a sweep is handed to the wallet as a whole or not
    at all.  When it is empty the operation ends with the "no valid
    transactions" alert: no wallet call, no exception.  When one of its
    entries fails a test of the validation the operation is aborted with an
    alert and no wallet call.  Every entry has a [bigint] value and a payload
    that is absent or starts with ["0x"]; so it is the address test that
    rejects.  A wallet call is issued at most once, only when no entry fails,
    and it carries one call per entry of the final list, in order. *)
Theorem batch_is_all_or_nothing (w : World) (inp : Inputs) :
  nonEmpty (address inp) = true ->
  let final := finalTransactions (mergedTransactions w inp) in
  let simulated :=
    List.map (fun tx => EthCall (precheckRequest (address inp) tx))
      (erc20PrecheckTransactions inp) in
  let run := executeBatchTransfer w inp [] in
  (final = [] ->
   run = (Ok NothingToTransfer,
          SetIsPrechecking true
            :: simulated
            ++ [Alert NoValidTransactionsFound; SetIsPrechecking false]))
  /\ (existsb failsValidation final = true ->
      exists e : Error,
        run = (Ok (Aborted e),
               SetIsPrechecking true
                 :: simulated
                 ++ [Alert (ErrorMessage e); SetIsPrechecking false;
                     SetCurrentSendCallsOperation None]))
  /\ Forall (fun tx => isBigInt (tx_value tx) = true
                       /\ normalizeData (tx_data tx) = tx_data tx
                       /\ failsValidation tx = malformedTo (tx_to tx)) final
  /\ (forall (c : Z) (calls : list Call),
        In (SendCalls c calls) (snd run) ->
        existsb failsValidation final = false
        /\ c = chainId inp
        /\ List.filter isSendCalls (snd run) = [SendCalls c calls]
        /\ calls
           = List.map (fun tx => {| call_to := toLowerCase (tx_to tx);
                                    call_value := txAmount tx;
                                    call_data := tx_data tx |}) final)
  /\ (final <> [] -> existsb failsValidation final = false ->
      chainId inp <> 0 ->
      In (SendCalls (chainId inp)
            (List.map (fun tx => {| call_to := toLowerCase (tx_to tx);
                                    call_value := txAmount tx;
                                    call_data := tx_data tx |}) final))
        (snd run)
      /\ (fst run = Ok Submitted \/ fst run = Ok (Aborted WalletRejected))).
Proof.
  intros Haddr final simulated run.
  pose proof (final_entries w inp) as Hentries. fold final in Hentries.
  assert (Hrun : run
    = (fst (submitter w (chainId inp) (operationType inp) final []),
       SetIsPrechecking true
         :: simulated
         ++ snd (submitter w (chainId inp) (operationType inp) final [])))
    by (apply executeBatchTransfer_eq; exact Haddr).
  assert (Habort : existsb failsValidation final = true ->
            exists e : Error,
              submitter w (chainId inp) (operationType inp) final []
              = (Ok (Aborted e),
                 [Alert (ErrorMessage e); SetIsPrechecking false;
                  SetCurrentSendCallsOperation None])).
  { intros Hfails.
    assert (Hrejected : existsb (entryRejected w) final = true).
    { apply existsb_exists in Hfails as (tx & Htx & Hbad).
      apply existsb_exists. exists tx. split; [exact Htx|].
      rewrite Forall_forall in Hentries.
      destruct (Hentries tx Htx) as (_ & _ & Heq).
      unfold entryRejected. rewrite <- Heq, Hbad. reflexivity. }
    assert (Hne : final <> []) by (intros E; rewrite E in Hfails; discriminate).
    rewrite submitter_eq by exact Hne.
    destruct (formatCalls_rejected w final 0%nat Hrejected) as [e ->].
    eauto. }
  split; [|split; [|split; [|split]]].
  5:{ intros Hne Hpasses Hchain.
      apply (sweep_submits w inp Haddr Hchain Hne).
      rewrite Forall_forall in Hentries |- *. intros tx Htx.
      destruct (Hentries tx Htx) as (Hbig & Hdata & Heq).
      split; [exact Hbig|]. split; [exact Hdata|].
      rewrite <- Heq.
      destruct (failsValidation tx) eqn:Hbad; [|reflexivity].
      assert (Hex : existsb failsValidation final = true)
        by (apply existsb_exists; eauto).
      congruence. }
  - intros Hempty. rewrite Hrun, Hempty. reflexivity.
  - intros Hfails. destruct (Habort Hfails) as [e He].
    exists e. rewrite Hrun, He. reflexivity.
  - exact Hentries.
  - intros c calls Hin.
    assert (Hsub : In (SendCalls c calls)
                     (snd (submitter w (chainId inp) (operationType inp)
                             final []))).
    { rewrite Hrun in Hin. cbn [snd] in Hin.
      destruct Hin as [Hin|Hin]; [discriminate|].
      apply in_app_or in Hin as [Hin|Hin]; [|exact Hin].
      apply in_map_EthCall in Hin. discriminate. }
    assert (Hpasses : existsb failsValidation final = false).
    { destruct (existsb failsValidation final) eqn:Hfails; [|reflexivity].
      destruct (Habort eq_refl) as [e He]. rewrite He in Hsub.
      destruct Hsub as [H|[H|[H|[]]]]; discriminate. }
    destruct (submitter_sendCalls w _ _ _ _ _ Hsub) as (-> & Hcalls & Hne).
    split; [exact Hpasses|]. split; [reflexivity|]. split.
    + rewrite Hrun. cbn [snd List.filter isSendCalls].
      rewrite filter_app. unfold simulated.
      rewrite simulated_calls_are_not_batches. cbn [app].
      rewrite submitter_eq in Hsub |- * by exact Hne.
      rewrite Hcalls in Hsub |- *.
      destruct (chainId inp =? 0).
      { destruct Hsub as [H|[H|[H|[]]]]; discriminate. }
      destruct (sendCalls w (chainId inp) calls); reflexivity.
    + eapply formatCalls_of_candidates; [|exact Hcalls].
      eapply Forall_impl; [|exact Hentries].
      intros tx (Hbig & Hdata & _). split; [|exact Hdata].
      destruct (tx_value tx); try discriminate. eauto.
Qed.

Lemma batch_is_all_or_nothing_witness :
  let nfts :=
    [ exampleNft "ERC721" "0x44" 42 (JString "12.5") ] in
  let inp := exampleInputs [] nfts (10 ^ 18) in
  let w := worldWithReverting [] in
  nonEmpty (address inp) = true
  /\ existsb failsValidation (finalTransactions (mergedTransactions w inp))
     = true
  /\ exists e : Error,
       executeBatchTransfer w inp []
       = (Ok (Aborted e),
          [SetIsPrechecking true; Alert (ErrorMessage e);
           SetIsPrechecking false; SetCurrentSendCallsOperation None]).
Proof.
  intros nfts inp w.
  assert (Haddr : nonEmpty (address inp) = true) by reflexivity.
  assert (Hfails : existsb failsValidation
                     (finalTransactions (mergedTransactions w inp)) = true)
    by (vm_compute; reflexivity).
  split; [exact Haddr|]. split; [exact Hfails|].
  exact (proj1 (proj2 (batch_is_all_or_nothing w inp Haddr)) Hfails).
Defined.

(** ** The two rankings *)




